(** * Mandelbrot: tile queue, escape-time kernel, colour mapping, parameter validation

    A shallow embedding of the Mandelbrot viewer (Mandelbrot.cpp,
    WorkQueue.cpp/.h, HSVtoRGB.cpp/.h, QuadDoubleStack.cpp/.h,
    ApplicationRegistry.cpp/.h) together with the properties of it that the
    specification states, and further properties of the code: the two
    containers under arbitrary calls and their destructors, the worker
    thread and the render, the messages of the window procedure, parameter
    files, and the registry class.

    Conventions.
    - A C [int] is a [Z]; arithmetic that can leave the 32-bit range goes
      through [Int32.wrap].  A [uint32_t] is a [Z] reduced by [UInt32.wrap].
    - A C [double] is an IEEE-754 binary64 number, [spec_float] with
      precision 53 and maximal exponent 1024.
    - The heap of [WorkItem] nodes is a finite map from addresses to nodes;
      [NULL] is [None].  An operation that would dereference [NULL] or a
      dangling pointer returns [None].  Code with loops returns a [run]:
      a result, a fault, or out of fuel.
    - The conversions [(long)] and [(int)] of a [double] in the HSV colour
      path are the processor's: a NaN or a value out of range gives the
      "integer indefinite" value [INT_MIN].
    - Calls into the system (file, registry and version-information
      functions) are given by what they return.  A file is the list of its
      bytes; an [int] and a [double] are stored least significant byte
      first. *)

From Stdlib Require Import ZArith Lia Bool.
From Stdlib Require Import Floats.SpecFloat.
From stdpp Require Import base option list gmap strings.

Local Open Scope Z_scope.

(** ** Machine integers *)

Module Int32.
Definition min_signed : Z := - 2 ^ 31.
Definition max_signed : Z := 2 ^ 31 - 1.

(** Two's-complement reduction into the range of [int]. *)
Definition wrap (z : Z) : Z := (z + 2 ^ 31) mod 2 ^ 32 - 2 ^ 31.

Definition in_range (z : Z) : Prop := min_signed <= z <= max_signed.

Definition add (a b : Z) : Z := wrap (a + b).
Definition sub (a b : Z) : Z := wrap (a - b).
(** C division truncates toward zero. *)
Definition div (a b : Z) : Z := wrap (Z.quot a b).
Definition min (a b : Z) : Z := if a <? b then a else b.
End Int32.

Module UInt32.
Definition wrap (z : Z) : Z := z mod 2 ^ 32.
Definition add (a b : Z) : Z := wrap (a + b).
Definition shl (a n : Z) : Z := wrap (Z.shiftl a n).
Definition shr (a n : Z) : Z := Z.shiftr a n.
End UInt32.

(** How a run of code that loops or follows pointers ends: with a result,
    in undefined behaviour (a null or dangling pointer, an index outside an
    array, a conversion or division without a value), or not within the
    number of loop passes the model was given. *)
Inductive run (A : Type) : Type :=
  | Ret (a : A)
  | Fault
  | OutOfFuel.
Arguments Ret {A} a.
Arguments Fault {A}.
Arguments OutOfFuel {A}.

(** A work item: the pixel range [StartPixel, EndPixel) that a worker walks
    with [for (Pixel = StartPixel; Pixel < EndPixel; ++Pixel)]. *)
Definition tile : Type := (Z * Z)%type.

(** ** WorkQueue.cpp / WorkQueue.h *)

Module WorkQueue.

Definition addr := positive.

Record WorkItem := mkWorkItem {
  _next : option addr;
  _last : option addr;
  _StartPixel : Z;
  _EndPixel : Z
}.

(** The object: the two list pointers, the [_Slices] member, and the part of
    the free store that holds its nodes. *)
Record t := mk {
  heap : gmap addr WorkItem;
  _head : option addr;
  _tail : option addr;
  _Slices : Z
}.

(** [WorkQueue::WorkQueue()] assigns [_head] and [_tail] only; [_Slices] keeps
    whatever the storage held, given here as [indeterminate]. *)
Definition new (indeterminate : Z) : t :=
  {| heap := ∅; _head := None; _tail := None; _Slices := indeterminate |}.

Definition getSlices (q : t) : Z := _Slices q.

(** [new WorkItem]: an address not in use. *)
Definition alloc (h : gmap addr WorkItem) : addr := fresh (dom h).

Definition set_last (v : option addr) (w : WorkItem) : WorkItem :=
  {| _next := _next w; _last := v;
     _StartPixel := _StartPixel w; _EndPixel := _EndPixel w |}.

Definition set_next (v : option addr) (w : WorkItem) : WorkItem :=
  {| _next := v; _last := _last w;
     _StartPixel := _StartPixel w; _EndPixel := _EndPixel w |}.

Definition Enqueue (StartPixel EndPixel : Z) (q : t) : option t :=
  let temp := alloc (heap q) in
  match _head q with
  | None =>
      (* Insert the first work item. *)
      Some {| heap := <[temp := mkWorkItem None None StartPixel EndPixel]> (heap q);
              _head := Some temp; _tail := Some temp; _Slices := _Slices q |}
  | Some hd =>
      (* Insert the second and subsequent work item. *)
      hdItem ← heap q !! hd;
      let h1 := <[hd := set_last (Some temp) hdItem]> (heap q) in
      let h2 := <[temp := mkWorkItem (Some hd) None StartPixel EndPixel]> h1 in
      Some {| heap := h2; _head := Some temp; _tail := _tail q; _Slices := _Slices q |}
  end.

(** The result is [None] on a memory error, otherwise the returned [BOOL]
    (as the tile written through the reference parameters, when [true])
    and the queue afterwards. *)
Definition Dequeue (q : t) : option (option tile * t) :=
  match _tail q with
  | None => Some (None, q)
  | Some tl =>
      tlItem ← heap q !! tl;
      let out := (_StartPixel tlItem, _EndPixel tlItem) in
      if decide (_head q = _tail q) then
        (* Delete the only work item. *)
        Some (Some out,
              {| heap := delete tl (heap q); _head := None; _tail := None;
                 _Slices := _Slices q |})
      else
        (* Delete the last work item. *)
        prev ← _last tlItem;
        prevItem ← heap q !! prev;
        let h1 := <[prev := set_next None prevItem]> (heap q) in
        Some (Some out,
              {| heap := delete tl h1; _head := _head q; _tail := Some prev;
                 _Slices := _Slices q |})
  end.

(** Enqueue a batch in list order, as the render set-up does. *)
Fixpoint enqueue_all (ts : list tile) (q : t) : option t :=
  match ts with
  | [] => Some q
  | (s, e) :: ts' => q' ← Enqueue s e q; enqueue_all ts' q'
  end.

(** Call [Dequeue] [n] times, collecting the results of the calls. *)
Fixpoint dequeue_n (n : nat) (q : t) : option (list (option tile) * t) :=
  match n with
  | O => Some ([], q)
  | S n' =>
      '(r, q') ← Dequeue q;
      '(rs, q'') ← dequeue_n n' q';
      Some (r :: rs, q'')
  end.

(** [WorkQueue::~WorkQueue()]:
    [while (_head != NULL) { temp = _head->_next; delete _head;
                             _head = temp; _head->_last = NULL; }] *)
Fixpoint destructor (fuel : nat) (q : t) : run t :=
  match _head q with
  | None => Ret q
  | Some hd =>
      match fuel with
      | O => OutOfFuel
      | S fuel' =>
          match heap q !! hd with
          | None => Fault
          | Some hdItem =>
              let temp := _next hdItem in
              let h1 := delete hd (heap q) in
              (* _head = temp; _head->_last = NULL; *)
              match temp with
              | None => Fault
              | Some nx =>
                  match h1 !! nx with
                  | None => Fault
                  | Some nxItem =>
                      destructor fuel'
                        {| heap := <[nx := set_last None nxItem]> h1;
                           _head := Some nx; _tail := _tail q;
                           _Slices := _Slices q |}
                  end
              end
          end
      end
  end.

(** A call of one of the two public operations, and what the call hands
    back: the [BOOL] of [Dequeue] with the tile it wrote when [true]. *)
Inductive call :=
  | CallEnqueue (StartPixel EndPixel : Z)
  | CallDequeue.

(** Run a sequence of calls, collecting what the [Dequeue] calls return;
    [None] on a memory error. *)
Fixpoint calls (cs : list call) (q : t) : option (list (option tile) * t) :=
  match cs with
  | [] => Some ([], q)
  | CallEnqueue s e :: cs' => q' ← Enqueue s e q; calls cs' q'
  | CallDequeue :: cs' =>
      '(r, q') ← Dequeue q;
      '(rs, q'') ← calls cs' q';
      Some (r :: rs, q'')
  end.

End WorkQueue.

(** ** IEEE-754 binary64, the C [double] *)

Module Double.
Definition prec : Z := 53.
Definition emax : Z := 1024.

Definition t : Type := spec_float.

Definition add : t -> t -> t := SFadd prec emax.
Definition sub : t -> t -> t := SFsub prec emax.
Definition mul : t -> t -> t := SFmul prec emax.
Definition div : t -> t -> t := SFdiv prec emax.
Definition opp : t -> t := SFopp.

(** [x <= y] and [x >= y]; both are false when an operand is a NaN. *)
Definition le (x y : t) : bool := SFleb x y.
Definition ge (x y : t) : bool := SFleb y x.

(** Conversion of an [int] (exact: an [int] has at most 31 significant bits). *)
Definition of_int (z : Z) : t := binary_normalize prec emax z 0 false.

Definition zero : t := S754_zero false.
Definition half : t := S754_finite false 4503599627370496 (-53).

(** Conversion to an integer type discards the fractional part. *)
Definition trunc (x : t) : option Z :=
  match x with
  | S754_zero _ => Some 0
  | S754_finite s m e =>
      let a := Z.shiftl (Zpos m) e in Some (if s then - a else a)
  | S754_infinity _ | S754_nan => None
  end.

(** [(int)x] and [(long)x] (both 32 bits wide here): defined only when the
    truncated value is representable. *)
Definition to_int (x : t) : option Z :=
  z ← trunc x;
  if (Int32.min_signed <=? z) && (z <=? Int32.max_signed) then Some z else None.

(** [(COLORREF)x], an unsigned 32-bit integer. *)
Definition to_uint32 (x : t) : option Z :=
  z ← trunc x;
  if (0 <=? z) && (z <? 2 ^ 32) then Some z else None.

(** [(int)x] and [(long)x] as the compiled program computes them, with the
    conversion instruction [cvttsd2si]: the truncated value when it is
    representable and otherwise (a NaN, an infinity, a value out of range)
    the "integer indefinite" value 0x80000000, which is [INT_MIN]. *)
Definition cvttsd2si (x : t) : Z :=
  match to_int x with
  | Some z => z
  | None => Int32.min_signed
  end.

(** [x < y]; false when an operand is a NaN. *)
Definition lt (x y : t) : bool := SFltb x y.

Definition is_nan (x : t) : bool :=
  match x with
  | S754_nan => true
  | _ => false
  end.

(** A value of the type: a mantissa of at most 53 bits with the exponent
    that belongs to it. *)
Definition valid (x : t) : Prop := valid_binary prec emax x = true.

(** The 64 bits of a [double] in memory (the binary64 interchange format):
    the sign, 11 bits of biased exponent, 52 bits of fraction.  The model
    does not tell NaNs apart; its NaN is stored as 0x7FF8000000000000. *)
Definition sign_bit (s : bool) : Z := if s then 2 ^ 63 else 0.

Definition bits (x : t) : Z :=
  match x with
  | S754_zero s => sign_bit s
  | S754_infinity s => sign_bit s + 2047 * 2 ^ 52
  | S754_nan => 2047 * 2 ^ 52 + 2 ^ 51
  | S754_finite s m e =>
      if Zpos m <? 2 ^ 52
      then sign_bit s + Zpos m                              (* subnormal *)
      else sign_bit s + (e + 1075) * 2 ^ 52 + (Zpos m - 2 ^ 52)
  end.

Definition of_bits (z : Z) : t :=
  let s := Z.testbit z 63 in
  let E := (z / 2 ^ 52) mod 2 ^ 11 in
  let M := z mod 2 ^ 52 in
  if E =? 0 then
    if M =? 0 then S754_zero s else S754_finite s (Z.to_pos M) (-1074)
  else if E =? 2047 then
    if M =? 0 then S754_infinity s else S754_nan
  else S754_finite s (Z.to_pos (M + 2 ^ 52)) (E - 1075).
End Double.

(** ** HSVtoRGB.h / HSVtoRGB.cpp *)

Module HSVtoRGB.

Record sRGB := mkRGB { r : Double.t; g : Double.t; b : Double.t }.
Record sHSV := mkHSV { h : Double.t; s : Double.t; v : Double.t }.

Section Log.
(** The [log] of the C library; it is not part of this code base. *)
Variable log : Double.t -> Double.t.

Definition log3 (x : Double.t) : Double.t := log (log (log x)).

(** [mandelbrotHSV].  The function-local [static double lllmax_iterations]
    is the explicit [cache]: [None] until the first call has run its
    initialiser, and never written again afterwards. *)
Definition mandelbrotHSV (cache : option Double.t) (iteration max_iterations : Z)
  : sHSV * option Double.t :=
  let lllmax_iterations :=
    match cache with
    | Some c => c
    | None => log3 (Double.of_int max_iterations)
    end in
  let color :=
    if iteration =? max_iterations then
      (* Case of in the set - black *)
      mkHSV Double.zero Double.zero Double.zero
    else
      let norm_iteration :=
        Double.div (log3 (Double.of_int iteration)) lllmax_iterations in
      mkHSV (Double.mul norm_iteration (Double.of_int 360))
            (Double.of_int 1) (Double.of_int 1) in
  (color, Some lllmax_iterations).
End Log.

Definition hsv2rgb (i_n : sHSV) : sRGB :=
  if Double.le (s i_n) Double.zero then
    mkRGB (v i_n) (v i_n) (v i_n)
  else
    let hh := h i_n in
    let hh := if Double.ge hh (Double.of_int 360) then Double.zero else hh in
    let hh := Double.div hh (Double.of_int 60) in
    let i := Double.cvttsd2si hh in
    let one := Double.of_int 1 in
    let ff := Double.sub hh (Double.of_int i) in
    let p := Double.mul (v i_n) (Double.sub one (s i_n)) in
    let q := Double.mul (v i_n) (Double.sub one (Double.mul (s i_n) ff)) in
    let t := Double.mul (v i_n)
               (Double.sub one (Double.mul (s i_n) (Double.sub one ff))) in
    match i with
    | 0 => mkRGB (v i_n) t p
    | 1 => mkRGB q (v i_n) p
    | 2 => mkRGB p (v i_n) t
    | 3 => mkRGB p q (v i_n)
    | 4 => mkRGB t p (v i_n)
    | _ => mkRGB (v i_n) p q
    end.

(** RGB becomes BGR; alpha is left zero. *)
Definition ReverseRGBBytes (input : Z) : Z :=
  let temp := 0 in
  let temp := UInt32.add temp (UInt32.shl (Z.land input 0x000000ff) 16) in
  let temp := UInt32.add temp (Z.land input 0x0000ff00) in
  let temp := UInt32.add temp (UInt32.shr (Z.land input 0x00ff0000) 16) in
  temp.

End HSVtoRGB.

(** ** The worker: [MandelbrotWorkerThread] in Mandelbrot.cpp *)

Module Worker.

(** The number type of one arithmetic path of the worker.  The FPU path
    computes in [double]; the TTMath path computes in [ttmath::Big<1, 4>],
    a library type that is not part of this code base.  Both paths run the
    same statements over their own type, so the loop is written once over
    this interface. *)
Record Backend := mkBackend {
  num : Type;
  of_double : Double.t -> num;
  plus : num -> num -> num;
  minus : num -> num -> num;
  times : num -> num -> num;
  le : num -> num -> bool
}.

(** Case of using the old FPU logic. *)
Definition FPU : Backend :=
  {| num := Double.t; of_double := fun x => x;
     plus := Double.add; minus := Double.sub; times := Double.mul;
     le := Double.le |}.

Section Kernel.
Variable B : Backend.

(** [while (x2 + y2 <= 4.0 && iteration < Iterations) { ... }].
    [fuel] bounds the number of passes through the body; the result is
    [None] if it runs out before the loop condition fails. *)
Fixpoint escape_loop (fuel : nat) (x0 y0 x y x2 y2 : num B)
    (iteration Iterations : Z) : option Z :=
  if le B (plus B x2 y2) (of_double B (Double.of_int 4))
     && (iteration <? Iterations)
  then
    match fuel with
    | O => None
    | S fuel' =>
        let y := plus B (times B (plus B x x) y) y0 in
        let x := plus B (minus B x2 y2) x0 in
        let x2 := times B x x in
        let y2 := times B y y in
        escape_loop fuel' x0 y0 x y x2 y2 (Int32.add iteration 1) Iterations
    end
  else Some iteration.

(** The iteration count of one point: initial values, then the loop. *)
Definition escape_time_fuel (fuel : nat) (x0 y0 : num B) (Iterations : Z) : option Z :=
  let z := of_double B Double.zero in
  escape_loop fuel x0 y0 z z z z 0 Iterations.

Definition escape_time (x0 y0 : num B) (Iterations : Z) : option Z :=
  escape_time_fuel (Z.to_nat Iterations) x0 y0 Iterations.
End Kernel.

(** The old RGB system:
    [ReverseRGBBytes((COLORREF)(-16777216.0 / Iterations * iteration + 16777216.0))]. *)
Definition rgb_index (iteration Iterations : Z) : Double.t :=
  Double.add
    (Double.mul
       (Double.div (Double.opp (Double.of_int 16777216)) (Double.of_int Iterations))
       (Double.of_int iteration))
    (Double.of_int 16777216).

Definition rgb_pixel (iteration Iterations : Z) : option Z :=
  c ← Double.to_uint32 (rgb_index iteration Iterations);
  Some (HSVtoRGB.ReverseRGBBytes c).

(** [(int)(f * 255 + 0.5)] *)
Definition channel (f : Double.t) : Z :=
  Double.cvttsd2si (Double.add (Double.mul f (Double.of_int 255)) Double.half).

(** [r + (g << 8) + (b << 16)], stored into a [uint32_t]. *)
Definition pack (rgb : HSVtoRGB.sRGB) : Z :=
  let cr := channel (HSVtoRGB.r rgb) in
  let cg := channel (HSVtoRGB.g rgb) in
  let cb := channel (HSVtoRGB.b rgb) in
  UInt32.wrap
    (Int32.add (Int32.add cr (Int32.wrap (Z.shiftl cg 8)))
               (Int32.wrap (Z.shiftl cb 16))).

Section Colour.
Variable log : Double.t -> Double.t.

(** The new HSV system.  The static of [mandelbrotHSV] is threaded. *)
Definition hsv_pixel (cache : option Double.t) (iteration Iterations : Z)
  : Z * option Double.t :=
  let '(hsv, cache') := HSVtoRGB.mandelbrotHSV log cache iteration Iterations in
  (pack (HSVtoRGB.hsv2rgb hsv), cache').

(** The value stored into [BitmapData[Pixel]] for an iteration count;
    [None] when the conversion to [COLORREF] in the old RGB system has no
    value. *)
Definition pixel_value (bUseHSV : Z) (cache : option Double.t)
    (iteration Iterations : Z) : option Z * option Double.t :=
  if bUseHSV =? 0 then (rgb_pixel iteration Iterations, cache)
  else let '(value, cache') := hsv_pixel cache iteration Iterations in
       (Some value, cache').
End Colour.

(** The fields of [ThreadProcParameters] that the arithmetic reads. *)
Record ThreadProcParameters := mkThreadProcParameters {
  P_dxMin : Double.t;
  P_dxMax : Double.t;
  P_dyMin : Double.t;
  P_dyMax : Double.t;
  yMaxPixel : Z;
  xMaxPixel : Z;
  P_Iterations : Z;
  P_bUseTTMath : Z
}.

(** [Pixel % P->xMaxPixel] and [Pixel / P->xMaxPixel] on [int]: without a
    value for a zero divisor and for [INT_MIN / -1]. *)
Definition int_defined (a b : Z) : bool :=
  negb (b =? 0) && negb ((a =? Int32.min_signed) && (b =? -1)).

Definition xPixel (P : ThreadProcParameters) (Pixel : Z) : option Z :=
  if int_defined Pixel (xMaxPixel P) then Some (Z.rem Pixel (xMaxPixel P)) else None.

Definition yPixel (P : ThreadProcParameters) (Pixel : Z) : option Z :=
  if int_defined Pixel (xMaxPixel P) then Some (Z.quot Pixel (xMaxPixel P)) else None.

(** [(max - min) / extent * pixel + min]: the real coordinate of a pixel
    position on an axis that shows [min .. max] on [extent] pixels. *)
Definition axis_coordinate (min max : Double.t) (extent pixel : Z) : Double.t :=
  Double.add
    (Double.mul (Double.div (Double.sub max min) (Double.of_int extent))
                (Double.of_int pixel))
    min.

(** "Calculate the real and imaginary coordinates of the point." *)
Definition point (P : ThreadProcParameters) (Pixel : Z) : option (Double.t * Double.t) :=
  xp ← xPixel P Pixel;
  yp ← yPixel P Pixel;
  Some (axis_coordinate (P_dxMin P) (P_dxMax P) (xMaxPixel P) xp,
        axis_coordinate (P_dyMin P) (P_dyMax P) (yMaxPixel P) yp).

(** [BitmapData]: the array of [new uint32_t[...]].  An element is [None]
    as long as nothing has been stored in it. *)
Abbreviation Bitmap := (list (option Z)).

(** [P->BitmapData[Pixel] = value]; no value outside the array. *)
Definition store (Pixel value : Z) (BitmapData : list (option Z))
    : option (list (option Z)) :=
  if (0 <=? Pixel) && (Pixel <? Z.of_nat (length BitmapData))
  then Some (<[Z.to_nat Pixel := Some value]> BitmapData)
  else None.

Section Thread.
Variable log : Double.t -> Double.t.
(** The [ttmath::Big<1, 4>] path. *)
Variable TTMath : Backend.

(** The iteration count of the point of a pixel, on the path that
    [P->bUseTTMath] selects. *)
Definition pixel_iteration (P : ThreadProcParameters) (Pixel : Z) : run Z :=
  match point P Pixel with
  | None => Fault
  | Some (x0, y0) =>
      let r :=
        if P_bUseTTMath P =? 0
        then escape_time FPU x0 y0 (P_Iterations P)
        else escape_time TTMath (of_double TTMath x0) (of_double TTMath y0)
               (P_Iterations P) in
      match r with
      | Some iteration => Ret iteration
      | None => OutOfFuel
      end
  end.

(** "Loop for each pixel in the slice":
    [for (int Pixel = StartPixel; Pixel < EndPixel; ++Pixel) { ... }].
    The state is the bitmap and the static of [mandelbrotHSV]. *)
Fixpoint pixel_loop (fuel : nat) (P : ThreadProcParameters) (bUseHSV : Z)
    (Pixel EndPixel : Z) (BitmapData : Bitmap) (cache : option Double.t)
    : run (Bitmap * option Double.t) :=
  if Pixel <? EndPixel then
    match fuel with
    | O => OutOfFuel
    | S fuel' =>
        match pixel_iteration P Pixel with
        | Ret iteration =>
            match pixel_value log bUseHSV cache iteration (P_Iterations P) with
            | (Some value, cache') =>
                match store Pixel value BitmapData with
                | Some BitmapData' =>
                    pixel_loop fuel' P bUseHSV (Int32.add Pixel 1) EndPixel
                      BitmapData' cache'
                | None => Fault
                end
            | (None, _) => Fault
            end
        | Fault => Fault
        | OutOfFuel => OutOfFuel
        end
    end
  else Ret (BitmapData, cache).

(** [MandelbrotWorkerThread]: "Loop until no more work to do."  [pbAbort n]
    is what the [n]-th read of [*(P->pbAbort)] by this thread finds (the
    main thread sets the flag), [wq] and [bUseHSV] are the globals.  The
    result is the queue, the bitmap and the static when the thread
    returns. *)
Fixpoint MandelbrotWorkerThread (fuel : nat) (pbAbort : nat -> bool) (n : nat)
    (P : ThreadProcParameters) (bUseHSV : Z)
    (wq : WorkQueue.t) (BitmapData : Bitmap) (cache : option Double.t)
    : run (WorkQueue.t * Bitmap * option Double.t) :=
  match fuel with
  | O => OutOfFuel
  | S fuel' =>
      if pbAbort n then Ret (wq, BitmapData, cache)     (* user pressed ESCAPE *)
      else
        match WorkQueue.Dequeue wq with
        | None => Fault
        | Some (None, wq') => Ret (wq', BitmapData, cache)  (* no more work *)
        | Some (Some (StartPixel, EndPixel), wq') =>
            match pixel_loop (Z.to_nat (EndPixel - StartPixel)) P bUseHSV
                    StartPixel EndPixel BitmapData cache with
            | Ret (BitmapData', cache') =>
                MandelbrotWorkerThread fuel' pbAbort (S n) P bUseHSV
                  wq' BitmapData' cache'
            | Fault => Fault
            | OutOfFuel => OutOfFuel
            end
        end
  end.
End Thread.

End Worker.

(** ** The render set-up in [WndProc], case [WM_PAINT] *)

Module Paint.

(** The [for] loop that creates the work items.  It yields the final
    [EndPixel] and the queue, or [None] when [fuel] passes do not finish
    it (or the queue reports a memory error). *)
Fixpoint enqueue_loop (fuel : nat) (PixelStepSize MaxPixel StartPixel EndPixel : Z)
    (wq : WorkQueue.t) : option (Z * WorkQueue.t) :=
  if EndPixel <? MaxPixel then
    match fuel with
    | O => None
    | S fuel' =>
        wq' ← WorkQueue.Enqueue StartPixel EndPixel wq;
        enqueue_loop fuel' PixelStepSize MaxPixel
          (Int32.add StartPixel PixelStepSize)
          (Int32.min (Int32.add EndPixel PixelStepSize) MaxPixel)
          wq'
    end
  else Some (EndPixel, wq).

(** From [PixelStepSize = MaxPixel / Slices] to "Get the last little bit".
    [indeterminate] is the unassigned [_Slices] of the fresh queue. *)
Definition build_queue (fuel : nat) (indeterminate MaxPixel Slices : Z)
    : option WorkQueue.t :=
  if Slices =? 0 then None
  else
    let PixelStepSize := Int32.div MaxPixel Slices in
    let wq := WorkQueue.new indeterminate in
    '(EndPixel, wq) ← enqueue_loop fuel PixelStepSize MaxPixel 0 PixelStepSize wq;
    if Int32.sub EndPixel PixelStepSize <? MaxPixel
    then WorkQueue.Enqueue (Int32.add (Int32.sub EndPixel PixelStepSize) 1) MaxPixel wq
    else Some wq.

(** [MaxPixel = (rect.bottom - tm.tmHeight) * rect.right] *)
Definition MaxPixel (width height : Z) : Z := Int32.wrap (height * width).

(** The tiles a set of workers will be handed: [Dequeue] until it reports
    that no work is left. *)
Fixpoint drain (fuel : nat) (wq : WorkQueue.t) : option (list tile) :=
  match fuel with
  | O => None
  | S fuel' =>
      '(r, wq') ← WorkQueue.Dequeue wq;
      match r with
      | None => Some []
      | Some t => ts ← drain fuel' wq'; Some (t :: ts)
      end
  end.

Definition tiles (fuel : nat) (width height Slices : Z) : option (list tile) :=
  wq ← build_queue fuel 0 (MaxPixel width height) Slices;
  drain (S fuel) wq.

(** How many of the tiles contain pixel index [p]. *)
Definition in_tile (p : Z) (t : tile) : bool := (fst t <=? p) && (p <? snd t).
Definition cover (ts : list tile) (p : Z) : nat := length (filter (fun t => in_tile p t = true) ts).

End Paint.

(** ** The plot parameters and the two places that replace them *)

Module App.

(** The file-scope statics of Mandelbrot.cpp.  A [BOOL] is an [int]. *)
Record Params := mkParams {
  dxMin : Double.t;
  dxMax : Double.t;
  dyMin : Double.t;
  dyMax : Double.t;
  Iterations : Z;
  Slices : Z;
  Threads : Z;
  bShowAxes : Z;
  bUseHSV : Z;
  bUseTTMath : Z
}.

(** The initial values of the statics: -2.0, 0.47, -1.12, 1.12, 1000,
    5000, 12, false, true, false. *)
Definition initial : Params :=
  {| dxMin := S754_finite true 4503599627370496 (-51);
     dxMax := S754_finite false 8466767299456532 (-54);
     dyMin := S754_finite true 5044031582654956 (-52);
     dyMax := S754_finite false 5044031582654956 (-52);
     Iterations := 1000; Slices := 5000; Threads := 12;
     bShowAxes := 0; bUseHSV := 1; bUseTTMath := 0 |}.

(** An entry of the recall stack [qds] (QuadDoubleStack). *)
Definition quad : Type := (Double.t * Double.t * Double.t * Double.t)%type.

Record State := mkState {
  params : Params;
  qds : list quad
}.

Definition push (p : Params) (stack : list quad) : list quad :=
  (dxMin p, dxMax p, dyMin p, dyMax p) :: stack.

(** *** [ID_FILE_OPEN] *)

(** What the ten [ReadFile] calls deliver, in file order: [None] when the
    call returns [FALSE] (or is not made), otherwise the value that the
    temporary holds after the call. *)
Record FileReads := mkFileReads {
  rd_dxMin : option Double.t;
  rd_dxMax : option Double.t;
  rd_dyMin : option Double.t;
  rd_dyMax : option Double.t;
  rd_Iterations : option Z;
  rd_Slices : option Z;
  rd_Threads : option Z;
  rd_bShowAxes : option Z;
  rd_bUseHSV : option Z;
  rd_bUseTTMath : option Z
}.

(** [if (bReadOK) bReadOK = ReadFile(...)], ten times: the temporaries, or
    [None] once a call has failed. *)
Definition read_record (f : FileReads) : option Params :=
  x1 ← rd_dxMin f; x2 ← rd_dxMax f; y1 ← rd_dyMin f; y2 ← rd_dyMax f;
  it ← rd_Iterations f; sl ← rd_Slices f; th ← rd_Threads f;
  ax ← rd_bShowAxes f; hs ← rd_bUseHSV f; tt ← rd_bUseTTMath f;
  Some (mkParams x1 x2 y1 y2 it sl th ax hs tt).

(** The disjunction after [!bReadOK] in "Validate the reads". *)
Definition file_bounds_violated (p : Params) : bool :=
  Double.ge (dxMin p) (dxMax p)
  || Double.ge (dyMin p) (dyMax p)
  || (Iterations p <? 1)
  || (Slices p <? 1)
  || (Threads p <? 1)
  || (Threads p >? 64).

Definition ID_FILE_OPEN (f : FileReads) (st : State) : State :=
  match read_record f with
  | None => st                                   (* Bad .mbf file! *)
  | Some tmp =>
      if file_bounds_violated tmp then st        (* Bad .mbf file! *)
      else {| params := tmp; qds := push (params st) (qds st) |}
  end.

(** *** The parameters dialog, [IDOK] *)

(** The contents of the dialog when OK is pressed.  A text field is [None]
    when [GetDlgItemText] or [swscanf_s] returns 0, otherwise the scanned
    number. *)
Record DialogInput := mkDialogInput {
  in_XMIN : option Double.t;
  in_XMAX : option Double.t;
  in_YMIN : option Double.t;
  in_YMAX : option Double.t;
  in_ITERATIONS : option Z;
  in_SLICES : option Z;
  in_THREADS : option Z;
  in_SHOW_AXES : bool;
  in_USEHSV : bool;
  in_USETTMATH : bool
}.

(** The message boxes of the handler. *)
Inductive DialogError :=
  | Enter_number_for_X_Min
  | Enter_number_for_X_Max
  | Enter_number_for_Y_Min
  | Enter_number_for_Y_Max
  | Enter_number_for_Iterations
  | Enter_number_for_Slices
  | Enter_number_for_Threads
  | X_Min_must_be_less_than_X_Max
  | Y_Min_must_be_less_than_Y_Max
  | Iterations_must_be_greater_than_zero
  | Slices_must_be_greater_than_zero
  | Threads_must_be_greater_than_zero_and_less_than_65.

(** Each failed check ends the handler with its message ([break]). *)
Definition and_then {A B} (m : DialogError + A) (k : A -> DialogError + B)
  : DialogError + B :=
  match m with
  | inl e => inl e
  | inr a => k a
  end.

Notation "x <~ m ;; k" := (and_then m (fun x => k))
  (at level 100, m at next level, k at level 200, right associativity).

Definition require {A} (o : option A) (e : DialogError) : DialogError + A :=
  match o with
  | Some a => inr a
  | None => inl e
  end.

Definition reject_if (c : bool) (e : DialogError) : DialogError + () :=
  if c then inl e else inr ().

Definition checked (c : bool) : Z := if c then 1 else 0.

(** The checks of the handler in source order; [inl] is the first message
    shown (the dialog stays open), [inr] the accepted temporaries. *)
Definition dialog_checks (d : DialogInput) : DialogError + Params :=
  dxMinTemp <~ require (in_XMIN d) Enter_number_for_X_Min;;
  dxMaxTemp <~ require (in_XMAX d) Enter_number_for_X_Max;;
  dyMinTemp <~ require (in_YMIN d) Enter_number_for_Y_Min;;
  dyMaxTemp <~ require (in_YMAX d) Enter_number_for_Y_Max;;
  IterationsTemp <~ require (in_ITERATIONS d) Enter_number_for_Iterations;;
  SlicesTemp <~ require (in_SLICES d) Enter_number_for_Slices;;
  ThreadsTemp <~ require (in_THREADS d) Enter_number_for_Threads;;
  _ <~ reject_if (Double.ge dxMinTemp dxMaxTemp) X_Min_must_be_less_than_X_Max;;
  _ <~ reject_if (Double.ge dxMaxTemp dyMaxTemp) Y_Min_must_be_less_than_Y_Max;;
  _ <~ reject_if (IterationsTemp <=? 0) Iterations_must_be_greater_than_zero;;
  _ <~ reject_if (SlicesTemp <=? 0) Slices_must_be_greater_than_zero;;
  _ <~ reject_if ((ThreadsTemp <=? 0) || (ThreadsTemp >=? 65))
        Threads_must_be_greater_than_zero_and_less_than_65;;
  inr (mkParams dxMinTemp dxMaxTemp dyMinTemp dyMaxTemp
         IterationsTemp SlicesTemp ThreadsTemp
         (checked (in_SHOW_AXES d)) (checked (in_USEHSV d))
         (checked (in_USETTMATH d))).

(** The handler: the state afterwards and the message shown, if any. *)
Definition IDOK (d : DialogInput) (st : State) : State * option DialogError :=
  match dialog_checks d with
  | inl e => (st, Some e)
  | inr tmp => ({| params := tmp; qds := push (params st) (qds st) |}, None)
  end.

(** A configuration as the specification's validation rules see it. *)
Definition invalid_ordering (p : Params) : bool :=
  Double.ge (dxMin p) (dxMax p) || Double.ge (dyMin p) (dyMax p).

Definition invalid_counts (p : Params) : bool :=
  (Iterations p <=? 0) || (Slices p <=? 0) || (Threads p <=? 0) || (64 <? Threads p).

End App.

(** ** QuadDoubleStack.cpp / QuadDoubleStack.h: the recall stack *)

Module QuadDoubleStack.

Definition addr := positive.

Record Node := mkNode {
  _next : option addr;
  _dxMin : Double.t;
  _dxMax : Double.t;
  _dyMin : Double.t;
  _dyMax : Double.t
}.

(** The object: [_top] and the part of the free store that holds nodes. *)
Record t := mk {
  heap : gmap addr Node;
  _top : option addr
}.

(** [QuadDoubleStack::QuadDoubleStack()] *)
Definition new : t := {| heap := ∅; _top := None |}.

(** [new Node]: an address not in use.  The free store of the model is
    unbounded, so the branch for a null result is never taken. *)
Definition alloc (h : gmap addr Node) : addr := fresh (dom h).

(** [push]: "Push old coordinates onto the recall stack". *)
Definition push (q : App.quad) (st : t) : t :=
  let '(dxMin, dxMax, dyMin, dyMax) := q in
  let temp := alloc (heap st) in
  {| heap := <[temp := mkNode (_top st) dxMin dxMax dyMin dyMax]> (heap st);
     _top := Some temp |}.

(** [pop].  [None] on a memory error; otherwise the returned [BOOL], as
    the four values written through the references when [true], and the
    stack afterwards. *)
Definition pop (st : t) : option (option App.quad * t) :=
  match _top st with
  | None => Some (None, st)                     (* Recall stack is empty! *)
  | Some top =>
      n ← heap st !! top;
      let temp := _next n in
      Some (Some (_dxMin n, _dxMax n, _dyMin n, _dyMax n),
            {| heap := delete top (heap st); _top := temp |})
  end.

(** [QuadDoubleStack::~QuadDoubleStack()]:
    [while (_top != NULL) { temp = _top; _top = _top->_next; delete temp; }] *)
Fixpoint destructor (fuel : nat) (st : t) : run t :=
  match _top st with
  | None => Ret st
  | Some temp =>
      match fuel with
      | O => OutOfFuel
      | S fuel' =>
          match heap st !! temp with
          | None => Fault
          | Some n =>
              destructor fuel' {| heap := delete temp (heap st); _top := _next n |}
          end
      end
  end.

(** A call of [push] or [pop]; a sequence of calls yields what the [pop]
    calls return. *)
Inductive call :=
  | CallPush (q : App.quad)
  | CallPop.

Fixpoint calls (cs : list call) (st : t) : option (list (option App.quad) * t) :=
  match cs with
  | [] => Some ([], st)
  | CallPush q :: cs' => calls cs' (push q st)
  | CallPop :: cs' =>
      '(r, st') ← pop st;
      '(rs, st'') ← calls cs' st';
      Some (r :: rs, st'')
  end.

End QuadDoubleStack.

(** ** [WndProc]: the messages that change the viewport or the paint state *)

Module WndProc.
Import App.

(** Virtual-key codes. *)
Definition VK_SHIFT : Z := 0x10.
Definition VK_ESCAPE : Z := 0x1B.

(** The [min] and [max] macros of the Windows headers. *)
Definition min (a b : Z) : Z := if a <? b then a else b.
Definition max (a b : Z) : Z := if a >? b then a else b.

Record RECT := mkRECT { left : Z; top : Z; right : Z; bottom : Z }.
Record POINT := mkPOINT { x : Z; y : Z }.

(** What the system delivers while a message is handled: the client
    rectangle of [GetClientRect] and the [tmHeight] of [GetTextMetrics]. *)
Record Env := mkEnv { rect : RECT; tmHeight : Z }.

(** The plot parameters with the recall stack, and the function statics of
    [WndProc] that the handlers below read. *)
Record Wnd := mkWnd {
  app : State;
  bHoldPainting : bool;
  bPaintingHeld : bool;
  tm_tmHeight : Z;
  LeftMouseButtonDown : bool;
  MouseDragOrigin : POINT;
  MouseDragDestination : POINT
}.

(** The statics at program start: zero-initialised. *)
Definition start : Wnd :=
  {| app := {| params := initial; qds := [] |};
     bHoldPainting := false; bPaintingHeld := false; tm_tmHeight := 0;
     LeftMouseButtonDown := false;
     MouseDragOrigin := mkPOINT 0 0; MouseDragDestination := mkPOINT 0 0 |}.

(** What a handler asks of the system, as far as it is followed here:
    [InvalidateRect] (a repaint request), a render of the image from the
    parameters in force, and a refresh of the window from the bitmap. *)
Inductive Effect :=
  | InvalidateRect
  | Render (p : Params)
  | Refresh.

Inductive Msg :=
  | WM_PAINT
  | WM_KEYDOWN (wParam : Z)
  | WM_KEYUP (wParam : Z)
  | WM_MOUSEWHEEL (MousePoint : POINT) (iMouseDelta : Z)
  | WM_RBUTTONDOWN
  | WM_LBUTTONDOWN (lParam : POINT)
  | WM_MOUSEMOVE (lParam : POINT)
  | WM_LBUTTONUP (lParam : POINT)
  | WM_COMMAND_ID_FILE_OPEN (f : FileReads)
  | WM_COMMAND_IDM_PARAMETERS (IDOKs : list DialogInput).

Definition with_app (a : State) (w : Wnd) : Wnd :=
  {| app := a;
     bHoldPainting := bHoldPainting w; bPaintingHeld := bPaintingHeld w;
     tm_tmHeight := tm_tmHeight w;
     LeftMouseButtonDown := LeftMouseButtonDown w;
     MouseDragOrigin := MouseDragOrigin w;
     MouseDragDestination := MouseDragDestination w |}.

(** The four coordinates replaced, the rest of the parameters kept. *)
Definition with_viewport (q : quad) (p : Params) : Params :=
  let '(x1, x2, y1, y2) := q in
  {| dxMin := x1; dxMax := x2; dyMin := y1; dyMax := y2;
     Iterations := Iterations p; Slices := Slices p; Threads := Threads p;
     bShowAxes := bShowAxes p; bUseHSV := bUseHSV p; bUseTTMath := bUseTTMath p |}.

Definition viewport (p : Params) : quad := (dxMin p, dxMax p, dyMin p, dyMax p).

(** "Save the old coordinates to the recall stack", then assign the new. *)
Definition push_and_set (q : quad) (a : State) : State :=
  {| params := with_viewport q (params a); qds := push (params a) (qds a) |}.

(** [case WM_PAINT], as far as the paint state goes. *)
Definition OnPaint (e : Env) (w : Wnd) : Wnd * list Effect :=
  if bHoldPainting w then
    ({| app := app w;
        bHoldPainting := bHoldPainting w; bPaintingHeld := true;
        tm_tmHeight := tm_tmHeight w;
        LeftMouseButtonDown := LeftMouseButtonDown w;
        MouseDragOrigin := MouseDragOrigin w;
        MouseDragDestination := MouseDragDestination w |}, [])
  else
    ({| app := app w;
        bHoldPainting := bHoldPainting w; bPaintingHeld := bPaintingHeld w;
        tm_tmHeight := tmHeight e;
        LeftMouseButtonDown := LeftMouseButtonDown w;
        MouseDragOrigin := MouseDragOrigin w;
        MouseDragDestination := MouseDragDestination w |},
     [Render (params (app w))]).

(** [case WM_KEYDOWN] *)
Definition OnKeyDown (wParam : Z) (w : Wnd) : Wnd * list Effect :=
  let hold := if wParam =? VK_SHIFT then true else bHoldPainting w in
  let cancel := (wParam =? VK_ESCAPE) && LeftMouseButtonDown w in
  ({| app := app w;
      bHoldPainting := hold; bPaintingHeld := bPaintingHeld w;
      tm_tmHeight := tm_tmHeight w;
      LeftMouseButtonDown := if cancel then false else LeftMouseButtonDown w;
      MouseDragOrigin := MouseDragOrigin w;
      MouseDragDestination := MouseDragDestination w |},
   if cancel then [Refresh] else []).

(** [case WM_KEYUP] *)
Definition OnKeyUp (wParam : Z) (w : Wnd) : Wnd * list Effect :=
  if wParam =? VK_SHIFT then
    ({| app := app w;
        bHoldPainting := false; bPaintingHeld := false;
        tm_tmHeight := tm_tmHeight w;
        LeftMouseButtonDown := LeftMouseButtonDown w;
        MouseDragOrigin := MouseDragOrigin w;
        MouseDragDestination := MouseDragDestination w |},
     if bPaintingHeld w then [InvalidateRect] else [])
  else (w, []).

(** [case WM_MOUSEWHEEL]: "Zoom in or out about a point."  The height of
    the image is taken with the static [tm]. *)
Definition OnMouseWheel (e : Env) (MousePoint : POINT) (iMouseDelta : Z) (w : Wnd)
    : Wnd * list Effect :=
  let p := params (app w) in
  let r := rect e in
  let dxMouse :=
    Worker.axis_coordinate (dxMin p) (dxMax p)
      (Int32.sub (right r) (left r)) (x MousePoint) in
  let dyMouse :=
    Worker.axis_coordinate (dyMin p) (dyMax p)
      (Int32.sub (Int32.sub (bottom r) (tm_tmHeight w)) (top r)) (y MousePoint) in
  let dMouseMagnify :=
    if iMouseDelta <? 0 then Double.of_int 2 else Double.half in
  let dxMin' := Double.sub dxMouse (Double.mul (Double.sub dxMouse (dxMin p)) dMouseMagnify) in
  let dyMin' := Double.sub dyMouse (Double.mul (Double.sub dyMouse (dyMin p)) dMouseMagnify) in
  let dxMax' := Double.add dxMouse (Double.mul (Double.sub (dxMax p) dxMouse) dMouseMagnify) in
  let dyMax' := Double.add dyMouse (Double.mul (Double.sub (dyMax p) dyMouse) dMouseMagnify) in
  (with_app (push_and_set (dxMin', dxMax', dyMin', dyMax') (app w)) w, [InvalidateRect]).

(** [case WM_RBUTTONDOWN]: "Get the last coordinates from the recall
    stack", the stack being the list of its entries, top first. *)
Definition OnRButtonDown (w : Wnd) : Wnd * list Effect :=
  match qds (app w) with
  | [] => (w, [])
  | q :: rest =>
      (with_app {| params := with_viewport q (params (app w)); qds := rest |} w,
       [InvalidateRect])
  end.

(** [case WM_LBUTTONDOWN]: "Start a drag zoom." *)
Definition OnLButtonDown (lParam : POINT) (w : Wnd) : Wnd * list Effect :=
  ({| app := app w;
      bHoldPainting := bHoldPainting w; bPaintingHeld := bPaintingHeld w;
      tm_tmHeight := tm_tmHeight w;
      LeftMouseButtonDown := true;
      MouseDragOrigin := lParam;
      MouseDragDestination := MouseDragDestination w |}, []).

(** "Get the (current) destination coordinates." *)
Definition destination (e : Env) (lParam : POINT) : POINT :=
  let r := rect e in
  {| x := min (max (x lParam) (left r)) (Int32.sub (right r) 1);
     y := min (max (y lParam) (top r))
              (Int32.sub (Int32.sub (bottom r) (tmHeight e)) 1) |}.

(** [case WM_MOUSEMOVE] *)
Definition OnMouseMove (e : Env) (lParam : POINT) (w : Wnd) : Wnd * list Effect :=
  if LeftMouseButtonDown w then
    ({| app := app w;
        bHoldPainting := bHoldPainting w; bPaintingHeld := bPaintingHeld w;
        tm_tmHeight := tm_tmHeight w;
        LeftMouseButtonDown := LeftMouseButtonDown w;
        MouseDragOrigin := MouseDragOrigin w;
        MouseDragDestination := destination e lParam |}, [Refresh])
  else (w, []).

(** The viewport after a click: centred about the click coordinates. *)
Definition click_viewport (e : Env) (p : Params) (lxMin lyMin : Z) : quad :=
  let r := rect e in
  let two := Double.of_int 2 in
  let dxMid := Double.div (Double.add (dxMin p) (dxMax p)) two in
  let dxClick :=
    Worker.axis_coordinate (dxMin p) (dxMax p) (Int32.sub (right r) (left r)) lxMin in
  let dxMinNew := Double.add (Double.sub (dxMin p) dxMid) dxClick in
  let dxMaxNew := Double.add (Double.sub (dxMax p) dxMid) dxClick in
  let dyMid := Double.div (Double.add (dyMin p) (dyMax p)) two in
  let dyClick :=
    Worker.axis_coordinate (dyMin p) (dyMax p) (Int32.sub (bottom r) (top r)) lyMin in
  let dyMinNew := Double.add (Double.sub (dyMin p) dyMid) dyClick in
  let dyMaxNew := Double.add (Double.sub (dyMax p) dyMid) dyClick in
  (dxMinNew, dxMaxNew, dyMinNew, dyMaxNew).

(** The viewport after a drag: "the coordinates of the dragbox". *)
Definition drag_viewport (e : Env) (p : Params) (lxMin lxMax lyMin lyMax : Z) : quad :=
  let r := rect e in
  let width := Int32.sub (right r) (left r) in
  let height := Int32.sub (Int32.sub (bottom r) (tmHeight e)) (top r) in
  (Worker.axis_coordinate (dxMin p) (dxMax p) width lxMin,
   Worker.axis_coordinate (dxMin p) (dxMax p) width lxMax,
   Worker.axis_coordinate (dyMin p) (dyMax p) height lyMin,
   Worker.axis_coordinate (dyMin p) (dyMax p) height lyMax).

(** [case WM_LBUTTONUP]: "End of a drag zoom, a malformed drag zoom, or a
    single click." *)
Definition OnLButtonUp (e : Env) (lParam : POINT) (w : Wnd) : Wnd * list Effect :=
  if negb (LeftMouseButtonDown w) then (w, [])
  else
    let dest := destination e lParam in
    let org := MouseDragOrigin w in
    let w1 :=
      {| app := app w;
         bHoldPainting := bHoldPainting w; bPaintingHeld := bPaintingHeld w;
         tm_tmHeight := tm_tmHeight w;
         LeftMouseButtonDown := false;
         MouseDragOrigin := org;
         MouseDragDestination := dest |} in
    let lxMin := min (x org) (x dest) in
    let lxMax := max (x org) (x dest) in
    let lyMin := min (y org) (y dest) in
    let lyMax := max (y org) (y dest) in
    if (lxMin =? lxMax) && (lyMin =? lyMax) then
      (* a click *)
      (with_app (push_and_set (click_viewport e (params (app w)) lxMin lyMin) (app w)) w1,
       [InvalidateRect])
    else if (lxMin =? lxMax) || (lyMin =? lyMax) then
      (* malformed drag *)
      (w1, [Refresh])
    else
      (* successful drag *)
      (with_app (push_and_set
                   (drag_viewport e (params (app w)) lxMin lxMax lyMin lyMax) (app w)) w1,
       [InvalidateRect]).

(** The parameters dialog while it is open: each press of OK runs [IDOK];
    the dialog ends with the first press that is accepted, or, when the
    presses run out, with Cancel. *)
Fixpoint Parameters (IDOKs : list DialogInput) (a : State) : State :=
  match IDOKs with
  | [] => a
  | d :: rest =>
      match IDOK d a with
      | (a', None) => a'
      | (_, Some _) => Parameters rest a
      end
  end.

(** [WndProc], for the messages above. *)
Definition WndProc (e : Env) (m : Msg) (w : Wnd) : Wnd * list Effect :=
  match m with
  | WM_PAINT => OnPaint e w
  | WM_KEYDOWN wParam => OnKeyDown wParam w
  | WM_KEYUP wParam => OnKeyUp wParam w
  | WM_MOUSEWHEEL MousePoint iMouseDelta => OnMouseWheel e MousePoint iMouseDelta w
  | WM_RBUTTONDOWN => OnRButtonDown w
  | WM_LBUTTONDOWN lParam => OnLButtonDown lParam w
  | WM_MOUSEMOVE lParam => OnMouseMove e lParam w
  | WM_LBUTTONUP lParam => OnLButtonUp e lParam w
  | WM_COMMAND_ID_FILE_OPEN f =>
      let a := ID_FILE_OPEN f (app w) in
      (with_app a w,
       match read_record f with
       | Some tmp => if file_bounds_violated tmp then [] else [InvalidateRect]
       | None => []
       end)
  | WM_COMMAND_IDM_PARAMETERS IDOKs =>
      (with_app (Parameters IDOKs (app w)) w, [InvalidateRect])
  end.

(** The messages of a session, each with what the system delivers while
    it is handled. *)
Fixpoint session (ms : list (Env * Msg)) (w : Wnd) : Wnd * list Effect :=
  match ms with
  | [] => (w, [])
  | (e, m) :: rest =>
      let '(w1, out1) := WndProc e m w in
      let '(w2, out2) := session rest w1 in
      (w2, out1 ++ out2)
  end.

End WndProc.

(** ** [case WM_PAINT]: the render *)

Module Render.
Import App.

Definition thread_parameters (p : Params) (right bottom tmHeight : Z)
    : Worker.ThreadProcParameters :=
  {| Worker.P_dxMin := dxMin p; Worker.P_dxMax := dxMax p;
     Worker.P_dyMin := dyMin p; Worker.P_dyMax := dyMax p;
     Worker.yMaxPixel := Int32.sub bottom tmHeight;   (* room for the status bar *)
     Worker.xMaxPixel := right;
     Worker.P_Iterations := Iterations p;
     Worker.P_bUseTTMath := bUseTTMath p |}.

Section Render.
Variable log : Double.t -> Double.t.
Variable TTMath : Worker.Backend.

(** From "Recreate bitmap" to "Delete the Work Queue class", for a pool of
    one thread: allocate the bitmap, create the work items, let the thread
    run until it returns, destroy the queue.  [right] and [bottom] are the
    client rectangle, [tmHeight] the text height, [indeterminate] the
    unassigned [_Slices] of the queue, [cache] the static of
    [mandelbrotHSV].  The result is the bitmap and the static. *)
Definition render (fuel : nat) (pbAbort : nat -> bool) (indeterminate : Z)
    (p : Params) (right bottom tmHeight : Z) (cache : option Double.t)
    : run (Worker.Bitmap * option Double.t) :=
  let size := Int32.wrap (right * Int32.sub bottom tmHeight) in
  if size <? 0 then Fault                  (* new uint32_t[...] of a negative size *)
  else
    let BitmapData : Worker.Bitmap := replicate (Z.to_nat size) None in
    let MaxPixel := Paint.MaxPixel right (Int32.sub bottom tmHeight) in
    if Slices p =? 0 then Fault            (* MaxPixel / Slices *)
    else
      match Paint.build_queue fuel indeterminate MaxPixel (Slices p) with
      | None => OutOfFuel
      | Some wq =>
          match Worker.MandelbrotWorkerThread log TTMath (S fuel) pbAbort 0
                  (thread_parameters p right bottom tmHeight) (bUseHSV p)
                  wq BitmapData cache with
          | Ret (wq', BitmapData', cache') =>
              match WorkQueue.destructor (S fuel) wq' with
              | Ret _ => Ret (BitmapData', cache')
              | Fault => Fault
              | OutOfFuel => OutOfFuel
              end
          | Fault => Fault
          | OutOfFuel => OutOfFuel
          end
      end.
End Render.

End Render.

(** ** [ID_FILE_SAVE], [ID_FILE_OPEN] and the bytes of a parameter file *)

Module ParameterFile.
Import App.

(** *** Values in memory *)

Definition byte_of (z : Z) : Byte.byte :=
  default Byte.x00 (Byte.of_N (Z.to_N (z mod 256))).

(** The [n] low bytes of [z], least significant first, and back. *)
Fixpoint le_bytes (n : nat) (z : Z) : list Byte.byte :=
  match n with
  | O => []
  | S n' => byte_of z :: le_bytes n' (z / 256)
  end.

Definition le_value (bs : list Byte.byte) : Z :=
  fold_right (fun b acc => Z.of_N (Byte.to_N b) + 256 * acc) 0 bs.

(** An [int] or a [BOOL]: [sizeof] is 4. *)
Definition int_bytes (i : Z) : list Byte.byte := le_bytes 4 (UInt32.wrap i).
Definition bytes_int (bs : list Byte.byte) : Z := Int32.wrap (le_value bs).

(** A [double]: [sizeof] is 8. *)
Definition double_bytes (d : Double.t) : list Byte.byte := le_bytes 8 (Double.bits d).
Definition bytes_double (bs : list Byte.byte) : Double.t := Double.of_bits (le_value bs).

(** *** [ID_FILE_SAVE] *)

(** "Write each variable in binary to the file": the buffers of the ten
    [WriteFile] calls, in the order of the calls. *)
Definition record_fields (p : Params) : list (list Byte.byte) :=
  [double_bytes (dxMin p); double_bytes (dxMax p);
   double_bytes (dyMin p); double_bytes (dyMax p);
   int_bytes (Iterations p); int_bytes (Slices p); int_bytes (Threads p);
   int_bytes (bShowAxes p); int_bytes (bUseHSV p); int_bytes (bUseTTMath p)].

(** [if (bWriteOK) bWriteOK = WriteFile(...)] for each variable.
    [WriteFile n] is the [BOOL] that call number [n] returns.  A call that
    returns [TRUE] has appended its buffer to the file; the call that
    returns [FALSE] has appended the first [written] bytes of its buffer,
    and no call is made after it.  The result is [bWriteOK] and the file. *)
Fixpoint write_all (WriteFile : nat -> bool) (written : nat) (n : nat)
    (fs : list (list Byte.byte)) (file : list Byte.byte) : bool * list Byte.byte :=
  match fs with
  | [] => (true, file)
  | f :: fs' =>
      if WriteFile n then write_all WriteFile written (S n) fs' (file ++ f)
      else (false, file ++ take written f)
  end.

(** The message boxes of the handler. *)
Inductive SaveMessage :=
  | CreateFile_failed            (* ErrorHandler("CreateFile") *)
  | Error_writing_file.

(** The handler from [CreateFile] on.  [CreateFile] tells whether the call
    returns a handle; with [CREATE_ALWAYS] the file then exists and is
    empty.  The result is the file as the handler leaves it on the disk
    ([None]: it has not touched it) and the message box shown, if any. *)
Definition ID_FILE_SAVE (CreateFile : bool) (WriteFile : nat -> bool) (written : nat)
    (p : Params) : option (list Byte.byte) * option SaveMessage :=
  if CreateFile then
    let '(bWriteOK, file) := write_all WriteFile written 0 (record_fields p) [] in
    (Some file, if bWriteOK then None else Some Error_writing_file)
  else (None, Some CreateFile_failed).

(** *** [ID_FILE_OPEN]: the reads *)

(** What [CreateFile] returns: [INVALID_HANDLE_VALUE] or a handle on a
    file, of which [unread] is the part after the file pointer.  (The test
    [if (!hFile)] of the handler compares with zero, which [CreateFile]
    never returns, so the reads are made in either case.) *)
Inductive HANDLE :=
  | INVALID_HANDLE_VALUE
  | Open (unread : list Byte.byte).

(** [ReadFile(hFile, &buffer, sizeof(buffer), NULL, NULL)].  The call
    returns [FALSE] on an invalid handle or an [error] of the device.
    Otherwise it returns [TRUE], also at the end of the file: it stores the
    bytes that are left, at most [sizeof(buffer)], at the front of the
    buffer and leaves the rest of the buffer as it was.  The number of
    bytes read is not asked for. *)
Definition ReadFile (error : bool) (hFile : HANDLE) (buffer : list Byte.byte)
    : bool * list Byte.byte * HANDLE :=
  match hFile with
  | INVALID_HANDLE_VALUE => (false, buffer, hFile)
  | Open unread =>
      if error then (false, buffer, hFile)
      else
        let data := take (length buffer) unread in
        (true, data ++ drop (length data) buffer, Open (drop (length buffer) unread))
  end.

(** The ten temporaries are declared without initialisers: [stack n i] is
    byte [i] of temporary number [n] when the handler starts. *)
Definition Temporaries : Type := nat -> nat -> Byte.byte.

Definition temporary (stack : Temporaries) (n size : nat) : list Byte.byte :=
  map (stack n) (seq 0 size).

(** [if (bReadOK) bReadOK = ReadFile(hFile, &temporary, size, NULL, NULL)]
    for temporary number [n]: the bytes of the temporary after a call that
    returned [TRUE], and [bReadOK] with the handle. *)
Definition read (size : nat) (error : nat -> bool) (stack : Temporaries) (n : nat)
    (st : bool * HANDLE) : option (list Byte.byte) * (bool * HANDLE) :=
  let '(bReadOK, hFile) := st in
  if bReadOK then
    let '(ok, buffer, hFile') := ReadFile (error n) hFile (temporary stack n size) in
    (if ok then Some buffer else None, (ok, hFile'))
  else (None, st).

Definition read_double (error : nat -> bool) (stack : Temporaries) (n : nat)
    (st : bool * HANDLE) : option Double.t * (bool * HANDLE) :=
  let '(r, st') := read 8 error stack n st in (bytes_double <$> r, st').

Definition read_int (error : nat -> bool) (stack : Temporaries) (n : nat)
    (st : bool * HANDLE) : option Z * (bool * HANDLE) :=
  let '(r, st') := read 4 error stack n st in (bytes_int <$> r, st').

(** The ten reads of [ID_FILE_OPEN]. *)
Definition reads (hFile : HANDLE) (error : nat -> bool) (stack : Temporaries)
    : FileReads :=
  let st := (true, hFile) in
  let '(dxMinTemp, st) := read_double error stack 0 st in
  let '(dxMaxTemp, st) := read_double error stack 1 st in
  let '(dyMinTemp, st) := read_double error stack 2 st in
  let '(dyMaxTemp, st) := read_double error stack 3 st in
  let '(IterationsTemp, st) := read_int error stack 4 st in
  let '(SlicesTemp, st) := read_int error stack 5 st in
  let '(ThreadsTemp, st) := read_int error stack 6 st in
  let '(bShowAxesTemp, st) := read_int error stack 7 st in
  let '(bUseHSVTemp, st) := read_int error stack 8 st in
  let '(bUseTTMathTemp, st) := read_int error stack 9 st in
  mkFileReads dxMinTemp dxMaxTemp dyMinTemp dyMaxTemp
    IterationsTemp SlicesTemp ThreadsTemp bShowAxesTemp bUseHSVTemp bUseTTMathTemp.

End ParameterFile.

(** ** ApplicationRegistry.cpp / ApplicationRegistry.h *)

Module ApplicationRegistry.

(** System error codes. *)
Definition ERROR_SUCCESS : Z := 0.
Definition ERROR_FILE_NOT_FOUND : Z := 2.
Definition ERROR_NOT_ENOUGH_MEMORY : Z := 8.
Definition ERROR_MORE_DATA : Z := 234.
Definition ERROR_APP_INIT_FAILURE : Z := 575.

(** The object.  A window handle is a number; 0 is the null handle. *)
Record t := mk {
  _hWnd : Z;
  _psRegistrySubKey : string;
  _isOK : bool;
  _LastAPICallLine : Z;
  _LastErrorNumber : Z
}.

(** [ApplicationRegistry::ApplicationRegistry()] *)
Definition new : t :=
  {| _hWnd := 0; _psRegistrySubKey := EmptyString; _isOK := true;
     _LastAPICallLine := 0; _LastErrorNumber := 0 |}.

Definition isOK (o : t) : bool := _isOK o.

(** [DisplayAPIError]: the message box, as the line and the error code
    that its text shows. *)
Definition DisplayAPIError (o : t) : Z * Z := (_LastAPICallLine o, _LastErrorNumber o).

(** *** [Init] *)

(** The arrays that [Init] allocates with [new[]]. *)
Inductive buffer :=
  | pszModuleFileName
  | pFileVersionInfo
  | pszQueryCompanyName
  | pszQueryProductName
  | pszQueryProductVersion
  | pszRegistrySubkey.

(** What the allocations and system calls of [Init] deliver, in the order
    of the calls: whether an allocation yields a non-null pointer, whether a
    call succeeds, the size [GetFileVersionInfoSize] returns, the text the
    last [StringCchPrintf] writes when it returns [S_OK], and the value of
    [GetLastError] after the call on a given line. *)
Record InitCalls := mkInitCalls {
  new_pszModuleFileName : bool;
  GetModuleFileName : bool;
  GetFileVersionInfoSize : Z;
  GetFileVersionInfo : bool;
  VerQueryValue_Translation : bool;
  new_pszQueryCompanyName : bool;
  StringCchPrintf_CompanyName : bool;
  VerQueryValue_CompanyName : bool;
  new_pszQueryProductName : bool;
  StringCchPrintf_ProductName : bool;
  VerQueryValue_ProductName : bool;
  new_pszQueryProductVersion : bool;
  StringCchPrintf_ProductVersion : bool;
  VerQueryValue_ProductVersion : bool;
  new_pszRegistrySubkey : bool;
  StringCchPrintf_RegistrySubkey : option string;
  GetLastError : Z -> Z
}.

(** What a call of [Init] leaves behind: the returned [BOOL], the object,
    the message boxes shown, and the arrays allocated but not deleted. *)
Record InitResult := mkInitResult {
  returned : bool;
  object : t;
  shown : list (Z * Z);
  not_deleted : list buffer
}.

(** The common end of the failure branches: [_isOK = false], the error
    number, [DisplayAPIError()], [return false]. *)
Definition failed (o : t) (line err : Z) (live : list buffer) : InitResult :=
  let o' := {| _hWnd := _hWnd o; _psRegistrySubKey := _psRegistrySubKey o;
               _isOK := false; _LastAPICallLine := line; _LastErrorNumber := err |} in
  {| returned := false; object := o'; shown := [DisplayAPIError o'];
     not_deleted := live |}.

(** [Init].  The numbers are the values of [__LINE__ + 1] at the
    assignments to [_LastAPICallLine]. *)
Definition Init (c : InitCalls) (hWnd : Z) (o : t) : InitResult :=
  if negb (_hWnd o =? 0) then
    (* Check to see if we have been initialized already. *)
    {| returned := true; object := o; shown := []; not_deleted := [] |}
  else
    let o := {| _hWnd := hWnd; _psRegistrySubKey := _psRegistrySubKey o;
                _isOK := _isOK o; _LastAPICallLine := _LastAPICallLine o;
                _LastErrorNumber := _LastErrorNumber o |} in
    (* Get the fully qualified path name of the currently executing module *)
    if negb (new_pszModuleFileName c) then failed o 39 (GetLastError c 39) []
    else if negb (GetModuleFileName c) then failed o 48 (GetLastError c 48) []
    (* Retrieve the size of the VS_VERSION resource in the module *)
    else if GetFileVersionInfoSize c =? 0 then failed o 63 (GetLastError c 63) []
    (* Retrieve the VS_VERSION resource from the module *)
    else if negb (GetFileVersionInfo c) then failed o 75 (GetLastError c 75) []
    (* Find the list of one (or more) languages and code pages *)
    else if negb (VerQueryValue_Translation c) then failed o 93 (GetLastError c 93) []
    (* Build the query for the company name *)
    else if negb (new_pszQueryCompanyName c) then failed o 106 ERROR_NOT_ENOUGH_MEMORY []
    else if negb (StringCchPrintf_CompanyName c) then failed o 116 (GetLastError c 116) []
    (* Query the company name *)
    else if negb (VerQueryValue_CompanyName c) then failed o 133 (GetLastError c 133) []
    (* Build the query for the product name *)
    else if negb (new_pszQueryProductName c) then failed o 149 ERROR_NOT_ENOUGH_MEMORY []
    else if negb (StringCchPrintf_ProductName c) then failed o 159 (GetLastError c 159) []
    (* Query the product name *)
    else if negb (VerQueryValue_ProductName c) then failed o 176 (GetLastError c 176) []
    (* Build the query for the product version *)
    else if negb (new_pszQueryProductVersion c) then failed o 192 ERROR_NOT_ENOUGH_MEMORY []
    else if negb (StringCchPrintf_ProductVersion c) then failed o 202 (GetLastError c 202) []
    (* Find the product version *)
    else if negb (VerQueryValue_ProductVersion c) then failed o 219 (GetLastError c 219) []
    (* Build the registry subkey for the memory block entry *)
    else if negb (new_pszRegistrySubkey c) then failed o 235 ERROR_NOT_ENOUGH_MEMORY []
    else
      match StringCchPrintf_RegistrySubkey c with
      | None =>
          (* returns without delete[] pFileVersionInfo, delete[] pszRegistrySubkey *)
          failed o 245 (GetLastError c 245) [pFileVersionInfo; pszRegistrySubkey]
      | Some text =>
          {| returned := true;
             object := {| _hWnd := hWnd; _psRegistrySubKey := text;
                          _isOK := _isOK o; _LastAPICallLine := 245;
                          _LastErrorNumber := _LastErrorNumber o |};
             shown := []; not_deleted := [] |}
      end.

(** *** The registry *)

(** The keys under [HKEY_CURRENT_USER] that exist, by their path, each
    with its values. *)
Definition Registry : Type := gmap string (gmap string (list Byte.byte)).

(** [RegOpenKeyEx(HKEY_CURRENT_USER, subkey, 0, KEY_READ, &hKey)]: the
    status and the key opened. *)
Definition RegOpenKeyEx (reg : Registry) (subkey : string)
    : Z * gmap string (list Byte.byte) :=
  match reg !! subkey with
  | Some key => (ERROR_SUCCESS, key)
  | None => (ERROR_FILE_NOT_FOUND, ∅)
  end.

(** [RegQueryValueEx(hKey, entry, 0, NULL, NULL, &cb)]: the status and the
    size of the value. *)
Definition RegQueryValueEx_size (hKey : gmap string (list Byte.byte)) (entry : string)
    (cb : nat) : Z * nat :=
  match hKey !! entry with
  | Some data => (ERROR_SUCCESS, length data)
  | None => (ERROR_FILE_NOT_FOUND, cb)
  end.

(** [RegQueryValueEx(hKey, entry, 0, NULL, lpData, &cb)]: the status and
    the buffer afterwards. *)
Definition RegQueryValueEx_data (hKey : gmap string (list Byte.byte)) (entry : string)
    (lpData : list Byte.byte) : Z * list Byte.byte :=
  match hKey !! entry with
  | Some data =>
      if (length data <=? length lpData)%nat
      then (ERROR_SUCCESS, data ++ drop (length data) lpData)
      else (ERROR_MORE_DATA, lpData)
  | None => (ERROR_FILE_NOT_FOUND, lpData)
  end.

(** The registry after a successful [RegCreateKeyEx] and after a
    successful [RegSetValueEx] with [REG_BINARY] data. *)
Definition created (reg : Registry) (subkey : string) : Registry :=
  match reg !! subkey with
  | Some _ => reg
  | None => <[subkey := ∅]> reg
  end.

Definition value_set (reg : Registry) (subkey entry : string) (data : list Byte.byte)
    : Registry :=
  match reg !! subkey with
  | Some key => <[subkey := <[entry := data]> key]> reg
  | None => reg
  end.

Definition with_line (line : Z) (o : t) : t :=
  {| _hWnd := _hWnd o; _psRegistrySubKey := _psRegistrySubKey o;
     _isOK := _isOK o; _LastAPICallLine := line;
     _LastErrorNumber := _LastErrorNumber o |}.

Definition not_initialised (line : Z) (o : t) : t :=
  {| _hWnd := _hWnd o; _psRegistrySubKey := _psRegistrySubKey o;
     _isOK := false; _LastAPICallLine := line;
     _LastErrorNumber := ERROR_APP_INIT_FAILURE |}.

(** [LoadMemoryBlock]; [cbMemoryBlock] is the length of the block.  The
    returned [BOOL], the block afterwards, the object. *)
Definition LoadMemoryBlock (reg : Registry) (sEntry : string)
    (lpMemoryBlock : list Byte.byte) (o : t) : bool * list Byte.byte * t :=
  let cbMemoryBlock := length lpMemoryBlock in
  (* Verify that Init() has been called *)
  if _hWnd o =? 0 then (false, lpMemoryBlock, not_initialised 269 o)
  else
    let '(ls1, hKey) := RegOpenKeyEx reg (_psRegistrySubKey o) in
    if negb (ls1 =? ERROR_SUCCESS) then (false, lpMemoryBlock, with_line 280 o)
    else
      let '(ls2, cbStoredMemoryBlock) :=
        RegQueryValueEx_size hKey sEntry cbMemoryBlock in
      if negb (ls2 =? ERROR_SUCCESS)
         || negb (cbStoredMemoryBlock =? cbMemoryBlock)%nat
      then (false, lpMemoryBlock, with_line 284 o)
      else
        let '(ls3, block) := RegQueryValueEx_data hKey sEntry lpMemoryBlock in
        if negb (ls3 =? ERROR_SUCCESS) then (false, block, with_line 295 o)
        else (true, block, with_line 295 o).

(** What the two system calls of [SaveMemoryBlock] return. *)
Record SaveCalls := mkSaveCalls {
  RegCreateKeyEx : Z;
  RegSetValueEx : Z
}.

(** [SaveMemoryBlock]: the returned [BOOL], the registry afterwards, the
    object, the message boxes shown. *)
Definition SaveMemoryBlock (c : SaveCalls) (reg : Registry) (sEntry : string)
    (lpMemoryBlock : list Byte.byte) (o : t)
    : bool * Registry * t * list (Z * Z) :=
  (* Verify that Init() has been called *)
  if _hWnd o =? 0 then (false, reg, not_initialised 315 o, [])
  else
    let ls1 := RegCreateKeyEx c in
    if negb (ls1 =? ERROR_SUCCESS) then
      let o' := {| _hWnd := _hWnd o; _psRegistrySubKey := _psRegistrySubKey o;
                   _isOK := false; _LastAPICallLine := 325;
                   _LastErrorNumber := ls1 |} in
      (false, reg, o', [DisplayAPIError o'])
    else
      let reg1 := created reg (_psRegistrySubKey o) in
      let ls2 := RegSetValueEx c in
      if negb (ls2 =? ERROR_SUCCESS) then
        let o' := {| _hWnd := _hWnd o; _psRegistrySubKey := _psRegistrySubKey o;
                     _isOK := false; _LastAPICallLine := 335;
                     _LastErrorNumber := ls2 |} in
        (false, reg1, o', [DisplayAPIError o'])
      else
        (true, value_set reg1 (_psRegistrySubKey o) sEntry lpMemoryBlock,
         with_line 335 o, []).

End ApplicationRegistry.

(** ** The window placement: [InitInstance] and [case WM_DESTROY] *)

Module Placement.
Import ApplicationRegistry.

(** A [WINDOWPLACEMENT] as its 44 bytes: [length], [flags] and [showCmd]
    (four bytes each), then the two points and the rectangle. *)
Definition sizeof_wp : nat := 44.
Definition flags (wp : list Byte.byte) : list Byte.byte := take 4 (drop 4 wp).
Definition showCmd (wp : list Byte.byte) : list Byte.byte := take 4 (drop 8 wp).
Definition dword (n : Byte.byte) : list Byte.byte := [n; Byte.x00; Byte.x00; Byte.x00].

(** The [UINT] that four bytes hold (low byte first). *)
Definition UINT (bs : list Byte.byte) : Z :=
  fold_right (fun b acc => Z.of_N (Byte.to_N b) + 256 * acc) 0 bs.

Definition SW_MINIMIZE : Z := 6.

(** [if (wp.flags == 0 && wp.showCmd == SW_MINIMIZE) wp.flags = WPF_SETMINPOSITION;] *)
Definition set_min_position (wp : list Byte.byte) : list Byte.byte :=
  if (UINT (flags wp) =? 0) && (UINT (showCmd wp) =? SW_MINIMIZE)
  then take 4 wp ++ dword Byte.x01 ++ drop 8 wp
  else wp.

(** [InitInstance], from [new ApplicationRegistry] to [delete pAppReg]:
    the placement handed to [SetWindowPlacement], if it is called, and
    the message boxes shown.  [wp] is what the local variable holds before
    the load. *)
Definition InitInstance (c : InitCalls) (hWnd : Z) (reg : Registry)
    (wp : list Byte.byte) : option (list Byte.byte) * list (Z * Z) :=
  let r := Init c hWnd new in
  if returned r then
    let '(loaded, wp', _) := LoadMemoryBlock reg "WindowPlacement" wp (object r) in
    if loaded then (Some (set_min_position wp'), shown r)
    else (None, shown r)
  else (None, shown r).

(** [case WM_DESTROY], "Save the WindowPlacement to the registry": two
    calls of [Init], the second deciding whether to save.  [wp] is what
    [GetWindowPlacement] delivers.  The registry afterwards and the
    message boxes shown. *)
Definition WM_DESTROY (c1 c2 : InitCalls) (sc : SaveCalls) (hWnd : Z)
    (reg : Registry) (wp : list Byte.byte) : Registry * list (Z * Z) :=
  let r1 := Init c1 hWnd new in
  let r2 := Init c2 hWnd (object r1) in
  if returned r2 then
    let '(_, reg', _, out) :=
      SaveMemoryBlock sc reg "WindowPlacement" wp (object r2) in
    (reg', shown r1 ++ shown r2 ++ out)
  else (reg, shown r1 ++ shown r2).

End Placement.

(** * Notions used to state the properties *)

Module WorkQueueRep.
Import WorkQueue.

(** The nodes of a queue from [_head] to [_tail]: each node's address and
    the tile it stores. *)
Definition linked (h : gmap addr WorkItem) (cs : list (addr * tile)) : Prop :=
  forall (i : nat) (a : addr) (t : tile),
    cs !! i = Some (a, t) ->
    h !! a = Some (mkWorkItem (cs.*1 !! S i)
                              (match i with O => None | S j => cs.*1 !! j end)
                              (fst t) (snd t)).

Definition repr (q : t) (cs : list (addr * tile)) : Prop :=
  NoDup cs.*1 /\ _head q = head cs.*1 /\ _tail q = last cs.*1 /\ linked (heap q) cs.

(** Stack discipline, for a batch enqueued on a fresh queue: the first
    [Dequeue] hands out the tile enqueued last. *)
Definition serves_last_enqueued_first (ts : list tile) : Prop :=
  forall g q, enqueue_all ts (new g) = Some q ->
    exists q', Dequeue q = Some (last ts, q').
End WorkQueueRep.

Module AppSpec.
Import App.

(** One of the ten [ReadFile] calls returned [FALSE]. *)
Definition read_failed (f : FileReads) : Prop :=
  rd_dxMin f = None \/ rd_dxMax f = None \/ rd_dyMin f = None \/ rd_dyMax f = None \/
  rd_Iterations f = None \/ rd_Slices f = None \/ rd_Threads f = None \/
  rd_bShowAxes f = None \/ rd_bUseHSV f = None \/ rd_bUseTTMath f = None.

(** A field that was read breaks a bound: min >= max on an axis, a count
    below 1, or more than 64 threads. *)
Definition bound_violated (f : FileReads) : Prop :=
  (exists a b, rd_dxMin f = Some a /\ rd_dxMax f = Some b /\ Double.ge a b = true) \/
  (exists a b, rd_dyMin f = Some a /\ rd_dyMax f = Some b /\ Double.ge a b = true) \/
  (exists n, rd_Iterations f = Some n /\ n < 1) \/
  (exists n, rd_Slices f = Some n /\ n < 1) \/
  (exists n, rd_Threads f = Some n /\ (n < 1 \/ 64 < n)).

(** The dialog input [d] with another number in the Y Min field. *)
Definition with_YMIN (y : Double.t) (d : DialogInput) : DialogInput :=
  {| in_XMIN := in_XMIN d; in_XMAX := in_XMAX d;
     in_YMIN := Some y; in_YMAX := in_YMAX d;
     in_ITERATIONS := in_ITERATIONS d; in_SLICES := in_SLICES d;
     in_THREADS := in_THREADS d;
     in_SHOW_AXES := in_SHOW_AXES d; in_USEHSV := in_USEHSV d;
     in_USETTMATH := in_USETTMATH d |}.

(** A parameter file holding the initial values, but 65 threads. *)
Definition file_with_65_threads : FileReads :=
  {| rd_dxMin := Some (dxMin initial); rd_dxMax := Some (dxMax initial);
     rd_dyMin := Some (dyMin initial); rd_dyMax := Some (dyMax initial);
     rd_Iterations := Some 1000; rd_Slices := Some 5000; rd_Threads := Some 65;
     rd_bShowAxes := Some 0; rd_bUseHSV := Some 1; rd_bUseTTMath := Some 0 |}.

(** A viewport with the y axis upside down: x in [-2, 0], y from 2 to 1. *)
Definition inverted_y : Params :=
  {| dxMin := Double.of_int (-2); dxMax := Double.of_int 0;
     dyMin := Double.of_int 2; dyMax := Double.of_int 1;
     Iterations := 1000; Slices := 5000; Threads := 12;
     bShowAxes := 0; bUseHSV := 1; bUseTTMath := 0 |}.

(** The same configuration typed into the dialog ... *)
Definition inverted_y_dialog : DialogInput :=
  {| in_XMIN := Some (dxMin inverted_y); in_XMAX := Some (dxMax inverted_y);
     in_YMIN := Some (dyMin inverted_y); in_YMAX := Some (dyMax inverted_y);
     in_ITERATIONS := Some 1000; in_SLICES := Some 5000; in_THREADS := Some 12;
     in_SHOW_AXES := false; in_USEHSV := true; in_USETTMATH := false |}.

(** ... and stored in a parameter file. *)
Definition inverted_y_file : FileReads :=
  {| rd_dxMin := Some (dxMin inverted_y); rd_dxMax := Some (dxMax inverted_y);
     rd_dyMin := Some (dyMin inverted_y); rd_dyMax := Some (dyMax inverted_y);
     rd_Iterations := Some 1000; rd_Slices := Some 5000; rd_Threads := Some 12;
     rd_bShowAxes := Some 0; rd_bUseHSV := Some 1; rd_bUseTTMath := Some 0 |}.
End AppSpec.

Module PaintSpec.
Import Paint.

(** The tiles cover each pixel index of [0, n) exactly once and nothing
    else. *)
Definition partitions (ts : list tile) (n : Z) : Prop :=
  forall p, cover ts p = if (0 <=? p) && (p <? n) then 1%nat else 0%nat.

(** The [Enqueue] calls of the work-item loop, in the order they are made:
    the loop of [Paint.enqueue_loop] with the queue left out. *)
Fixpoint loop_calls (fuel : nat) (PixelStepSize MaxPixel StartPixel EndPixel : Z)
    : option (Z * list tile) :=
  if EndPixel <? MaxPixel then
    match fuel with
    | O => None
    | S fuel' =>
        '(E, ts) ← loop_calls fuel' PixelStepSize MaxPixel
                     (Int32.add StartPixel PixelStepSize)
                     (Int32.min (Int32.add EndPixel PixelStepSize) MaxPixel);
        Some (E, (StartPixel, EndPixel) :: ts)
    end
  else Some (EndPixel, []).

(** All [Enqueue] calls of the render set-up. *)
Definition enqueue_calls (fuel : nat) (MaxPixel Slices : Z) : option (list tile) :=
  if Slices =? 0 then None
  else
    let PixelStepSize := Int32.div MaxPixel Slices in
    '(EndPixel, ts) ← loop_calls fuel PixelStepSize MaxPixel 0 PixelStepSize;
    if Int32.sub EndPixel PixelStepSize <? MaxPixel
    then Some (ts ++ [(Int32.add (Int32.sub EndPixel PixelStepSize) 1, MaxPixel)])
    else Some ts.

(** [n] consecutive tiles of [P] pixels each, from tile number [j] on. *)
Definition grid (P : Z) (j n : nat) : list tile :=
  map (fun i : nat => (Z.of_nat i * P, (Z.of_nat i + 1) * P)) (seq j n).
End PaintSpec.

Module ColourSpec.

(** Bit [i] of a word whose bytes 0 and 2 have been exchanged and whose
    byte 3 has been cleared. *)
Definition swapped_bit (w i : Z) : bool :=
  if i <? 8 then Z.testbit w (i + 16)
  else if i <? 16 then Z.testbit w i
  else if i <? 24 then Z.testbit w (i - 16)
  else false.

(** The three summands of [ReverseRGBBytes], joined bitwise. *)
Definition parts (w : Z) : Z :=
  Z.lor (Z.lor (Z.shiftl (Z.land w (Z.ones 8)) 16) (Z.land w (Z.shiftl (Z.ones 8) 8)))
        (Z.shiftr (Z.land w (Z.shiftl (Z.ones 8) 16)) 16).

(** White: red, green and blue at full intensity, alpha zero. *)
Definition white : Z := 0xffffff.

(** Black, as an HSV triple and as RGB fractions. *)
Definition black_hsv : HSVtoRGB.sHSV :=
  HSVtoRGB.mkHSV Double.zero Double.zero Double.zero.
Definition black_rgb : HSVtoRGB.sRGB :=
  HSVtoRGB.mkRGB Double.zero Double.zero Double.zero.

(** The colour index of the specification, [round(16777216 * (1 - k/M))],
    computed exactly (halves round up). *)
Definition rounded_index (k M : Z) : Z :=
  (2 * 16777216 * (M - k) + M) / (2 * M).

(** The same quantity rounded down. *)
Definition floor_index (k M : Z) : Z := 16777216 * (M - k) / M.

(** Is the converted colour index of the old RGB system the floor index? *)
Definition index_is_floor (M k : Z) : bool :=
  match Double.to_uint32 (Worker.rgb_index k M) with
  | Some c => c =? floor_index k M
  | None => false
  end.

(** Is the value written in the old RGB system something else than
    white? *)
Definition not_white (M k : Z) : bool :=
  match Worker.rgb_pixel k M with
  | Some w => negb (w =? white)
  | None => false
  end.

(** The hue the triple-log scheme is specified to give an escaped pixel:
    [360 * log3 k / log3 M] for the budget [M] of the render. *)
Definition specified_hue (log : Double.t -> Double.t) (k M : Z) : Double.t :=
  Double.mul
    (Double.div (HSVtoRGB.log3 log (Double.of_int k))
                (HSVtoRGB.log3 log (Double.of_int M)))
    (Double.of_int 360).
End ColourSpec.

(** ** Reference models of the two containers *)

Module QueueModel.
Import WorkQueue.

(** A first-in first-out queue as the list of the tiles waiting, oldest
    first: what a sequence of calls returns and what is left waiting. *)
Fixpoint fifo (cs : list call) (waiting : list tile) : list (option tile) * list tile :=
  match cs with
  | [] => ([], waiting)
  | CallEnqueue s e :: cs' => fifo cs' (waiting ++ [(s, e)])
  | CallDequeue :: cs' =>
      match waiting with
      | [] => let '(rs, w) := fifo cs' [] in (None :: rs, w)
      | t :: rest => let '(rs, w) := fifo cs' rest in (Some t :: rs, w)
      end
  end.

(** The nodes of the queue are all that its part of the free store holds. *)
Definition owns (q : t) (cs : list (addr * tile)) : Prop :=
  dom (heap q) = list_to_set cs.*1.
End QueueModel.

Module StackModel.
Import QuadDoubleStack.

(** A last-in first-out stack as the list of its entries, top first. *)
Fixpoint lifo (cs : list call) (entries : list App.quad)
    : list (option App.quad) * list App.quad :=
  match cs with
  | [] => ([], entries)
  | CallPush q :: cs' => lifo cs' (q :: entries)
  | CallPop :: cs' =>
      match entries with
      | [] => let '(rs, es) := lifo cs' [] in (None :: rs, es)
      | q :: rest => let '(rs, es) := lifo cs' rest in (Some q :: rs, es)
      end
  end.

Definition node_of (next : option addr) (q : App.quad) : Node :=
  let '(x1, x2, y1, y2) := q in mkNode next x1 x2 y1 y2.

(** The nodes from [_top] down: each node's address and the entry it
    stores; nothing else is in the stack's part of the free store. *)
Definition repr (st : t) (ns : list (addr * App.quad)) : Prop :=
  NoDup ns.*1 /\
  _top st = head ns.*1 /\
  (forall (i : nat) (a : addr) (q : App.quad),
     ns !! i = Some (a, q) -> heap st !! a = Some (node_of (ns.*1 !! S i) q)) /\
  dom (heap st) = list_to_set ns.*1.
End StackModel.

Module RenderSpec.
Import Worker.

(** The value of a pixel in the old RGB system on the FPU path: the point
    of the pixel, the iteration count of the point, the colour of the
    count. *)
Definition rgb_of_pixel (P : ThreadProcParameters) (Pixel : Z) : option Z :=
  '(x0, y0) ← point P Pixel;
  iteration ← escape_time FPU x0 y0 (P_Iterations P);
  rgb_pixel iteration (P_Iterations P).

(** The abort flag of a render nobody aborts, and of one where the main
    thread sets it before a worker's read number [n]. *)
Definition never : nat -> bool := fun _ => false.
Definition abort_from (n : nat) : nat -> bool := fun m => (n <=? m)%nat.

(** Parameters for a small render: the initial viewport, 50 iterations,
    3 slices, the old RGB system on the FPU path. *)
Definition small : App.Params :=
  {| App.dxMin := App.dxMin App.initial; App.dxMax := App.dxMax App.initial;
     App.dyMin := App.dyMin App.initial; App.dyMax := App.dyMax App.initial;
     App.Iterations := 50; App.Slices := 3; App.Threads := 1;
     App.bShowAxes := 0; App.bUseHSV := 0; App.bUseTTMath := 0 |}.

(** A bitmap in which the pixels of the tiles [ts] hold their values and
    all others are as in [before]. *)
Definition painted (P : ThreadProcParameters) (ts : list tile)
    (before after : Bitmap) : Prop :=
  length after = length before /\
  forall i : Z, 0 <= i < Z.of_nat (length before) ->
    after !! Z.to_nat i =
      if (Paint.cover ts i =? 0)%nat then before !! Z.to_nat i
      else Some (rgb_of_pixel P i).
End RenderSpec.

Module WndProcSpec.
Import App WndProc.

(** The parameters other than the viewport. *)
Definition settings (p : Params) : Z * Z * Z * Z * Z * Z :=
  (Iterations p, Slices p, Threads p, bShowAxes p, bUseHSV p, bUseTTMath p).

Definition is_shift_up (m : Msg) : bool :=
  match m with
  | WM_KEYUP wParam => wParam =? VK_SHIFT
  | _ => false
  end.

Definition is_paint (m : Msg) : bool :=
  match m with
  | WM_PAINT => true
  | _ => false
  end.

Definition is_render (f : Effect) : bool :=
  match f with
  | Render _ => true
  | _ => false
  end.

(** The part of the client area that shows the image. *)
Definition in_image (e : Env) (pt : POINT) : Prop :=
  left (rect e) <= x pt <= right (rect e) - 1 /\
  top (rect e) <= y pt <= bottom (rect e) - tmHeight e - 1.
End WndProcSpec.

Module ParameterFileSpec.
Import App ParameterFile.

(** Each of the ten [WriteFile] calls of a save returns [TRUE]. *)
Definition all_writes_succeed (WriteFile : nat -> bool) : Prop :=
  forall n : nat, (n < 10)%nat -> WriteFile n = true.

(** No [ReadFile] call meets an error of the device. *)
Definition no_error : nat -> bool := fun _ => false.

(** The values of a program run: the [double]s are binary64 numbers and
    the [int]s are in the range of [int]. *)
Definition values (p : Params) : Prop :=
  Double.valid (dxMin p) /\ Double.valid (dxMax p) /\
  Double.valid (dyMin p) /\ Double.valid (dyMax p) /\
  Int32.in_range (Iterations p) /\ Int32.in_range (Slices p) /\
  Int32.in_range (Threads p) /\ Int32.in_range (bShowAxes p) /\
  Int32.in_range (bUseHSV p) /\ Int32.in_range (bUseTTMath p).

(** A complete parameter file: the ten values one after the other, 56
    bytes. *)
Definition record_bytes (p : Params) : list Byte.byte := concat (record_fields p).

(** The parameters that a run of 56 bytes holds. *)
Definition record_of_bytes (bs : list Byte.byte) : Params :=
  {| dxMin := bytes_double (take 8 bs);
     dxMax := bytes_double (take 8 (drop 8 bs));
     dyMin := bytes_double (take 8 (drop 16 bs));
     dyMax := bytes_double (take 8 (drop 24 bs));
     Iterations := bytes_int (take 4 (drop 32 bs));
     Slices := bytes_int (take 4 (drop 36 bs));
     Threads := bytes_int (take 4 (drop 40 bs));
     bShowAxes := bytes_int (take 4 (drop 44 bs));
     bUseHSV := bytes_int (take 4 (drop 48 bs));
     bUseTTMath := bytes_int (take 4 (drop 52 bs)) |}.

(** The bytes of the ten temporaries, in the order of the reads. *)
Definition stack_bytes (stack : Temporaries) : list Byte.byte :=
  temporary stack 0 8 ++ temporary stack 1 8 ++ temporary stack 2 8 ++
  temporary stack 3 8 ++ temporary stack 4 4 ++ temporary stack 5 4 ++
  temporary stack 6 4 ++ temporary stack 7 4 ++ temporary stack 8 4 ++
  temporary stack 9 4.

(** The bytes of the file as far as they go, then what the stack held. *)
Definition file_then_stack (file : list Byte.byte) (stack : Temporaries)
    : list Byte.byte :=
  take 56 file ++ drop (length file) (stack_bytes stack).

(** A stack on which the temporaries happen to hold the values [p]. *)
Definition stack_holding (p : Params) : Temporaries :=
  fun n i => nth i (nth n (record_fields p) []) Byte.x00.

(** The parameters [p] with other values of the three flags. *)
Definition with_flags (ax hs tt : Z) (p : Params) : Params :=
  {| dxMin := dxMin p; dxMax := dxMax p; dyMin := dyMin p; dyMax := dyMax p;
     Iterations := Iterations p; Slices := Slices p; Threads := Threads p;
     bShowAxes := ax; bUseHSV := hs; bUseTTMath := tt |}.

(** The state after a record has been taken over. *)
Definition installed (p : Params) (st : State) : State :=
  {| params := p; qds := push (params st) (qds st) |}.
End ParameterFileSpec.

Module MirrorSpec.
(** Two numbers that are equal, or both a zero (of either sign). *)
Definition is_zero (a : Double.t) : Prop := exists s, a = S754_zero s.
Definition same (a b : Double.t) : Prop := b = a \/ (is_zero a /\ is_zero b).
(** Two numbers of which one is the negative of the other (or both are
    zeros). *)
Definition mirrored (a b : Double.t) : Prop :=
  b = Double.opp a \/ (is_zero a /\ is_zero b).
End MirrorSpec.

(** * Properties *)

(** ** Machine integers *)

Module Int32Facts.
Import Int32.

Lemma wrap_id z : in_range z -> wrap z = z.
Proof.
  unfold in_range, min_signed, max_signed, wrap. intros H.
  rewrite Z.mod_small; lia.
Qed.

Lemma wrap_range z : in_range (wrap z).
Proof.
  unfold in_range, min_signed, max_signed, wrap.
  pose proof (Z.mod_pos_bound (z + 2 ^ 31) (2 ^ 32) ltac:(lia)). lia.
Qed.
End Int32Facts.

(** ** The work queue *)

Module WorkQueueFacts.
Import WorkQueue WorkQueueRep.

Lemma alloc_fresh (h : gmap addr WorkItem) : h !! alloc h = None.
Proof. apply not_elem_of_dom. unfold alloc. apply is_fresh. Qed.

Lemma repr_new g : repr (new g) [].
Proof.
  repeat split; simpl; try constructor.
  intros i a t H. rewrite lookup_nil in H. discriminate.
Qed.

Lemma linked_in_heap h cs a :
  linked h cs -> a ∈ cs.*1 -> is_Some (h !! a).
Proof.
  intros Hl Ha. apply list_elem_of_lookup in Ha as [i Hi].
  rewrite list_lookup_fmap in Hi.
  destruct (cs !! i) as [[a' t]|] eqn:E; simpl in Hi; [|discriminate].
  injection Hi as ->. rewrite (Hl i a t E). eauto.
Qed.

Lemma Enqueue_repr q cs s e :
  repr q cs ->
  exists q', Enqueue s e q = Some q' /\
             repr q' ((alloc (heap q), (s, e)) :: cs) /\
             _Slices q' = _Slices q.
Proof.
  intros (Hnd & Hhd & Htl & Hl).
  assert (Hfresh : alloc (heap q) ∉ cs.*1).
  { intros Hin. destruct (linked_in_heap _ _ _ Hl Hin) as [w Hw].
    rewrite alloc_fresh in Hw. discriminate. }
  unfold Enqueue. destruct cs as [|[a0 t0] cs]; simpl in *.
  - rewrite Hhd. eexists. split; [reflexivity|]. split; [|reflexivity].
    repeat split; simpl.
    + apply NoDup_singleton.
    + intros [|i] a t H; simpl in H; [|rewrite lookup_nil in H; discriminate].
      injection H as <- <-. simpl. apply lookup_insert_eq.
  - rewrite Hhd. pose proof (Hl O a0 t0 eq_refl) as H0. simpl in H0.
    rewrite H0. simpl.
    eexists. split; [reflexivity|]. split; [|reflexivity].
    apply NoDup_cons in Hnd as [Ha0 Hnd].
    repeat split; simpl.
    + apply NoDup_cons. split; [exact Hfresh|]. apply NoDup_cons. now split.
    + rewrite Htl. destruct (cs.*1); reflexivity.
    + intros [|[|i]] a t H; simpl in H.
      * injection H as <- <-. simpl. apply lookup_insert_eq.
      * injection H as <- <-. simpl.
        rewrite lookup_insert_ne by (intros E; apply Hfresh; rewrite E; left).
        rewrite lookup_insert_eq. reflexivity.
      * assert (Hin : a ∈ cs.*1).
        { apply list_elem_of_lookup. exists i. rewrite list_lookup_fmap, H. reflexivity. }
        rewrite lookup_insert_ne by (intros E; apply Hfresh; rewrite E; now right).
        rewrite lookup_insert_ne by (intros E; apply Ha0; now rewrite E).
        apply (Hl (S i) a t). exact H.
Qed.

Lemma Dequeue_repr_nil q : repr q [] -> Dequeue q = Some (None, q).
Proof. intros (_ & _ & Htl & _). unfold Dequeue. now rewrite Htl. Qed.

Lemma Dequeue_repr_snoc q cs a t :
  repr q (cs ++ [(a, t)]) ->
  exists q', Dequeue q = Some (Some t, q') /\ repr q' cs /\ _Slices q' = _Slices q.
Proof.
  intros (Hnd & Hhd & Htl & Hl).
  rewrite fmap_app in Hnd, Hhd, Htl. simpl in Hnd, Hhd, Htl.
  rewrite last_snoc in Htl.
  assert (Hlen : length cs.*1 = length cs) by apply length_fmap.
  pose proof (Hl (length cs) a t) as Ha.
  rewrite lookup_app_r, Nat.sub_diag in Ha by lia. specialize (Ha eq_refl).
  rewrite fmap_app in Ha. simpl in Ha.
  rewrite (lookup_ge_None_2 _ (S (length cs))) in Ha by (rewrite length_app; simpl; lia).
  apply NoDup_app in Hnd as (Hnd & Hdisj & _).
  unfold Dequeue. rewrite Htl.
  destruct t as [s e]. simpl in Ha.
  destruct cs as [|[a0 t0] cs0] using rev_ind.
  - simpl in *. rewrite Ha. simpl. rewrite Hhd. rewrite decide_True by reflexivity.
    eexists. split; [reflexivity|]. split; [|reflexivity].
    repeat split; simpl; try constructor.
    intros i a' t' H. rewrite lookup_nil in H. discriminate.
  - clear IHcs0.
    assert (Hne : _head q <> Some a).
    { rewrite Hhd. intros E. apply (Hdisj a); [|left].
      destruct (cs0 ++ [(a0, t0)]) as [|[a1 t1] l] eqn:El.
      - destruct cs0; discriminate.
      - simpl in E. injection E as ->. left. }
    rewrite length_app in Ha. simpl in Ha.
    replace (length cs0 + 1)%nat with (S (length cs0)) in Ha by lia.
    rewrite lookup_app_l in Ha by (rewrite length_fmap, length_app; simpl; lia).
    rewrite fmap_app in Ha. simpl in Ha.
    rewrite lookup_app_r in Ha by (rewrite length_fmap; lia).
    rewrite length_fmap, Nat.sub_diag in Ha. simpl in Ha.
    rewrite Ha. simpl.
    rewrite decide_False by exact Hne.
    pose proof (Hl (length cs0) a0 t0) as Hp.
    rewrite lookup_app_l in Hp by (rewrite length_app; simpl; lia).
    rewrite lookup_app_r, Nat.sub_diag in Hp by lia. specialize (Hp eq_refl).
    rewrite Hp. simpl.
    eexists. split; [reflexivity|]. split; [|reflexivity].
    assert (Hane : a0 <> a).
    { intros ->. apply (Hdisj a); [|left]. rewrite fmap_app. apply elem_of_app. right. left. }
    repeat split; simpl.
    + exact Hnd.
    + rewrite Hhd. destruct (cs0 ++ [(a0, t0)]) eqn:El; [destruct cs0; discriminate|reflexivity].
    + rewrite fmap_app. simpl. now rewrite last_snoc.
    + intros i a' t' H.
      assert (Hi : (i < length (cs0 ++ [(a0, t0)]))%nat) by (eapply lookup_lt_Some; eauto).
      assert (Hin : a' ∈ (cs0 ++ [(a0, t0)]).*1).
      { apply list_elem_of_lookup. exists i. rewrite list_lookup_fmap, H. reflexivity. }
      rewrite lookup_delete_ne by (intros E; apply (Hdisj a); [rewrite E; exact Hin | left]).
      pose proof (Hl i a' t') as Hi'.
      rewrite lookup_app_l in Hi' by lia. specialize (Hi' H).
      rewrite length_app in Hi. simpl in Hi.
      destruct (decide (i = length cs0)) as [->|Hneq].
      * rewrite lookup_app_r, Nat.sub_diag in H by lia. injection H as <- <-.
        rewrite lookup_insert_eq. unfold set_next. simpl.
        rewrite (lookup_ge_None_2 _ (S (length cs0)))
          by (rewrite length_fmap, length_app; simpl; lia).
        f_equal. f_equal.
        destruct (length cs0) eqn:El; [reflexivity|].
        rewrite (fmap_app _ _ [(a, (s, e))]).
        rewrite lookup_app_l by (rewrite length_fmap, length_app; simpl; lia).
        reflexivity.
      * assert (Hne' : a' <> a0).
        { intros ->. apply Hneq.
          rewrite fmap_app in Hnd. simpl in Hnd.
          assert (E1 : (cs0 ++ [(a0, t0)]).*1 !! i = Some a0)
            by (rewrite list_lookup_fmap, H; reflexivity).
          assert (E2 : (cs0 ++ [(a0, t0)]).*1 !! length cs0 = Some a0).
          { rewrite list_lookup_fmap, lookup_app_r, Nat.sub_diag by lia. reflexivity. }
          rewrite fmap_app in E1, E2. simpl in E1, E2.
          eapply NoDup_lookup; eauto. }
        rewrite lookup_insert_ne by congruence.
        rewrite Hi'. f_equal.
        assert (Hlt : (i < length cs0)%nat) by lia.
        f_equal.
        -- rewrite (fmap_app _ _ [(a, (s, e))]).
           rewrite lookup_app_l by (rewrite length_fmap, length_app; simpl; lia).
           reflexivity.
        -- destruct i as [|j]; [reflexivity|].
           rewrite (fmap_app _ _ [(a, (s, e))]).
           rewrite lookup_app_l by (rewrite length_fmap, length_app; simpl; lia).
           reflexivity.
Qed.

Lemma enqueue_all_repr ts : forall q cs,
  repr q cs ->
  exists q' cs', enqueue_all ts q = Some q' /\ repr q' (cs' ++ cs) /\
                 cs'.*2 = rev ts /\ _Slices q' = _Slices q.
Proof.
  induction ts as [|[s e] ts IH]; intros q cs Hr; simpl.
  - exists q, []. auto.
  - destruct (Enqueue_repr q cs s e Hr) as (q1 & -> & Hr1 & Hs1). simpl.
    destruct (IH q1 _ Hr1) as (q' & cs' & -> & Hr' & Hts & Hs').
    exists q', (cs' ++ [(alloc (heap q), (s, e))]). split; [reflexivity|].
    rewrite <- app_assoc. split; [exact Hr'|]. split; [|congruence].
    rewrite fmap_app, Hts. reflexivity.
Qed.

Lemma dequeue_n_repr cs : forall q,
  repr q cs ->
  exists q', dequeue_n (length cs) q = Some (Some <$> rev cs.*2, q') /\
             repr q' [] /\ _Slices q' = _Slices q.
Proof.
  induction cs as [|[a t] cs IH] using rev_ind; intros q Hr.
  - exists q. simpl. auto.
  - destruct (Dequeue_repr_snoc q cs a t Hr) as (q1 & Hd & Hr1 & Hs1).
    destruct (IH q1 Hr1) as (q' & Hn & Hr' & Hs').
    exists q'. rewrite length_app. simpl.
    replace (length cs + 1)%nat with (S (length cs)) by lia.
    simpl. rewrite Hd. simpl. rewrite Hn. simpl.
    rewrite fmap_app, rev_app_distr. simpl.
    split; [reflexivity|]. split; [exact Hr'|congruence].
Qed.

(** Any number of [Dequeue] calls on a well-formed queue succeeds as a
    memory operation and leaves [_Slices] alone. *)
Lemma dequeue_n_Slices n : forall q cs,
  repr q cs ->
  exists rs q', dequeue_n n q = Some (rs, q') /\ _Slices q' = _Slices q.
Proof.
  induction n as [|n IH]; intros q cs Hr; simpl.
  - eauto.
  - destruct cs as [|[a t] cs _] using rev_ind.
    + rewrite (Dequeue_repr_nil q Hr). simpl.
      destruct (IH q [] Hr) as (rs & q' & -> & Hs). simpl. eauto.
    + destruct (Dequeue_repr_snoc q cs a t Hr) as (q1 & -> & Hr1 & Hs1). simpl.
      destruct (IH q1 cs Hr1) as (rs & q' & -> & Hs). simpl.
      do 2 eexists. split; [reflexivity|congruence].
Qed.

(** C4 (as amended): the queue is first-in first-out.  When the tiles
    [ts] are enqueued in order on a fresh queue, the following [Dequeue]
    calls all succeed and return the tiles in the order in which they were
    enqueued (each call returns the oldest tile not yet dequeued); the call
    after the last tile reports that no work is left. *)
Theorem Dequeue_serves_first_enqueued_first (g : Z) (ts : list tile) :
  exists q q',
    enqueue_all ts (new g) = Some q /\
    dequeue_n (length ts) q = Some (Some <$> ts, q') /\
    Dequeue q' = Some (None, q').
Proof.
  destruct (enqueue_all_repr ts (new g) [] (repr_new g)) as (q & cs & He & Hr & Hts & _).
  rewrite app_nil_r in Hr.
  destruct (dequeue_n_repr cs q Hr) as (q' & Hd & Hr' & _).
  exists q, q'. split; [exact He|].
  assert (Hlen : length cs = length ts).
  { rewrite <- (length_fmap snd cs), Hts. apply length_rev. }
  rewrite <- Hlen, Hd, Hts, rev_involutive.
  split; [reflexivity|]. now apply Dequeue_repr_nil.
Qed.

(** C4 (as stated) fails: after [Enqueue(0, 1)] and [Enqueue(1, 2)] the first
    [Dequeue] returns the tile (0, 1), not the tile enqueued last. *)
Lemma Dequeue_is_not_last_in_first_out :
  ~ serves_last_enqueued_first [(0, 1); (1, 2)].
Proof.
  intros H. destruct (H 0 _ eq_refl) as [q' Hq'].
  vm_compute in Hq'. discriminate.
Qed.

(** C5: [getSlices] returns the member [_Slices], which no constructor and
    no operation assigns.  After any batch of [Enqueue] calls on a fresh
    queue and any number of [Dequeue] calls it still returns the
    indeterminate value [g] the storage held, not the number of tiles left. *)
Theorem getSlices_is_never_assigned (g : Z) (ts : list tile) (n : nat) :
  exists q rs q',
    enqueue_all ts (new g) = Some q /\
    dequeue_n n q = Some (rs, q') /\
    getSlices (new g) = g /\ getSlices q = g /\ getSlices q' = g.
Proof.
  destruct (enqueue_all_repr ts (new g) [] (repr_new g)) as (q & cs & He & Hr & _ & Hs).
  destruct (dequeue_n_Slices n q _ Hr) as (rs & q' & Hd & Hs').
  exists q, rs, q'. unfold getSlices. simpl in Hs.
  repeat split; try assumption; congruence.
Qed.

(** Whatever the storage held, some batch makes the accessor differ from
    the number of tiles in the queue. *)
Lemma getSlices_differs_from_count (g : Z) :
  exists ts q, enqueue_all ts (new g) = Some q /\
               getSlices q <> Z.of_nat (length ts).
Proof.
  destruct (decide (g = 0)) as [->|Hg].
  - exists [(0, 3)]. eexists. split; [reflexivity|]. vm_compute. discriminate.
  - exists []. eexists. split; [reflexivity|]. exact Hg.
Qed.
End WorkQueueFacts.

(** ** Binary64 arithmetic

    Rounding facts for the operations of [SpecFloat] at precision 53, as far
    as the colour formula needs them. *)

Module DoubleFacts.
Import Double.

Lemma digits2_pos_bounds (m : positive) :
  2 ^ (Zpos (digits2_pos m) - 1) <= Zpos m < 2 ^ Zpos (digits2_pos m).
Proof.
  induction m as [m IH|m IH|]; simpl digits2_pos.
  - rewrite Pos2Z.inj_succ, (Pos2Z.inj_xI m).
    replace (Z.succ (Zpos (digits2_pos m)) - 1) with (Z.succ (Zpos (digits2_pos m) - 1)) by lia.
    rewrite !Z.pow_succ_r by lia. lia.
  - rewrite Pos2Z.inj_succ, (Pos2Z.inj_xO m).
    replace (Z.succ (Zpos (digits2_pos m)) - 1) with (Z.succ (Zpos (digits2_pos m) - 1)) by lia.
    rewrite !Z.pow_succ_r by lia. lia.
  - simpl. lia.
Qed.

Lemma digits2_pos_unique (m : positive) (d : Z) :
  2 ^ (d - 1) <= Zpos m < 2 ^ d -> Zpos (digits2_pos m) = d.
Proof.
  intros [Hlo Hhi]. pose proof (digits2_pos_bounds m) as [Blo Bhi].
  set (D := Zpos (digits2_pos m)) in *.
  assert (0 < d).
  { destruct (Z.lt_ge_cases 0 d); [assumption|].
    assert (2 ^ d <= 1); [|lia].
    destruct (Z.eq_dec d 0) as [->|]; [simpl; lia|].
    rewrite Z.pow_neg_r by lia. lia. }
  assert (D - 1 < d).
  { apply (Z.pow_lt_mono_r_iff 2); lia. }
  assert (d - 1 < D).
  { apply (Z.pow_lt_mono_r_iff 2); lia. }
  lia.
Qed.

Lemma shr_1_m mrs : 0 <= shr_m mrs -> shr_m (shr_1 mrs) = shr_m mrs / 2.
Proof.
  destruct mrs as [m r s]. simpl. intros Hm.
  destruct m as [|[p|p|]|p]; simpl; try reflexivity; try lia.
  - apply Z.div_unique with 1; lia.
  - apply Z.div_unique with 0; lia.
Qed.

Lemma iter_shr_1_m (p : positive) : forall mrs,
  0 <= shr_m mrs ->
  shr_m (SpecFloat.iter_pos shr_1 p mrs) = shr_m mrs / 2 ^ Zpos p.
Proof.
  assert (Hnn : forall mrs, 0 <= shr_m mrs -> 0 <= shr_m (shr_1 mrs)).
  { intros mrs H. rewrite shr_1_m by assumption. apply Z.div_pos; lia. }
  induction p as [p IH|p IH|]; intros mrs Hm; cbn [SpecFloat.iter_pos].
  - assert (H1 := Hnn mrs Hm).
    assert (H2 : 0 <= shr_m (SpecFloat.iter_pos shr_1 p (shr_1 mrs))).
    { rewrite IH by assumption. apply Z.div_pos; lia. }
    rewrite IH, IH, shr_1_m by assumption.
    rewrite !Z.div_div by lia. f_equal.
    rewrite (Pos2Z.inj_xI p).
    replace (2 * Zpos p + 1) with (1 + Zpos p + Zpos p) by lia.
    rewrite !Z.pow_add_r by lia. lia.
  - assert (H2 : 0 <= shr_m (SpecFloat.iter_pos shr_1 p mrs)).
    { rewrite IH by assumption. apply Z.div_pos; lia. }
    rewrite IH, IH by assumption.
    rewrite !Z.div_div by lia. f_equal.
    rewrite (Pos2Z.inj_xO p).
    replace (2 * Zpos p) with (Zpos p + Zpos p) by lia.
    rewrite !Z.pow_add_r by lia. lia.
  - now apply shr_1_m.
Qed.

Lemma shr_record_of_loc_m m l : shr_m (shr_record_of_loc m l) = m.
Proof. destruct l as [|[]]; reflexivity. Qed.

Lemma round_nearest_even_bounds m l :
  m <= round_nearest_even m l <= m + 1.
Proof. destruct l as [|[]]; simpl; try destruct (Z.even m); lia. Qed.

Lemma shr_fexp_m (m e : Z) (l : location) (n : Z) :
  0 < m -> n = fexp prec emax (Zdigits2 m + e) - e -> 0 <= n ->
  exists mrs, shr_fexp prec emax m e l = (mrs, e + n) /\ shr_m mrs = m / 2 ^ n.
Proof.
  intros Hm Hn Hn0. unfold shr_fexp. rewrite <- Hn. unfold shr.
  destruct n as [|p|p]; [| |lia].
  - eexists. rewrite Z.add_0_r. split; [reflexivity|].
    rewrite shr_record_of_loc_m. simpl. now rewrite Z.div_1_r.
  - eexists. split; [reflexivity|].
    rewrite iter_shr_1_m; rewrite shr_record_of_loc_m; [reflexivity|lia].
Qed.

Lemma Zdigits2_pos (m : positive) : Zdigits2 (Zpos m) = Zpos (digits2_pos m).
Proof. reflexivity. Qed.

(** Rounding a mantissa of at least 53 digits to binary64: the result is a
    normal number whose mantissa is the input shifted right by the excess
    digits, or one more (with a carry into the next binade if needed). *)
Lemma binary_round_aux_bracket (s : bool) (m : positive) (e : Z) (l : location) (n : Z) :
  n = Zpos (digits2_pos m) - 53 -> 0 <= n -> -1074 <= e + n -> e + n + 1 <= 971 ->
  exists (m' : positive) (k : Z),
    binary_round_aux prec emax s (Zpos m) e l = S754_finite s m' (e + k) /\
    n <= k <= n + 1 /\
    2 ^ 52 <= Zpos m' < 2 ^ 53 /\
    Zpos m / 2 ^ n <= Zpos m' * 2 ^ (k - n) <= Zpos m / 2 ^ n + 1.
Proof.
  intros Hn Hn0 Hlo Hhi.
  pose proof (digits2_pos_bounds m) as [Dlo Dhi].
  replace (Zpos (digits2_pos m) - 1) with (n + 52) in Dlo by lia.
  replace (Zpos (digits2_pos m)) with (n + 53) in Dhi by lia.
  rewrite Z.pow_add_r in Dlo, Dhi by lia.
  assert (Hp : 0 < 2 ^ n) by (apply Z.pow_pos_nonneg; lia).
  assert (Hm1 : 2 ^ 52 <= Zpos m / 2 ^ n < 2 ^ 53).
  { split; [apply Z.div_le_lower_bound|apply Z.div_lt_upper_bound]; lia. }
  unfold binary_round_aux.
  assert (Hf : n = fexp prec emax (Zdigits2 (Zpos m) + e) - e).
  { rewrite Zdigits2_pos. unfold fexp, emin, prec, emax. lia. }
  destruct (shr_fexp_m (Zpos m) e l n ltac:(lia) Hf Hn0) as (mrs & -> & Hmrs).
  pose proof (round_nearest_even_bounds (shr_m mrs) (loc_of_shr_record mrs)) as Hr.
  set (r1 := round_nearest_even (shr_m mrs) (loc_of_shr_record mrs)) in *.
  rewrite Hmrs in Hr.
  destruct r1 as [|p1|p1] eqn:Er1; [lia| |lia].
  destruct (Z.eq_dec (Zpos p1) (2 ^ 53)) as [E53|N53].
  - assert (Hf2 : 1 = fexp prec emax (Zdigits2 (Zpos p1) + (e + n)) - (e + n)).
    { rewrite Zdigits2_pos, (digits2_pos_unique p1 54) by (rewrite E53; simpl; lia).
      unfold fexp, emin, prec, emax. lia. }
    destruct (shr_fexp_m (Zpos p1) (e + n) loc_Exact 1 ltac:(lia) Hf2 ltac:(lia))
      as (mrs2 & -> & Hmrs2).
    rewrite Hmrs2, E53. change (2 ^ 53 / 2 ^ 1) with (Zpos 4503599627370496).
    replace (e + n + 1 <=? emax - prec) with true
      by (symmetry; apply Z.leb_le; unfold emax, prec; lia).
    exists 4503599627370496%positive, (n + 1).
    split; [f_equal; lia|]. split; [lia|]. split; [simpl; lia|].
    replace (n + 1 - n) with 1 by lia.
    change (Zpos 4503599627370496 * 2 ^ 1) with (2 ^ 53). lia.
  - assert (Hf2 : 0 = fexp prec emax (Zdigits2 (Zpos p1) + (e + n)) - (e + n)).
    { rewrite Zdigits2_pos, (digits2_pos_unique p1 53) by (simpl; lia).
      unfold fexp, emin, prec, emax. lia. }
    destruct (shr_fexp_m (Zpos p1) (e + n) loc_Exact 0 ltac:(lia) Hf2 ltac:(lia))
      as (mrs2 & -> & Hmrs2).
    rewrite Hmrs2. simpl (2 ^ 0). rewrite Z.div_1_r.
    replace (e + n + 0 <=? emax - prec) with true
      by (symmetry; apply Z.leb_le; unfold emax, prec; lia).
    exists p1, n.
    split; [f_equal; lia|]. split; [lia|]. split; [lia|].
    rewrite Z.sub_diag. simpl (2 ^ 0). lia.
Qed.

Lemma binary_round_aux_exact (s : bool) (m : positive) (e : Z) :
  Zpos (digits2_pos m) = 53 -> -1074 <= e <= 971 ->
  binary_round_aux prec emax s (Zpos m) e loc_Exact = S754_finite s m e.
Proof.
  intros Hd He.
  assert (Hf : 0 = fexp prec emax (Zdigits2 (Zpos m) + e) - e).
  { rewrite Zdigits2_pos, Hd. unfold fexp, emin, prec, emax. lia. }
  unfold binary_round_aux, shr_fexp. rewrite <- Hf. cbn [shr shr_record_of_loc shr_m loc_of_shr_record round_nearest_even].
  rewrite <- Hf. cbn [shr shr_record_of_loc shr_m].
  replace (e <=? emax - prec) with true
    by (symmetry; apply Z.leb_le; unfold emax, prec; lia).
  reflexivity.
Qed.

Lemma iter_xO (p : positive) (m : positive) :
  Zpos (Pos.iter xO m p) = Zpos m * 2 ^ Zpos p.
Proof.
  induction p as [|p IH] using Pos.peano_ind.
  - simpl. lia.
  - rewrite Pos.iter_succ, Pos2Z.inj_succ, Z.pow_succ_r by lia.
    rewrite (Pos2Z.inj_xO (Pos.iter xO m p)), IH. lia.
Qed.

(** A mantissa of at most 53 digits is represented exactly. *)
Lemma binary_round_exact (s : bool) (m : positive) (e : Z) (d : Z) :
  d = Zpos (digits2_pos m) -> d <= 53 ->
  -1074 <= e - (53 - d) -> e - (53 - d) <= 971 ->
  exists m' : positive,
    binary_round prec emax s m e = S754_finite s m' (e - (53 - d)) /\
    Zpos m' = Zpos m * 2 ^ (53 - d) /\
    2 ^ 52 <= Zpos m' < 2 ^ 53.
Proof.
  intros Hd Hd53 Hlo Hhi.
  pose proof (digits2_pos_bounds m) as [Dlo Dhi]. rewrite <- Hd in Dlo, Dhi.
  unfold binary_round.
  replace (fexp prec emax (Zpos (digits2_pos m) + e)) with (e - (53 - d))
    by (rewrite <- Hd; unfold fexp, emin, prec, emax; lia).
  unfold shl_align.
  destruct (e - (53 - d) - e) as [|p|p] eqn:Ep; [|lia|].
  - assert (E : d = 53) by (clear - Ep; lia). rewrite E in *. clear E.
    exists m. rewrite binary_round_aux_exact by lia.
    split; [f_equal; lia|]. change (2 ^ (53 - 53)) with 1.
    change (53 - 1) with 52 in Dlo. lia.
  - assert (Hp : Zpos p = 53 - d) by (clear - Ep; lia).
    exists (Pos.iter xO m p).
    assert (Hv : Zpos (Pos.iter xO m p) = Zpos m * 2 ^ (53 - d))
      by (rewrite iter_xO, Hp; reflexivity).
    assert (Hb : 2 ^ (53 - 1) <= Zpos (Pos.iter xO m p) < 2 ^ 53); [|
      split; [|split; [exact Hv|exact Hb]];
      apply binary_round_aux_exact; [|lia];
      apply digits2_pos_unique; exact Hb].
    rewrite Hv.
    assert (0 < d) by (rewrite Hd; lia).
    assert (E1 : 2 ^ (53 - 1) = 2 ^ (53 - d) * 2 ^ (d - 1))
      by (rewrite <- Z.pow_add_r by lia; f_equal; lia).
    assert (E2 : 2 ^ 53 = 2 ^ (53 - d) * 2 ^ d)
      by (rewrite <- Z.pow_add_r by lia; f_equal; lia).
    rewrite E1, E2.
    assert (0 < 2 ^ (53 - d)) by (apply Z.pow_pos_nonneg; lia).
    rewrite (Z.mul_comm (Zpos m)). split.
    + apply Z.mul_le_mono_nonneg_l; lia.
    + apply Z.mul_lt_mono_pos_l; lia.
Qed.

Lemma trunc_small (s : bool) (m : positive) (e : Z) :
  e <= 0 -> Zpos m < 2 ^ (- e) -> trunc (S754_finite s m e) = Some 0.
Proof.
  intros He Hm. unfold trunc.
  rewrite Z.shiftl_div_pow2 by lia.
  rewrite Z.div_small by lia. now destruct s.
Qed.

Lemma of_int_pos (M : Z) :
  1 <= M < 2 ^ 31 ->
  exists (mM : positive) (eM : Z),
    of_int M = S754_finite false mM eM /\ -52 <= eM <= -22 /\
    Zpos mM = M * 2 ^ (- eM) /\ 2 ^ 52 <= Zpos mM < 2 ^ 53.
Proof.
  intros HM. destruct M as [|p|p]; try lia.
  pose proof (digits2_pos_bounds p) as [Dlo Dhi].
  set (d := Zpos (digits2_pos p)) in *.
  assert (Hd : 1 <= d <= 31).
  { split; [unfold d; lia|].
    assert (d - 1 < 31); [|lia]. apply (Z.pow_lt_mono_r_iff 2); lia. }
  destruct (binary_round_exact false p 0 d eq_refl) as (m' & Hr & Hv & Hb); try lia.
  exists m', (d - 53). unfold of_int, binary_normalize. rewrite Hr.
  split; [f_equal; lia|]. split; [lia|].
  replace (- (d - 53)) with (53 - d) by lia. auto.
Qed.

Lemma SFdiv_core_2p24 (mM : positive) (eM : Z) :
  2 ^ 52 <= Zpos mM < 2 ^ 53 -> -60 <= eM <= 0 ->
  SFdiv_core_binary prec emax (Zpos 4503599627370496) (-28) (Zpos mM) eM =
  (2 ^ 105 / Zpos mM, -81 - eM, new_location (Zpos mM) (2 ^ 105 mod Zpos mM)).
Proof.
  intros Hm He. unfold SFdiv_core_binary.
  rewrite !Zdigits2_pos, (digits2_pos_unique mM 53) by (simpl; lia).
  change (Zpos (digits2_pos 4503599627370496)) with 53.
  cbv zeta.
  replace (Z.min (fexp prec emax (53 + -28 - (53 + eM))) (-28 - eM)) with (-81 - eM)
    by (unfold fexp, emin, prec, emax; lia).
  replace (-28 - eM - (-81 - eM)) with 53 by lia.
  change (Z.shiftl 4503599627370496 53) with (2 ^ 105).
  cbv iota. unfold Z.div, Z.modulo.
  destruct (Z.div_eucl (2 ^ 105) (Zpos mM)) as [q r]. reflexivity.
Qed.

(** [-16777216.0 / M] for a positive [int] [M]: a normal negative number
    within two units of the last place of 2^24 / M. *)
Lemma div_2p24 (mM : positive) (eM : Z) :
  2 ^ 52 <= Zpos mM < 2 ^ 53 -> -60 <= eM <= 0 ->
  exists (mq : positive) (kq : Z),
    div (opp (of_int 16777216)) (S754_finite false mM eM)
      = S754_finite true mq (-81 - eM + kq) /\
    0 <= kq <= 2 /\ 2 ^ 52 <= Zpos mq < 2 ^ 53 /\
    2 ^ 105 / Zpos mM - 1 <= Zpos mq * 2 ^ kq <= 2 ^ 105 / Zpos mM + 2.
Proof.
  intros Hm He.
  change (opp (of_int 16777216)) with (S754_finite true 4503599627370496 (-28)).
  unfold div, SFdiv. rewrite SFdiv_core_2p24 by assumption.
  cbv beta iota. change (xorb true false) with true.
  set (Q := 2 ^ 105 / Zpos mM).
  pose proof (Z.mul_div_le (2 ^ 105) (Zpos mM) ltac:(lia)) as Q1.
  pose proof (Z.mul_succ_div_gt (2 ^ 105) (Zpos mM) ltac:(lia)) as Q2.
  fold Q in Q1, Q2.
  assert (HQ : 2 ^ 52 <= Q <= 2 ^ 53) by nia.
  destruct Q as [|pq|pq] eqn:EQ; [lia| |lia].
  destruct (Z.eq_dec (Zpos pq) (2 ^ 53)) as [E53|N53].
  - destruct (binary_round_aux_bracket true pq (-81 - eM)
                (new_location (Zpos mM) (2 ^ 105 mod Zpos mM)) 1)
      as (mq & k & -> & Hk & Hmq & Hv); try lia.
    { rewrite (digits2_pos_unique pq 54); [reflexivity|]. rewrite E53. simpl. lia. }
    exists mq, k. split; [reflexivity|]. split; [lia|]. split; [exact Hmq|].
    rewrite E53 in Hv |- *. change (2 ^ 53 / 2 ^ 1) with (2 ^ 52) in Hv.
    assert (Ek : k = 1 \/ k = 2) by lia.
    destruct Ek as [-> | ->]; simpl (2 ^ _) in *; lia.
  - destruct (binary_round_aux_bracket true pq (-81 - eM)
                (new_location (Zpos mM) (2 ^ 105 mod Zpos mM)) 0)
      as (mq & k & -> & Hk & Hmq & Hv); try lia.
    { rewrite (digits2_pos_unique pq 53); [reflexivity|]. simpl. lia. }
    exists mq, k. split; [reflexivity|]. split; [lia|]. split; [exact Hmq|].
    simpl (2 ^ 0) in Hv. rewrite Z.div_1_r, Z.sub_0_r in Hv. lia.
Qed.

(** The product of two normal numbers: a normal number within one unit
    in the last place of the exact product. *)
Lemma mul_bracket (s1 s2 : bool) (m1 m2 : positive) (e1 e2 : Z) :
  2 ^ 52 <= Zpos m1 < 2 ^ 53 -> 2 ^ 52 <= Zpos m2 < 2 ^ 53 ->
  -1000 <= e1 + e2 <= 800 ->
  exists (mp : positive) (k : Z),
    mul (S754_finite s1 m1 e1) (S754_finite s2 m2 e2)
      = S754_finite (xorb s1 s2) mp (e1 + e2 + k) /\
    52 <= k <= 54 /\ 2 ^ 52 <= Zpos mp < 2 ^ 53 /\
    Zpos m1 * Zpos m2 - 2 ^ 53 <= Zpos mp * 2 ^ k <= Zpos m1 * Zpos m2 + 2 ^ 53.
Proof.
  intros H1 H2 He. unfold mul, SFmul.
  assert (HP : 2 ^ 104 <= Zpos (m1 * m2) < 2 ^ 106).
  { rewrite Pos2Z.inj_mul. change (2 ^ 104) with (2 ^ 52 * 2 ^ 52).
    change (2 ^ 106) with (2 ^ 53 * 2 ^ 53). nia. }
  rewrite <- Pos2Z.inj_mul.
  set (P := (m1 * m2)%positive) in *.
  pose proof (digits2_pos_bounds P) as [Dlo Dhi].
  set (D := Zpos (digits2_pos P)) in *.
  assert (HD : 105 <= D <= 106).
  { split.
    - assert (104 < D); [|lia]. apply (Z.pow_lt_mono_r_iff 2); lia.
    - assert (D - 1 < 106); [|lia]. apply (Z.pow_lt_mono_r_iff 2); lia. }
  destruct (binary_round_aux_bracket (xorb s1 s2) P (e1 + e2) loc_Exact (D - 53))
    as (mp & k & -> & Hk & Hmp & Hv); try (unfold D; lia).
  exists mp, k. split; [reflexivity|]. split; [lia|]. split; [exact Hmp|].
  assert (En : D - 53 = 52 \/ D - 53 = 53) by lia.
  assert (Ek : k = D - 53 \/ k = D - 53 + 1) by lia.
  destruct En as [En|En]; rewrite En in *; destruct Ek as [-> | ->];
    simpl (2 ^ _) in *; Z.div_mod_to_equations; lia.
Qed.

(** A small integer multiple of a unit below 2^-20 truncates to zero. *)
Lemma trunc_normalize_small (S e : Z) :
  - 2 ^ 20 < S < 2 ^ 20 -> -60 <= e <= -21 ->
  trunc (binary_normalize prec emax S e false) = Some 0.
Proof.
  intros HS He.
  assert (Hpos : forall (s : bool) (m : positive),
             Zpos m < 2 ^ 20 -> trunc (binary_round prec emax s m e) = Some 0).
  { intros s m Hm.
    pose proof (digits2_pos_bounds m) as [Dlo Dhi].
    set (d := Zpos (digits2_pos m)) in *.
    assert (Hd : 1 <= d <= 20).
    { split; [unfold d; lia|].
      assert (d - 1 < 20); [|lia]. apply (Z.pow_lt_mono_r_iff 2); lia. }
    destruct (binary_round_exact s m e d eq_refl) as (m' & -> & _ & Hb); try lia.
    apply trunc_small; [lia|].
    apply Z.lt_le_trans with (2 ^ 53); [lia|].
    apply Z.pow_le_mono_r; lia. }
  destruct S as [|m|m]; simpl.
  - reflexivity.
  - apply Hpos. lia.
  - apply Hpos. lia.
Qed.

(** Adding 16777216.0 to a negative number that is close to -16777216. *)
Lemma add_2p24_close (mp : positive) (ep : Z) :
  (ep = -29 /\ 2 ^ 53 - 2 ^ 20 < Zpos mp < 2 ^ 53 + 2 ^ 20) \/
  (ep = -28 /\ 2 ^ 52 - 2 ^ 20 < Zpos mp < 2 ^ 52 + 2 ^ 20) ->
  trunc (add (S754_finite true mp ep) (of_int 16777216)) = Some 0.
Proof.
  change (of_int 16777216) with (S754_finite false 4503599627370496 (-28)).
  intros [[-> H]|[-> H]]; unfold add, SFadd; cbn [cond_Zopp].
  - change (Z.min (-29) (-28)) with (-29).
    change (shl_align mp (-29) (-29)) with (mp, -29).
    change (shl_align 4503599627370496 (-28) (-29)) with (9007199254740992%positive, -29).
    apply trunc_normalize_small; simpl in *; lia.
  - change (Z.min (-28) (-28)) with (-28).
    change (shl_align mp (-28) (-28)) with (mp, -28).
    change (shl_align 4503599627370496 (-28) (-28)) with (4503599627370496%positive, -28).
    apply trunc_normalize_small; simpl in *; lia.
Qed.

(** [-16777216.0 / M * M + 16777216.0] lies strictly between -1 and 1 for
    every positive [int] [M], although the quotient and the product are
    rounded. *)
Lemma rgb_index_at_budget (M : Z) :
  1 <= M < 2 ^ 31 -> trunc (Worker.rgb_index M M) = Some 0.
Proof.
  intros HM. unfold Worker.rgb_index.
  destruct (of_int_pos M HM) as (mM & eM & -> & He & HvM & HbM).
  destruct (div_2p24 mM eM HbM ltac:(lia)) as (mq & kq & -> & Hkq & Hmq & HVq).
  destruct (mul_bracket true false mq mM (-81 - eM + kq) eM Hmq HbM ltac:(lia))
    as (mp & k & -> & Hk & Hmp & HVp).
  change (xorb true false) with true.
  pose proof (Z.mul_div_le (2 ^ 105) (Zpos mM) ltac:(lia)) as Q1.
  pose proof (Z.mul_succ_div_gt (2 ^ 105) (Zpos mM) ltac:(lia)) as Q2.
  set (Q := 2 ^ 105 / Zpos mM) in *.
  assert (B1 : (Q - 1) * Zpos mM <= Zpos mq * 2 ^ kq * Zpos mM)
    by (apply Z.mul_le_mono_nonneg_r; lia).
  assert (B2 : Zpos mq * 2 ^ kq * Zpos mM <= (Q + 2) * Zpos mM)
    by (apply Z.mul_le_mono_nonneg_r; lia).
  apply add_2p24_close.
  assert (Ekq : kq = 0 \/ kq = 1 \/ kq = 2) by lia.
  assert (Ek : k = 52 \/ k = 53 \/ k = 54) by lia.
  destruct Ekq as [-> |[-> | ->]]; destruct Ek as [-> |[-> | ->]];
    simpl (2 ^ _) in *; lia.
Qed.

(** Truncating a rounded positive integer multiple of [2^e], [e <= 0]: the
    result is the floor of [T * 2^e] for an integer [T] no further from the
    mantissa than the rounding step. *)
Lemma trunc_binary_round (s : bool) (m : positive) (e : Z) (n : Z) :
  n = Z.max 0 (Zpos (digits2_pos m) - 53) ->
  -1000 <= e <= 0 -> Zpos (digits2_pos m) <= 900 ->
  exists T : Z,
    trunc (binary_round prec emax s m e) = Some (cond_Zopp s (T / 2 ^ (- e))) /\
    Zpos m - 2 ^ n <= T <= Zpos m + 2 ^ n /\ 0 < T.
Proof.
  intros Hn He HD.
  set (D := Zpos (digits2_pos m)) in *.
  destruct (Z.le_gt_cases D 53) as [Hle|Hgt].
  - destruct (binary_round_exact s m e D eq_refl Hle) as (m' & -> & Hv & Hb); try lia.
    exists (Zpos m). split; [|split; [|lia]].
    + unfold trunc. rewrite Z.shiftl_div_pow2 by lia. rewrite Hv.
      replace (- (e - (53 - D))) with (- e + (53 - D)) by lia.
      rewrite Z.pow_add_r by lia.
      rewrite Z.div_mul_cancel_r.
      * now destruct s.
      * apply Z.pow_nonzero; lia.
      * apply Z.pow_nonzero; lia.
    + assert (0 < 2 ^ n) by (apply Z.pow_pos_nonneg; lia). lia.
  - assert (En : n = D - 53) by lia.
    unfold binary_round.
    replace (fexp prec emax (Zpos (digits2_pos m) + e)) with (e + n)
      by (fold D; unfold fexp, emin, prec, emax; lia).
    unfold shl_align.
    destruct (e + n - e) as [|p|p] eqn:Ep; try lia.
    destruct (binary_round_aux_bracket s m e loc_Exact n)
      as (m' & kk & -> & Hkk & Hm' & Hv); try (fold D; lia).
    assert (Hp : 0 < 2 ^ n) by (apply Z.pow_pos_nonneg; lia).
    pose proof (Z.mul_div_le (Zpos m) (2 ^ n) Hp) as D1.
    pose proof (Z.mul_succ_div_gt (Zpos m) (2 ^ n) Hp) as D2.
    exists (Zpos m' * 2 ^ kk).
    assert (Ekk : 2 ^ kk = 2 ^ (kk - n) * 2 ^ n)
      by (rewrite <- Z.pow_add_r by lia; f_equal; lia).
    split; [|split].
    + unfold trunc. f_equal.
      assert (Hsh : Z.shiftl (Zpos m') (e + kk) = Zpos m' * 2 ^ kk / 2 ^ (- e)).
      { destruct (Z.le_gt_cases 0 (e + kk)).
        - rewrite Z.shiftl_mul_pow2 by lia.
          assert (E : 2 ^ kk = 2 ^ (e + kk) * 2 ^ (- e))
            by (rewrite <- Z.pow_add_r by lia; f_equal; lia).
          rewrite E, Z.mul_assoc, Z.div_mul; [reflexivity|].
          apply Z.pow_nonzero; lia.
        - rewrite Z.shiftl_div_pow2 by lia.
          assert (E : 2 ^ (- e) = 2 ^ (- (e + kk)) * 2 ^ kk)
            by (rewrite <- Z.pow_add_r by lia; f_equal; lia).
          rewrite E, Z.div_mul_cancel_r; [reflexivity| |]; apply Z.pow_nonzero; lia. }
      rewrite Hsh. now destruct s.
    + rewrite Ekk, Z.mul_assoc. nia.
    + assert (0 < 2 ^ kk) by (apply Z.pow_pos_nonneg; lia). nia.
Qed.

(** Operands of the same magnitude class: k <= M gives exponent(k) <= exponent(M). *)
Lemma of_int_exponent_mono (k M : Z) (mk mM : positive) (ek eM : Z) :
  1 <= k <= M ->
  -52 <= ek <= 0 -> -52 <= eM <= 0 ->
  Zpos mk = k * 2 ^ (- ek) -> Zpos mM = M * 2 ^ (- eM) ->
  2 ^ 52 <= Zpos mk < 2 ^ 53 -> 2 ^ 52 <= Zpos mM < 2 ^ 53 ->
  ek <= eM.
Proof.
  intros Hk Hek HeM Ek EM Bk BM.
  destruct (Z.le_gt_cases ek eM) as [|Hgt]; [assumption|exfalso].
  assert (E : 2 ^ (- eM) = 2 ^ (- ek) * 2 ^ (ek - eM))
    by (rewrite <- Z.pow_add_r by lia; f_equal; lia).
  assert (H2 : 2 <= 2 ^ (ek - eM)).
  { change 2 with (2 ^ 1) at 1. apply Z.pow_le_mono_r; lia. }
  assert (0 < 2 ^ (- ek)) by (apply Z.pow_pos_nonneg; lia).
  rewrite E in EM. nia.
Qed.

(** [-16777216.0 / M * k] for [k <= M]: a normal negative number whose
    distance from [2^24 * k / M] is below [2^-25]. *)
Lemma mul_div_2p24 (mM mk : positive) (eM ek : Z) :
  2 ^ 52 <= Zpos mM < 2 ^ 53 -> 2 ^ 52 <= Zpos mk < 2 ^ 53 ->
  -52 <= eM <= 0 -> -52 <= ek <= 0 ->
  exists (mp : positive) (j : Z),
    mul (div (opp (of_int 16777216)) (S754_finite false mM eM)) (S754_finite false mk ek)
      = S754_finite true mp (-81 - eM + ek + j) /\
    52 <= j <= 56 /\ 2 ^ 52 <= Zpos mp < 2 ^ 53 /\
    2 ^ 105 * Zpos mk - 2 ^ 56 * Zpos mM < Zpos mp * 2 ^ j * Zpos mM
      < 2 ^ 105 * Zpos mk + 2 ^ 56 * Zpos mM.
Proof.
  intros BM Bk HeM Hek.
  destruct (div_2p24 mM eM BM ltac:(lia)) as (mq & kq & -> & Hkq & Hmq & HVq).
  destruct (mul_bracket true false mq mk (-81 - eM + kq) ek Hmq Bk ltac:(lia))
    as (mp & k' & -> & Hk' & Hmp & HVp).
  change (xorb true false) with true.
  exists mp, (kq + k').
  split; [f_equal; lia|]. split; [lia|]. split; [exact Hmp|].
  pose proof (Z.mul_div_le (2 ^ 105) (Zpos mM) ltac:(lia)) as Q1.
  pose proof (Z.mul_succ_div_gt (2 ^ 105) (Zpos mM) ltac:(lia)) as Q2.
  set (Q := 2 ^ 105 / Zpos mM) in *.
  rewrite Z.pow_add_r by lia.
  (* bounds on c * mq * mk, c = 2^kq *)
  assert (G1 : (Q - 1) * Zpos mk <= Zpos mq * 2 ^ kq * Zpos mk)
    by (apply Z.mul_le_mono_nonneg_r; lia).
  assert (G2 : Zpos mq * 2 ^ kq * Zpos mk <= (Q + 2) * Zpos mk)
    by (apply Z.mul_le_mono_nonneg_r; lia).
  (* bounds on mp * 2^k' * 2^kq *)
  assert (Hc : 1 <= 2 ^ kq <= 4).
  { assert (Ekq : kq = 0 \/ kq = 1 \/ kq = 2) by lia.
    destruct Ekq as [-> |[-> | ->]]; simpl; lia. }
  assert (G3 : (Zpos mq * Zpos mk - 2 ^ 53) * 2 ^ kq <= Zpos mp * 2 ^ k' * 2 ^ kq)
    by (apply Z.mul_le_mono_nonneg_r; lia).
  assert (G4 : Zpos mp * 2 ^ k' * 2 ^ kq <= (Zpos mq * Zpos mk + 2 ^ 53) * 2 ^ kq)
    by (apply Z.mul_le_mono_nonneg_r; lia).
  set (W := Zpos mp * 2 ^ k' * 2 ^ kq) in *.
  assert (HW : (Q - 1) * Zpos mk - 2 ^ 55 <= W <= (Q + 2) * Zpos mk + 2 ^ 55) by nia.
  replace (Zpos mp * (2 ^ kq * 2 ^ k')) with W by (unfold W; ring).
  assert (G5 : ((Q - 1) * Zpos mk - 2 ^ 55) * Zpos mM <= W * Zpos mM)
    by (apply Z.mul_le_mono_nonneg_r; lia).
  assert (G6 : W * Zpos mM <= ((Q + 2) * Zpos mk + 2 ^ 55) * Zpos mM)
    by (apply Z.mul_le_mono_nonneg_r; lia).
  assert (G7 : Zpos mM * Q * Zpos mk <= 2 ^ 105 * Zpos mk)
    by (apply Z.mul_le_mono_nonneg_r; lia).
  assert (G8 : 2 ^ 105 * Zpos mk <= Zpos mM * (Q + 1) * Zpos mk)
    by (apply Z.mul_le_mono_nonneg_r; lia).
  assert (G9 : Zpos mk * Zpos mM < 2 ^ 53 * Zpos mM)
    by (apply Z.mul_lt_mono_pos_r; lia).
  lia.
Qed.

(** Adding 16777216.0 to a negative number of magnitude below 2^25: the
    mantissas are aligned at the exponent of the negative number. *)
Lemma add_2p24 (mp : positive) (ep : Z) :
  -70 <= ep <= -28 ->
  add (S754_finite true mp ep) (of_int 16777216)
  = binary_normalize prec emax (2 ^ (24 - ep) - Zpos mp) ep false.
Proof.
  intros Hep.
  change (of_int 16777216) with (S754_finite false 4503599627370496 (-28)).
  unfold add, SFadd. rewrite Z.min_l by lia.
  unfold shl_align. rewrite Z.sub_diag.
  assert (Ea : Zpos (fst (match ep - -28 with
                          | Z.neg d => (Pos.iter xO 4503599627370496%positive d, ep)
                          | _ => (4503599627370496%positive, -28)
                          end)) = 2 ^ (24 - ep)).
  { destruct (ep - -28) as [|d|d] eqn:Ed; try lia.
    - assert (ep = -28) by lia. subst ep. reflexivity.
    - cbn [fst]. rewrite iter_xO.
      change (Zpos 4503599627370496) with (2 ^ 52).
      rewrite <- Z.pow_add_r by lia. f_equal. lia. }
  cbn [fst cond_Zopp]. cbn [fst cond_Zopp] in Ea. rewrite Ea. f_equal. lia.
Qed.

(** Truncating a normalised integer multiple of [2^e]. *)
Lemma trunc_binary_normalize (S e n : Z) :
  n = Z.max 0 (Zdigits2 S - 53) ->
  -1000 <= e <= 0 -> Zdigits2 S <= 900 ->
  exists T : Z,
    trunc (binary_normalize prec emax S e false)
      = Some (Z.sgn S * (T / 2 ^ (- e))) /\
    Z.abs S - 2 ^ n <= T <= Z.abs S + 2 ^ n /\ 0 <= T.
Proof.
  intros Hn He HD. destruct S as [|m|m]; cbn [binary_normalize Z.sgn Z.abs].
  - exists 0. split; [reflexivity|].
    assert (0 < 2 ^ n) by (apply Z.pow_pos_nonneg; lia). lia.
  - destruct (trunc_binary_round false m e n Hn He HD) as (T & -> & HT & HT0).
    exists T. split; [|lia]. cbn [cond_Zopp]. f_equal; lia.
  - destruct (trunc_binary_round true m e n Hn He HD) as (T & -> & HT & HT0).
    exists T. split; [|lia]. cbn [cond_Zopp]. f_equal; lia.
Qed.

Lemma Zdigits2_le (S d : Z) : 0 <= d -> Z.abs S < 2 ^ d -> Zdigits2 S <= d.
Proof.
  intros Hd HS. destruct S as [|m|m]; simpl Zdigits2; [lia| |].
  - pose proof (digits2_pos_bounds m) as [Dlo _]. simpl in HS.
    assert (Zpos (digits2_pos m) - 1 < d); [|lia].
    apply (Z.pow_lt_mono_r_iff 2); lia.
  - pose proof (digits2_pos_bounds m) as [Dlo _]. simpl in HS.
    assert (Zpos (digits2_pos m) - 1 < d); [|lia].
    apply (Z.pow_lt_mono_r_iff 2); lia.
Qed.

(** The error of the computed product, in the units of the sum: with
    [U = 2^-ep] the integer [2^24 * k * U - mp * M] is below [U * M / 2^25]
    in magnitude. *)
Lemma product_error (M k : Z) (mM mk mp : positive) (eM ek j : Z) :
  1 <= k <= M ->
  -52 <= eM <= 0 -> -52 <= ek <= eM -> 52 <= j <= 56 ->
  Zpos mM = M * 2 ^ (- eM) -> Zpos mk = k * 2 ^ (- ek) ->
  2 ^ 105 * Zpos mk - 2 ^ 56 * Zpos mM < Zpos mp * 2 ^ j * Zpos mM
    < 2 ^ 105 * Zpos mk + 2 ^ 56 * Zpos mM ->
  let U := 2 ^ (81 + eM - ek - j) in
  - (U * M) < (2 ^ 24 * k * U - Zpos mp * M) * 2 ^ 25 < U * M.
Proof.
  intros Hk HeM Hek Hj EM Ek HB U.
  set (A := 2 ^ (- eM)) in *. set (B := 2 ^ (- ek)) in *.
  assert (HA : 0 < A) by (apply Z.pow_pos_nonneg; lia).
  assert (HBp : 0 < B) by (apply Z.pow_pos_nonneg; lia).
  assert (HU : 0 < U) by (apply Z.pow_pos_nonneg; lia).
  assert (HJ : 0 < 2 ^ j) by (apply Z.pow_pos_nonneg; lia).
  assert (HAB : A <= B) by (apply Z.pow_le_mono_r; lia).
  assert (EU : U * 2 ^ j * A = 2 ^ 81 * B).
  { unfold U, A, B. rewrite <- !Z.pow_add_r by lia. f_equal. lia. }
  set (Bt := 2 ^ 24 * k * U - Zpos mp * M).
  assert (E1 : Bt * 2 ^ j * A = 2 ^ 105 * Zpos mk - Zpos mp * 2 ^ j * Zpos mM).
  { unfold Bt. rewrite EM, Ek. fold A B.
    replace ((2 ^ 24 * k * U - Zpos mp * M) * 2 ^ j * A)
      with (2 ^ 24 * k * (U * 2 ^ j * A) - Zpos mp * 2 ^ j * (M * A)) by ring.
    rewrite EU. change (2 ^ 105) with (2 ^ 24 * 2 ^ 81). ring. }
  rewrite EM in HB. fold A in HB.
  (* cancel A *)
  assert (H1 : Bt * 2 ^ j * A < 2 ^ 56 * M * A) by lia.
  assert (H2 : - (2 ^ 56 * M) * A < Bt * 2 ^ j * A) by lia.
  apply Z.mul_lt_mono_pos_r in H1; [|exact HA].
  apply Z.mul_lt_mono_pos_r in H2; [|exact HA].
  assert (H3 : 2 ^ 81 * A <= U * 2 ^ j * A) by (rewrite EU; nia).
  apply Z.mul_le_mono_pos_r in H3; [|exact HA].
  assert (H4 : 2 ^ 81 * M <= U * 2 ^ j * M) by (apply Z.mul_le_mono_nonneg_r; lia).
  (* cancel 2^j *)
  assert (H5 : Bt * 2 ^ 25 * 2 ^ j < U * M * 2 ^ j)
    by (change (2 ^ 81) with (2 ^ 56 * 2 ^ 25) in H4; lia).
  assert (H6 : - (U * M) * 2 ^ j < Bt * 2 ^ 25 * 2 ^ j)
    by (change (2 ^ 81) with (2 ^ 56 * 2 ^ 25) in H4; lia).
  apply Z.mul_lt_mono_pos_r in H5; [|exact HJ].
  apply Z.mul_lt_mono_pos_r in H6; [|exact HJ].
  lia.
Qed.

(** The colour index of the old RGB system for a count [1 <= k <= M]: the
    conversion is defined, the result fits in 24 bits, and it is within 1 of
    the exact [floor(16777216 * (M - k) / M)]. *)
Lemma rgb_index_trunc (M k : Z) :
  1 <= k <= M -> M < 2 ^ 31 ->
  exists c, trunc (Worker.rgb_index k M) = Some c /\ 0 <= c < 2 ^ 24 /\
            16777216 * (M - k) / M - 1 <= c <= 16777216 * (M - k) / M + 1.
Proof.
  intros Hk HM. unfold Worker.rgb_index.
  destruct (of_int_pos M ltac:(lia)) as (mM & eM & -> & HeM & EM & BM).
  destruct (of_int_pos k ltac:(lia)) as (mk & ek & -> & Hek & Ek & Bk).
  assert (Hmono : ek <= eM)
    by (apply (of_int_exponent_mono k M mk mM ek eM); auto; lia).
  destruct (mul_div_2p24 mM mk eM ek BM Bk ltac:(lia) ltac:(lia))
    as (mp & j & -> & Hj & Hmp & HB).
  pose proof (product_error M k mM mk mp eM ek j Hk ltac:(lia) ltac:(lia) Hj EM Ek HB) as HE.
  cbv zeta in HE.
  set (ep := -81 - eM + ek + j) in *.
  replace (81 + eM - ek - j) with (- ep) in HE by (unfold ep; lia).
  assert (Hep : -70 <= ep <= -28).
  { split; [unfold ep; lia|].
    assert (G : 2 ^ 52 * Zpos mM <= Zpos mp * Zpos mM)
      by (apply Z.mul_le_mono_nonneg_r; lia).
    assert (Hmk : ek = eM -> Zpos mk <= Zpos mM).
    { intros ->. rewrite Ek, EM. apply Z.mul_le_mono_nonneg_r; [|lia].
      apply Z.pow_nonneg; lia. }
    assert (Ej : j = 52 \/ j = 53 \/ j = 54 \/ j = 55 \/ j = 56) by lia.
    clear HE.
    destruct (Z.eq_dec ek eM) as [E|N].
    - specialize (Hmk E).
      destruct Ej as [-> |[-> |[-> |[-> | ->]]]]; simpl (2 ^ _) in *; unfold ep; lia.
    - destruct Ej as [-> |[-> |[-> |[-> | ->]]]]; simpl (2 ^ _) in *; unfold ep; lia. }
  rewrite add_2p24 by lia.
  set (U := 2 ^ (- ep)) in *.
  assert (EU : 2 ^ (24 - ep) = 2 ^ 24 * U)
    by (unfold U; rewrite <- Z.pow_add_r by lia; f_equal; lia).
  assert (HU : 2 ^ 28 <= U <= 2 ^ 70)
    by (unfold U; split; apply Z.pow_le_mono_r; lia).
  set (S := 2 ^ (24 - ep) - Zpos mp).
  assert (HS : Z.abs S < 2 ^ (24 - ep)) by (unfold S; rewrite EU; simpl (2 ^ _) in *; lia).
  assert (HD : Zdigits2 S <= 24 - ep) by (apply Zdigits2_le; lia).
  set (n := Z.max 0 (Zdigits2 S - 53)).
  assert (Hn : 2 ^ n * 2 ^ 28 <= U).
  { unfold U. rewrite <- Z.pow_add_r by lia. apply Z.pow_le_mono_r; lia. }
  assert (Hn0 : 0 < 2 ^ n) by (apply Z.pow_pos_nonneg; lia).
  destruct (trunc_binary_normalize S ep n eq_refl ltac:(lia) ltac:(lia))
    as (T & -> & HT & HT0).
  exists (Z.sgn S * (T / U)). split; [reflexivity|].
  pose proof (Z.mul_div_le (16777216 * (M - k)) M ltac:(lia)) as F1.
  pose proof (Z.mul_succ_div_gt (16777216 * (M - k)) M ltac:(lia)) as F2.
  set (F := 16777216 * (M - k) / M) in *.
  assert (HF0 : 0 <= F) by (apply Z.div_pos; lia).
  set (Bt := 2 ^ 24 * k * U - Zpos mp * M) in *.
  assert (HnM : 2 ^ n * M * 2 ^ 28 <= U * M).
  { replace (2 ^ n * M * 2 ^ 28) with (2 ^ n * 2 ^ 28 * M) by ring.
    apply Z.mul_le_mono_nonneg_r; lia. }
  assert (HUpos : 0 < U) by lia.
  destruct (Z.lt_trichotomy S 0) as [Hneg|[Hzero|Hpos]].
  - (* the sum is slightly negative *)
    rewrite Z.sgn_neg by exact Hneg. rewrite Z.abs_neq in HT by lia.
    assert (K1 : (- S) * M * 2 ^ 25 < U * M).
    { unfold S. rewrite EU.
      replace (- (2 ^ 24 * U - Zpos mp) * M * 2 ^ 25)
        with (- Bt * 2 ^ 25 - 2 ^ 24 * U * (M - k) * 2 ^ 25) by (unfold Bt; ring).
      assert (0 <= 2 ^ 24 * U * (M - k) * 2 ^ 25)
        by (repeat apply Z.mul_nonneg_nonneg; lia).
      lia. }
    assert (K2 : (- S) * 2 ^ 25 < U).
    { apply (Z.mul_lt_mono_pos_r M); [lia|]. lia. }
    assert (K3 : T < U) by (simpl (2 ^ _) in *; lia).
    rewrite Z.div_small by lia.
    assert (K4 : 2 ^ 24 * (M - k) * U < U * M).
    { unfold S in Hneg. rewrite EU in Hneg. unfold Bt in HE.
      assert (0 <= (Zpos mp - 2 ^ 24 * U) * M) by (apply Z.mul_nonneg_nonneg; lia).
      lia. }
    assert (K5 : 2 ^ 24 * (M - k) < M).
    { apply (Z.mul_lt_mono_pos_r U); [lia|]. lia. }
    change (2 ^ 24) with 16777216 in K5.
    assert (K6 : F < 1) by (apply (Z.mul_lt_mono_pos_r M); lia).
    simpl (2 ^ _). lia.
  - (* the sum is exactly zero *)
    rewrite Hzero. simpl Z.sgn. rewrite Z.mul_0_l.
    assert (K4 : 2 ^ 24 * (M - k) * U < U * M).
    { unfold S in Hzero. rewrite EU in Hzero. unfold Bt in HE.
      assert (E : Zpos mp = 2 ^ 24 * U) by lia. rewrite E in HE. lia. }
    assert (K5 : 2 ^ 24 * (M - k) < M).
    { apply (Z.mul_lt_mono_pos_r U); [lia|]. lia. }
    change (2 ^ 24) with 16777216 in K5.
    assert (K6 : F < 1) by (apply (Z.mul_lt_mono_pos_r M); lia).
    simpl (2 ^ _). lia.
  - (* the usual case *)
    rewrite Z.sgn_pos by exact Hpos. rewrite Z.mul_1_l.
    rewrite Z.abs_eq in HT by lia.
    assert (Ha1 : (T - S) * M <= 2 ^ n * M) by (apply Z.mul_le_mono_nonneg_r; lia).
    assert (Ha2 : - (2 ^ n * M) <= (T - S) * M).
    { replace (- (2 ^ n * M)) with ((- 2 ^ n) * M) by ring.
      apply Z.mul_le_mono_nonneg_r; lia. }
    assert (EX : T * M - 2 ^ 24 * (M - k) * U = (T - S) * M + Bt)
      by (unfold S, Bt; rewrite EU; ring).
    assert (KX : - (U * M) < T * M - 2 ^ 24 * (M - k) * U < U * M) by lia.
    assert (FU1 : F * M * U <= 2 ^ 24 * (M - k) * U).
    { apply Z.mul_le_mono_nonneg_r; [lia|]. change (2 ^ 24) with 16777216. lia. }
    assert (FU2 : 2 ^ 24 * (M - k) * U < (F + 1) * M * U).
    { apply Z.mul_lt_mono_pos_r; [lia|]. change (2 ^ 24) with 16777216. lia. }
    assert (L1 : (F - 1) * U * M < T * M) by lia.
    assert (L2 : T * M < (F + 2) * U * M) by lia.
    apply Z.mul_lt_mono_pos_r in L1; [|lia].
    apply Z.mul_lt_mono_pos_r in L2; [|lia].
    assert (L3 : T < 2 ^ 24 * U).
    { unfold S in HT. rewrite EU in HT. simpl (2 ^ 52) in *. simpl (2 ^ 28) in *. lia. }
    split; [split|split].
    + apply Z.div_pos; lia.
    + apply Z.div_lt_upper_bound; lia.
    + apply Z.div_le_lower_bound; lia.
    + assert (T / U < F + 2); [|lia]. apply Z.div_lt_upper_bound; lia.
Qed.
End DoubleFacts.

(** ** The escape-time loop *)

Module KernelFacts.
Import Worker.

Section Loop.
Variable B : Backend.
Variables x0 y0 : num B.
Variable Iterations : Z.
Hypothesis Iterations_is_int : Iterations <= Int32.max_signed.

(** With as many passes allowed as iterations remain, the loop leaves
    through its condition, and the count has only moved up to the
    budget. *)
Lemma escape_loop_bounds (fuel : nat) : forall (x y x2 y2 : num B) (iteration : Z),
  0 <= iteration ->
  Iterations - iteration <= Z.of_nat fuel ->
  exists k, escape_loop B fuel x0 y0 x y x2 y2 iteration Iterations = Some k /\
            iteration <= k /\ (k <= Iterations \/ k = iteration).
Proof.
  induction fuel as [|fuel IH]; intros x y x2 y2 iteration H0 Hfuel;
    cbn [escape_loop].
  - destruct (Z.ltb_spec iteration Iterations); [lia|].
    rewrite andb_false_r. exists iteration. split; [reflexivity|lia].
  - destruct (le B (plus B x2 y2) (of_double B (Double.of_int 4))); cbn [andb].
    2: { exists iteration. split; [reflexivity|lia]. }
    destruct (Z.ltb_spec iteration Iterations).
    2: { exists iteration. split; [reflexivity|lia]. }
    assert (Hadd : Int32.add iteration 1 = iteration + 1).
    { apply Int32Facts.wrap_id. unfold Int32.in_range, Int32.min_signed.
      unfold Int32.max_signed in *. lia. }
    rewrite Hadd.
    match goal with
    | |- context [escape_loop B fuel x0 y0 ?x' ?y' ?x2' ?y2' _ _] =>
        destruct (IH x' y' x2' y2' (iteration + 1)) as (k & -> & Hk1 & Hk2); [lia|lia|]
    end.
    exists k. split; [reflexivity|]. lia.
Qed.
End Loop.

(** C2: for every arithmetic backend, every point (x0, y0) and every
    iteration budget M with 0 <= M (M an [int]), the escape-time loop
    terminates and returns a count k with 0 <= k <= M; for M = 0 it returns
    0.  A negative count never occurs. *)
Theorem escape_time_in_budget (B : Backend) (x0 y0 : num B) (M : Z)
    (HM : 0 <= M <= Int32.max_signed) :
  exists k, escape_time B x0 y0 M = Some k /\ 0 <= k <= M /\ (M = 0 -> k = 0).
Proof.
  unfold escape_time, escape_time_fuel.
  set (z := of_double B Double.zero).
  destruct (escape_loop_bounds B x0 y0 M (proj2 HM) (Z.to_nat M) z z z z 0)
    as (k & Hk & Hlo & Hhi); [lia|lia|].
  exists k. split; [exact Hk|]. lia.
Qed.

Lemma escape_time_in_budget_witness :
  exists k, escape_time FPU (Double.of_int 3) Double.zero 50 = Some k /\
            0 <= k <= 50 /\ (50 = 0 -> k = 0).
Proof.
  apply (escape_time_in_budget FPU (Double.of_int 3) Double.zero 50).
  unfold Int32.max_signed. lia.
Defined.

(** The origin never escapes, and a point outside the disc of radius 2
    escapes on the first pass. *)
Example escape_time_origin :
  escape_time FPU Double.zero Double.zero 1000 = Some 1000.
Proof. vm_compute. reflexivity. Qed.

Example escape_time_outside :
  escape_time FPU (Double.of_int 3) Double.zero 1000 = Some 1.
Proof. vm_compute. reflexivity. Qed.

(** On the FPU path the body runs at least once for a budget of at least 1:
    the count handed to the colour stage is never 0. *)
Lemma escape_time_FPU_positive (x0 y0 : Double.t) (M k : Z) :
  1 <= M <= Int32.max_signed ->
  escape_time FPU x0 y0 M = Some k -> 1 <= k <= M.
Proof.
  intros HM. unfold escape_time, escape_time_fuel.
  destruct (Z.to_nat M) as [|fuel] eqn:Ef; [lia|].
  cbn [escape_loop].
  change (le FPU (plus FPU (of_double FPU Double.zero) (of_double FPU Double.zero))
            (of_double FPU (Double.of_int 4))) with true.
  replace (0 <? M) with true by (symmetry; apply Z.ltb_lt; lia).
  cbn [andb]. change (Int32.add 0 1) with 1.
  match goal with
  | |- escape_loop FPU fuel x0 y0 ?x ?y ?x2 ?y2 1 M = Some k -> _ =>
      destruct (escape_loop_bounds FPU x0 y0 M (proj2 HM) fuel x y x2 y2 1)
        as (k' & -> & Hlo & Hhi); [lia|lia|]
  end.
  intros E. injection E as <-. lia.
Qed.
End KernelFacts.

(** ** Replacing the plot parameters *)

Module AppFacts.
Import App AppSpec.

Lemma read_record_failed f : read_failed f -> read_record f = None.
Proof.
  unfold read_failed, read_record.
  destruct f as [[?|] [?|] [?|] [?|] [?|] [?|] [?|] [?|] [?|] [?|]]; simpl;
    intros H; try reflexivity;
    repeat (destruct H as [H|H]; [discriminate|]); discriminate.
Qed.

Lemma read_record_fields f p :
  read_record f = Some p ->
  rd_dxMin f = Some (dxMin p) /\ rd_dxMax f = Some (dxMax p) /\
  rd_dyMin f = Some (dyMin p) /\ rd_dyMax f = Some (dyMax p) /\
  rd_Iterations f = Some (Iterations p) /\ rd_Slices f = Some (Slices p) /\
  rd_Threads f = Some (Threads p).
Proof.
  unfold read_record.
  destruct f as [[?|] [?|] [?|] [?|] [?|] [?|] [?|] [?|] [?|] [?|]]; simpl;
    intros H; try discriminate.
  injection H as <-. simpl. repeat split.
Qed.

Lemma bound_violated_check f p :
  read_record f = Some p -> bound_violated f -> file_bounds_violated p = true.
Proof.
  intros Hr Hb. apply read_record_fields in Hr as (E1 & E2 & E3 & E4 & E5 & E6 & E7).
  unfold file_bounds_violated.
  destruct Hb as [(a & b & Ha & Hb & Hge)|[(a & b & Ha & Hb & Hge)|
                 [(n & Hn & Hlt)|[(n & Hn & Hlt)|(n & Hn & Hlt)]]]].
  - rewrite E1 in Ha. rewrite E2 in Hb. injection Ha as <-. injection Hb as <-.
    rewrite Hge. reflexivity.
  - rewrite E3 in Ha. rewrite E4 in Hb. injection Ha as <-. injection Hb as <-.
    rewrite Hge. now rewrite orb_true_r.
  - rewrite E5 in Hn. injection Hn as <-.
    apply Z.ltb_lt in Hlt. rewrite Hlt. now rewrite !orb_true_r.
  - rewrite E6 in Hn. injection Hn as <-.
    apply Z.ltb_lt in Hlt. rewrite Hlt. now rewrite !orb_true_r.
  - rewrite E7 in Hn. injection Hn as <-.
    destruct Hlt as [Hlt|Hlt].
    + apply Z.ltb_lt in Hlt. rewrite Hlt. now rewrite !orb_true_r.
    + apply Z.lt_gt, Z.gtb_gt in Hlt. rewrite Hlt. now rewrite !orb_true_r.
Qed.

(** When a [ReadFile] call returns [FALSE], or a value in a temporary
    violates a bound (min >= max on either axis, iterations, slices or
    threads below 1, threads above 64), [ID_FILE_OPEN] rejects the record
    and leaves the whole state as it was: the four viewport bounds,
    iterations, slices, threads and the three flags (and the recall
    stack). *)
Lemma ID_FILE_OPEN_rejects (f : FileReads) (st : State) :
  read_failed f \/ bound_violated f -> ID_FILE_OPEN f st = st.
Proof.
  intros Hbad.
  unfold ID_FILE_OPEN. destruct (read_record f) as [p|] eqn:Hr; [|reflexivity].
  destruct Hbad as [Hs|Hb].
  - rewrite (read_record_failed f Hs) in Hr. discriminate.
  - now rewrite (bound_violated_check f p Hr Hb).
Qed.

Example ID_FILE_OPEN_rejects_65_threads :
  ID_FILE_OPEN file_with_65_threads (mkState initial []) = mkState initial [].
Proof. reflexivity. Qed.

(** A record that passes is taken over as a whole, and the old viewport
    goes on the recall stack. *)
Lemma ID_FILE_OPEN_accepts f p st :
  read_record f = Some p -> file_bounds_violated p = false ->
  ID_FILE_OPEN f st = {| params := p; qds := push (params st) (qds st) |}.
Proof. intros Hr Hb. unfold ID_FILE_OPEN. now rewrite Hr, Hb. Qed.

(** A message box of the dialog means that nothing was replaced. *)
Lemma IDOK_message_keeps_state d st e :
  snd (IDOK d st) = Some e -> fst (IDOK d st) = st.
Proof. unfold IDOK. destruct (dialog_checks d); [reflexivity|discriminate]. Qed.

(** What the dialog does enforce on the values it accepts. *)
Lemma IDOK_accepted_values d st :
  snd (IDOK d st) = None ->
  let p := params (fst (IDOK d st)) in
  Double.ge (dxMin p) (dxMax p) = false /\
  Double.ge (dxMax p) (dyMax p) = false /\
  1 <= Iterations p /\ 1 <= Slices p /\ 1 <= Threads p <= 64.
Proof.
  unfold IDOK, dialog_checks.
  destruct d as [[x1|] [x2|] [y1|] [y2|] [it|] [sl|] [th|] ax hs tt]; simpl;
    try discriminate.
  destruct (Double.ge x1 x2) eqn:E1; simpl; [discriminate|].
  destruct (Double.ge x2 y2) eqn:E2; simpl; [discriminate|].
  destruct (Z.leb_spec it 0); simpl; [discriminate|].
  destruct (Z.leb_spec sl 0); simpl; [discriminate|].
  destruct (Z.leb_spec th 0); simpl; [discriminate|].
  destruct (Z.geb_spec th 65); simpl; [discriminate|].
  intros _. repeat split; try assumption; lia.
Qed.

(** Whether the dialog accepts does not depend on the number typed as
    Y Min: no check reads it. *)
Lemma IDOK_ignores_Y_Min d y y' st :
  snd (IDOK (with_YMIN y d) st) = snd (IDOK (with_YMIN y' d) st).
Proof.
  unfold IDOK, dialog_checks.
  destruct d as [[x1|] [x2|] y1 [y2|] [it|] [sl|] [th|] ax hs tt]; simpl;
    try reflexivity.
  destruct (Double.ge x1 x2); simpl; [reflexivity|].
  destruct (Double.ge x2 y2); simpl; [reflexivity|].
  destruct (it <=? 0); simpl; [reflexivity|].
  destruct (sl <=? 0); simpl; [reflexivity|].
  destruct ((th <=? 0) || (th >=? 65)); reflexivity.
Qed.

(** C6: the dialog compares X Max with Y Max where its message speaks of
    Y Min and Y Max.  A configuration with yMin >= yMax (here x in [-2, 0],
    yMin = 2, yMax = 1) passes all checks of the dialog and replaces the
    parameters in force, whatever they were; the parameter-file path rejects
    the same configuration. *)
Theorem IDOK_accepts_inverted_y (st : State) :
  invalid_ordering inverted_y = true /\
  IDOK inverted_y_dialog st =
    ({| params := inverted_y; qds := push (params st) (qds st) |}, None) /\
  ID_FILE_OPEN inverted_y_file st = st.
Proof. repeat split. Qed.

(** Both paths enforce the bounds on the counts. *)
Lemma counts_checked_on_both_paths d f p st :
  (snd (IDOK d st) = None ->
   invalid_counts (params (fst (IDOK d st))) = false) /\
  (read_record f = Some p -> file_bounds_violated p = false ->
   invalid_counts (params (ID_FILE_OPEN f st)) = false).
Proof.
  split.
  - intros H. pose proof (IDOK_accepted_values d st H) as (_ & _ & H1 & H2 & H3).
    cbv zeta in *. unfold invalid_counts.
    repeat match goal with
           | |- context [?a <=? ?b] => destruct (Z.leb_spec a b); try lia
           | |- context [?a <? ?b] => destruct (Z.ltb_spec a b); try lia
           end;
    try reflexivity.
  - intros Hr Hb. rewrite (ID_FILE_OPEN_accepts f p st Hr Hb). simpl.
    unfold file_bounds_violated in Hb. unfold invalid_counts.
    repeat match goal with
           | H : _ || _ = false |- _ => apply orb_false_elim in H as [H ?]
           end.
    repeat match goal with
           | H : (_ <? _) = false |- _ => apply Z.ltb_ge in H
           | H : (_ >? _) = false |- _ => rewrite Z.gtb_ltb in H; apply Z.ltb_ge in H
           end.
    repeat match goal with
           | |- context [?a <=? ?b] => destruct (Z.leb_spec a b); try lia
           | |- context [?a <? ?b] => destruct (Z.ltb_spec a b); try lia
           end;
    try reflexivity.
Qed.
End AppFacts.

(** ** Colours *)

Module ColourFacts.
Import HSVtoRGB Worker ColourSpec.

(** *** [ReverseRGBBytes] *)

Lemma testbit_ones8 i : 0 <= i -> Z.testbit (Z.ones 8) i = (i <? 8).
Proof. intros. apply Z.testbit_ones_nonneg; lia. Qed.

Ltac bits :=
  repeat first
    [ rewrite Z.lor_spec | rewrite Z.land_spec
    | rewrite Z.shiftl_spec by lia | rewrite Z.shiftr_spec by lia
    | match goal with
      | |- context [Z.testbit (Z.ones 8) ?j] =>
          first [ rewrite (testbit_ones8 j) by lia
                | rewrite (Z.testbit_neg_r (Z.ones 8) j) by lia ]
      end ].

Ltac split_ltb :=
  repeat match goal with
         | |- context [?a <? ?b] => destruct (Z.ltb_spec a b); try lia
         end;
  rewrite ?andb_false_r, ?andb_true_r, ?orb_false_r, ?orb_false_l;
  try reflexivity.

Lemma parts_bit w i : 0 <= i -> Z.testbit (parts w) i = swapped_bit w i.
Proof.
  intros Hi. unfold parts, swapped_bit.
  destruct (Z.ltb_spec i 8); [| destruct (Z.ltb_spec i 16); [| destruct (Z.ltb_spec i 24)]];
    bits; split_ltb; try (f_equal; lia).
Qed.

Lemma parts_nonneg w : 0 <= w -> 0 <= parts w.
Proof.
  intros. unfold parts.
  rewrite !Z.lor_nonneg, Z.shiftl_nonneg, Z.shiftr_nonneg, !Z.land_nonneg. lia.
Qed.

Lemma small_of_bits x n :
  0 <= n -> 0 <= x -> (forall i, n <= i -> Z.testbit x i = false) -> x < 2 ^ n.
Proof.
  intros Hn Hx Hb.
  assert (x mod 2 ^ n = x) as <-.
  { apply Z.bits_inj'. intros i Hi.
    destruct (Z.lt_ge_cases i n).
    - now rewrite Z.mod_pow2_bits_low.
    - rewrite Z.mod_pow2_bits_high by lia. symmetry. now apply Hb. }
  apply Z.mod_pos_bound. lia.
Qed.

Lemma add_disjoint a b : Z.land a b = 0 -> a + b = Z.lor a b.
Proof. intros H. rewrite Z.add_nocarry_lxor by exact H. now apply Z.lxor_lor. Qed.

(** The additions of [ReverseRGBBytes] never carry and never wrap. *)
Lemma ReverseRGBBytes_parts w : 0 <= w -> ReverseRGBBytes w = parts w.
Proof.
  intros Hw. unfold ReverseRGBBytes, UInt32.add, UInt32.shl, UInt32.shr, UInt32.wrap.
  change 0x000000ff with (Z.ones 8).
  change 0x0000ff00 with (Z.shiftl (Z.ones 8) 8).
  change 0x00ff0000 with (Z.shiftl (Z.ones 8) 16).
  set (A := Z.shiftl (Z.land w (Z.ones 8)) 16).
  set (B := Z.land w (Z.shiftl (Z.ones 8) 8)).
  set (C := Z.shiftr (Z.land w (Z.shiftl (Z.ones 8) 16)) 16).
  assert (HA0 : 0 <= A) by (unfold A; rewrite Z.shiftl_nonneg, Z.land_nonneg; lia).
  assert (HB0 : 0 <= B) by (unfold B; rewrite Z.land_nonneg; lia).
  assert (HA : A < 2 ^ 24).
  { apply small_of_bits; [lia | exact HA0 |].
    intros i Hi. unfold A. bits. split_ltb. }
  assert (HAB : A + B = Z.lor A B).
  { apply add_disjoint, Z.bits_inj'. intros i Hi. rewrite Z.bits_0. unfold A, B. bits.
    destruct (Z.lt_ge_cases i 16).
    - rewrite (Z.testbit_neg_r _ (i - 16)) by lia. reflexivity.
    - bits. split_ltb. }
  assert (HAB' : Z.lor A B < 2 ^ 24).
  { apply small_of_bits; [lia | rewrite Z.lor_nonneg; lia |].
    intros i Hi. unfold A, B. bits. split_ltb. }
  assert (HABC : Z.lor A B + C = parts w).
  { apply add_disjoint, Z.bits_inj'. intros i Hi. rewrite Z.bits_0. unfold A, B, C. bits.
    destruct (Z.lt_ge_cases i 8).
    - rewrite (Z.testbit_neg_r _ (i - 16)) by lia.
      rewrite (Z.testbit_neg_r _ (i - 8)) by lia. now rewrite !andb_false_r.
    - bits. split_ltb. }
  assert (HP : 0 <= parts w < 2 ^ 24).
  { split; [now apply parts_nonneg|].
    apply small_of_bits; [lia | now apply parts_nonneg |].
    intros i Hi. rewrite parts_bit by lia. unfold swapped_bit. split_ltb. }
  change (0 + A mod 2 ^ 32) with (A mod 2 ^ 32).
  rewrite !(Z.mod_small A) by lia.
  rewrite HAB, (Z.mod_small (Z.lor A B)) by (rewrite <- HAB; lia).
  rewrite HABC. apply Z.mod_small. lia.
Qed.

Lemma ReverseRGBBytes_bit w i :
  0 <= w -> 0 <= i -> Z.testbit (ReverseRGBBytes w) i = swapped_bit w i.
Proof. intros Hw Hi. rewrite ReverseRGBBytes_parts by lia. now apply parts_bit. Qed.

Lemma ReverseRGBBytes_range w : 0 <= w -> 0 <= ReverseRGBBytes w < 2 ^ 24.
Proof.
  intros Hw. assert (H0 : 0 <= ReverseRGBBytes w)
    by (rewrite ReverseRGBBytes_parts by lia; apply parts_nonneg; lia).
  split; [exact H0|].
  apply small_of_bits; [lia | exact H0 |]. intros i Hi.
  rewrite ReverseRGBBytes_bit by lia. unfold swapped_bit. split_ltb.
Qed.

(** C10: for every 32-bit word [w], [ReverseRGBBytes w] has bits 0-7 of [w]
    at bits 16-23 and bits 16-23 of [w] at bits 0-7, keeps bits 8-15, and
    has no bit set from bit 24 up; so it is below 2^24, and applying the
    function twice gives [w] with its top byte cleared. *)
Theorem ReverseRGBBytes_swaps_bytes (w : Z) (Hw : 0 <= w < 2 ^ 32) :
  let r := ReverseRGBBytes w in
  (forall i, 0 <= i < 8 ->
     Z.testbit r i = Z.testbit w (i + 16) /\
     Z.testbit r (i + 16) = Z.testbit w i /\
     Z.testbit r (i + 8) = Z.testbit w (i + 8)) /\
  (forall i, 24 <= i -> Z.testbit r i = false) /\
  0 <= r < 2 ^ 24 /\
  ReverseRGBBytes r = Z.land w 0xffffff.
Proof.
  cbv zeta. pose proof (ReverseRGBBytes_range w ltac:(lia)) as Hr.
  split; [|split; [|split]].
  - intros i Hi. rewrite !ReverseRGBBytes_bit by lia. unfold swapped_bit.
    repeat split; split_ltb. f_equal; lia.
  - intros i Hi. rewrite ReverseRGBBytes_bit by lia. unfold swapped_bit. split_ltb.
  - exact Hr.
  - apply Z.bits_inj'. intros i Hi. rewrite ReverseRGBBytes_bit by lia.
    unfold swapped_bit.
    change 0xffffff with (Z.ones 24). rewrite Z.land_spec, Z.testbit_ones_nonneg by lia.
    split_ltb; rewrite ReverseRGBBytes_bit by lia; unfold swapped_bit; split_ltb;
      f_equal; lia.
Qed.

Lemma ReverseRGBBytes_swaps_bytes_witness :
  let r := ReverseRGBBytes 0x12345678 in
  (forall i, 0 <= i < 8 ->
     Z.testbit r i = Z.testbit 0x12345678 (i + 16) /\
     Z.testbit r (i + 16) = Z.testbit 0x12345678 i /\
     Z.testbit r (i + 8) = Z.testbit 0x12345678 (i + 8)) /\
  (forall i, 24 <= i -> Z.testbit r i = false) /\
  0 <= r < 2 ^ 24 /\
  ReverseRGBBytes r = Z.land 0x12345678 0xffffff.
Proof. apply (ReverseRGBBytes_swaps_bytes 0x12345678). lia. Defined.

Example ReverseRGBBytes_example : ReverseRGBBytes 0x12345678 = 0x785634.
Proof. reflexivity. Qed.

(** *** The triple-log HSV scheme *)

Section Log.
Variable log : Double.t -> Double.t.

(** The first call initialises the static from its own budget. *)
Lemma mandelbrotHSV_first_call k M :
  snd (mandelbrotHSV log None k M) = Some (log3 log (Double.of_int M)).
Proof. reflexivity. Qed.

(** Later calls keep the static. *)
Lemma mandelbrotHSV_later_call c k M :
  snd (mandelbrotHSV log (Some c) k M) = Some c.
Proof. reflexivity. Qed.

(** C8: the denominator [log(log(log(max_iterations)))] is a function
    static: it is computed by the first call of the program and kept for
    all later calls.  After a first render with budget [M1], a call for a
    pixel of a render with budget [M2] divides by the value for [M1]: the
    hue of an escaped pixel is [360 * log3 k / log3 M1], whatever [M2]
    is. *)
Theorem mandelbrotHSV_keeps_first_budget (k1 M1 k M2 : Z) :
  let cache := snd (mandelbrotHSV log None k1 M1) in
  mandelbrotHSV log cache k M2 =
    (if k =? M2 then black_hsv
     else mkHSV (specified_hue log k M1) (Double.of_int 1) (Double.of_int 1),
     cache).
Proof. reflexivity. Qed.

(** In a first render the hue is the specified one. *)
Lemma mandelbrotHSV_first_render k M :
  k <> M ->
  fst (mandelbrotHSV log None k M) =
    mkHSV (specified_hue log k M) (Double.of_int 1) (Double.of_int 1).
Proof.
  intros H. unfold mandelbrotHSV. simpl fst.
  destruct (Z.eqb_spec k M); [contradiction|reflexivity].
Qed.

(** The hue of an escaped pixel does not depend on the budget of the
    render it belongs to, once the static is set. *)
Lemma mandelbrotHSV_ignores_budget c k M2 M2' :
  k <> M2 -> k <> M2' ->
  mandelbrotHSV log (Some c) k M2 = mandelbrotHSV log (Some c) k M2'.
Proof.
  intros H1 H2. unfold mandelbrotHSV.
  destruct (Z.eqb_spec k M2); [contradiction|].
  destruct (Z.eqb_spec k M2'); [contradiction|]. reflexivity.
Qed.

(** Budget 1000 first, then budget 2000: the pixel that escapes after
    1500 iterations gets the hue computed against 1000. *)
Example mandelbrotHSV_1000_then_2000 :
  h (fst (mandelbrotHSV log (snd (mandelbrotHSV log None 1 1000)) 1500 2000))
  = specified_hue log 1500 1000.
Proof. reflexivity. Qed.

(** *** Black for a point that never escapes *)

Lemma mandelbrotHSV_at_budget cache M :
  fst (mandelbrotHSV log cache M M) = black_hsv.
Proof. unfold mandelbrotHSV. simpl fst. now rewrite Z.eqb_refl. Qed.

Lemma hsv_pixel_at_budget cache M :
  fst (hsv_pixel log cache M M) = 0.
Proof.
  unfold hsv_pixel.
  pose proof (mandelbrotHSV_at_budget cache M) as H.
  destruct (mandelbrotHSV log cache M M) as [hsv c]. simpl in H. subst hsv.
  reflexivity.
Qed.
End Log.

Lemma rgb_pixel_at_budget (M : Z) :
  1 <= M <= Int32.max_signed -> rgb_pixel M M = Some 0.
Proof.
  intros HM. unfold rgb_pixel, Double.to_uint32.
  rewrite DoubleFacts.rgb_index_at_budget by (unfold Int32.max_signed in HM; lia).
  reflexivity.
Qed.

(** C7: for k = M, with any budget M >= 1 (an [int]), both colour schemes
    give exactly black.  The triple-log mapper returns hue 0, saturation 0,
    value 0; [hsv2rgb] turns that into (0, 0, 0), which packs to 0; and the
    indexed-RGB formula gives the packed value 0 as well.  Whatever the
    static of [mandelbrotHSV] holds, the stored pixel is 0. *)
Theorem black_at_budget (log : Double.t -> Double.t) (cache : option Double.t)
    (bUseHSV M : Z) (HM : 1 <= M <= Int32.max_signed) :
  fst (mandelbrotHSV log cache M M) = black_hsv /\
  hsv2rgb black_hsv = black_rgb /\
  pack black_rgb = 0 /\
  fst (hsv_pixel log cache M M) = 0 /\
  rgb_pixel M M = Some 0 /\
  fst (pixel_value log bUseHSV cache M M) = Some 0.
Proof.
  split; [apply mandelbrotHSV_at_budget|].
  split; [reflexivity|]. split; [reflexivity|].
  split; [apply hsv_pixel_at_budget|].
  split; [now apply rgb_pixel_at_budget|].
  unfold pixel_value. destruct (bUseHSV =? 0).
  - now apply rgb_pixel_at_budget.
  - pose proof (hsv_pixel_at_budget log cache M) as H.
    destruct (hsv_pixel log cache M M) as [value c]. simpl in H. now subst value.
Qed.

Lemma black_at_budget_witness :
  fst (mandelbrotHSV (fun x => x) None 1000 1000) = black_hsv /\
  hsv2rgb black_hsv = black_rgb /\
  pack black_rgb = 0 /\
  fst (hsv_pixel (fun x => x) None 1000 1000) = 0 /\
  rgb_pixel 1000 1000 = Some 0 /\
  fst (pixel_value (fun x => x) 0 None 1000 1000) = Some 0.
Proof.
  apply (black_at_budget (fun x => x) None 0 1000).
  unfold Int32.max_signed. lia.
Defined.

(** *** The old RGB system *)

(** For an iteration count of 0 the colour index is exactly 2^24. *)
Lemma rgb_index_at_zero (M : Z) :
  1 <= M <= Int32.max_signed -> rgb_index 0 M = Double.of_int 16777216.
Proof.
  intros HM. unfold rgb_index.
  destruct (DoubleFacts.of_int_pos M) as (mM & eM & -> & He & _ & Hb);
    [unfold Int32.max_signed in HM; lia|].
  destruct (DoubleFacts.div_2p24 mM eM Hb ltac:(lia)) as (mq & kq & -> & _).
  reflexivity.
Qed.

Lemma index_is_floor_1000 :
  forallb (index_is_floor 1000) (map Z.of_nat (seq 0 1001)) = true.
Proof. vm_compute. reflexivity. Qed.

Lemma not_white_1000 :
  forallb (not_white 1000) (map Z.of_nat (seq 1 1000)) = true.
Proof. vm_compute. reflexivity. Qed.

(** C3 (as amended): in the indexed-RGB scheme the value written for an
    iteration count k and a budget M (M >= 1 an [int], 1 <= k <= M) is
    [ReverseRGBBytes c] (red and blue bytes exchanged, alpha zero), where c
    is the double expression -16777216.0 / M * k + 16777216.0 converted by
    truncation, not by rounding.  The conversion is always defined, c is at
    least 0 and below 2^24, and c is within 1 of
    floor(16777216 * (M - k) / M); for the budget 1000 it is exactly that
    floor, and the value written is not white.  The counts are the ones
    that reach the colour stage: on the FPU path the kernel returns no
    count below 1 for such a budget. *)
Theorem rgb_pixel_truncates (M k : Z)
    (HM : 1 <= M <= Int32.max_signed) (Hk : 1 <= k <= M) :
  (exists c,
     Double.to_uint32 (rgb_index k M) = Some c /\
     rgb_pixel k M = Some (ReverseRGBBytes c) /\
     0 <= c < 2 ^ 24 /\
     floor_index k M - 1 <= c <= floor_index k M + 1 /\
     (M = 1000 -> c = floor_index k M /\ rgb_pixel k M <> Some white)) /\
  (forall (x0 y0 : Double.t) (k' : Z),
     escape_time FPU x0 y0 M = Some k' -> 1 <= k' <= M).
Proof.
  split; [|intros x0 y0 k'; now apply KernelFacts.escape_time_FPU_positive].
  assert (Hin : M = 1000 -> In k (map Z.of_nat (seq 1 1000))).
  { intros ->. apply in_map_iff. exists (Z.to_nat k). split; [lia|]. apply in_seq. lia. }
  destruct (DoubleFacts.rgb_index_trunc M k) as (c & Hc & Hr & Hf);
    [lia|unfold Int32.max_signed in HM; lia|].
  exists c.
  assert (Hu : Double.to_uint32 (rgb_index k M) = Some c).
  { unfold Double.to_uint32. rewrite Hc. simpl.
    destruct (Z.leb_spec 0 c); [|lia].
    destruct (Z.ltb_spec c (2 ^ 32)); [reflexivity|]. simpl in *. lia. }
  split; [exact Hu|]. split; [unfold rgb_pixel; now rewrite Hu|].
  split; [lia|]. split; [exact Hf|].
  intros E. specialize (Hin E). subst M. split.
  - pose proof index_is_floor_1000 as H.
    rewrite forallb_forall in H.
    assert (Hin0 : In k (map Z.of_nat (seq 0 1001))).
    { apply in_map_iff. exists (Z.to_nat k). split; [lia|]. apply in_seq. lia. }
    specialize (H k Hin0). unfold index_is_floor in H. rewrite Hu in H.
    now apply Z.eqb_eq in H.
  - pose proof not_white_1000 as H.
    rewrite forallb_forall in H. specialize (H k Hin).
    unfold not_white in H. destruct (rgb_pixel k 1000) as [w|]; [|discriminate].
    intros E. injection E as ->. now rewrite Z.eqb_refl in H.
Qed.

Lemma rgb_pixel_truncates_witness :
  (exists c,
     Double.to_uint32 (rgb_index 1 1000) = Some c /\
     rgb_pixel 1 1000 = Some (ReverseRGBBytes c) /\
     0 <= c < 2 ^ 24 /\
     floor_index 1 1000 - 1 <= c <= floor_index 1 1000 + 1 /\
     (1000 = 1000 -> c = floor_index 1 1000 /\ rgb_pixel 1 1000 <> Some white)) /\
  (forall (x0 y0 : Double.t) (k' : Z),
     escape_time FPU x0 y0 1000 = Some k' -> 1 <= k' <= 1000).
Proof.
  apply (rgb_pixel_truncates 1000 1); unfold Int32.max_signed; lia.
Defined.

(** C3 (as stated) fails: for k = 0 and M = 1000 the value written is 0,
    not white; and for k = 1 it is the byte-swapped 16760438, where rounding
    16760438.784 would give 16760439. *)
Lemma rgb_pixel_zero_is_not_white :
  rgb_pixel 0 1000 <> Some white /\
  rgb_pixel 1 1000 <> Some (ReverseRGBBytes (rounded_index 1 1000)).
Proof. split; vm_compute; discriminate. Qed.

(** The value at the first count of budget 1000. *)
Example rgb_pixel_1_1000 : rgb_pixel 1 1000 = Some 0x76beff.
Proof. vm_compute. reflexivity. Qed.
End ColourFacts.

(** ** The tiles of a render *)

Module PaintFacts.
Import Paint PaintSpec.

(** C1: the work items created for a render do not partition the pixel
    indices.  For a 3 x 3 image in 3 slices (9 pixels, evenly divisible) the
    tiles are [0,3), [3,6), [7,9): pixel 6 is in no tile.  For a 5 x 2 image
    in 3 slices (10 pixels, not divisible) they are [0,3), [3,6), [6,9),
    [8,10): pixel 8 is in two tiles. *)
Theorem tiles_gap_and_overlap :
  (tiles 9 3 3 3 = Some [(0, 3); (3, 6); (7, 9)] /\
   cover [(0, 3); (3, 6); (7, 9)] 6 = 0%nat /\
   ~ partitions [(0, 3); (3, 6); (7, 9)] 9) /\
  (tiles 10 5 2 3 = Some [(0, 3); (3, 6); (6, 9); (8, 10)] /\
   cover [(0, 3); (3, 6); (6, 9); (8, 10)] 8 = 2%nat /\
   ~ partitions [(0, 3); (3, 6); (6, 9); (8, 10)] 10).
Proof.
  split; (split; [vm_compute; reflexivity|]); (split; [vm_compute; reflexivity|]).
  - intros H. specialize (H 6). vm_compute in H. discriminate.
  - intros H. specialize (H 8). vm_compute in H. discriminate.
Qed.

(** A single slice loses pixel 0. *)
Example tiles_single_slice : tiles 10 5 2 1 = Some [(1, 10)].
Proof. vm_compute. reflexivity. Qed.

(** A split that happens to come out right: 5 pixels in 2 slices. *)
Example tiles_5_in_2 : tiles 5 5 1 2 = Some [(0, 2); (2, 4); (4, 5)].
Proof. vm_compute. reflexivity. Qed.

(** *** The tiles in general *)

(** The loop does to the queue what its list of calls says. *)
Lemma enqueue_loop_calls (P Max : Z) (fuel : nat) : forall S E wq cs,
  WorkQueueRep.repr wq cs ->
  match loop_calls fuel P Max S E with
  | Some (E', ts) =>
      exists wq' cs', enqueue_loop fuel P Max S E wq = Some (E', wq') /\
                      WorkQueueRep.repr wq' (cs' ++ cs) /\ cs'.*2 = rev ts
  | None => enqueue_loop fuel P Max S E wq = None
  end.
Proof.
  induction fuel as [|fuel IH]; intros S E wq cs Hr; simpl.
  - destruct (E <? Max); [reflexivity|].
    exists wq, []. auto.
  - destruct (E <? Max).
    2: { exists wq, []. auto. }
    destruct (WorkQueueFacts.Enqueue_repr wq cs S E Hr) as (wq1 & -> & Hr1 & _). simpl.
    specialize (IH (Int32.add S P) (Int32.min (Int32.add E P) Max) wq1 _ Hr1).
    destruct (loop_calls fuel P Max (Int32.add S P) (Int32.min (Int32.add E P) Max))
      as [[E' ts]|]; simpl.
    + destruct IH as (wq' & cs' & -> & Hr' & Hts).
      exists wq', (cs' ++ [(WorkQueue.alloc (WorkQueue.heap wq), (S, E))]).
      split; [reflexivity|]. rewrite <- app_assoc. split; [exact Hr'|].
      rewrite fmap_app, Hts. reflexivity.
    + exact IH.
Qed.

(** Draining a queue hands out its tiles, oldest first. *)
Lemma drain_repr (fuel : nat) : forall wq cs,
  WorkQueueRep.repr wq cs -> (length cs < fuel)%nat ->
  drain fuel wq = Some (rev cs.*2).
Proof.
  induction fuel as [|fuel IH]; intros wq cs Hr Hlen; [lia|]. simpl.
  destruct cs as [|[a t] cs _] using rev_ind.
  - now rewrite (WorkQueueFacts.Dequeue_repr_nil wq Hr).
  - destruct (WorkQueueFacts.Dequeue_repr_snoc wq cs a t Hr) as (wq' & -> & Hr' & _).
    simpl. rewrite length_app in Hlen. simpl in Hlen.
    rewrite (IH wq' cs Hr') by lia. simpl.
    rewrite fmap_app, rev_app_distr. reflexivity.
Qed.

Lemma loop_calls_length (P Max : Z) (fuel : nat) : forall S E E' ts,
  loop_calls fuel P Max S E = Some (E', ts) -> (length ts <= fuel)%nat.
Proof.
  induction fuel as [|fuel IH]; intros S E E' ts; simpl.
  - destruct (E <? Max); [discriminate|]. intros H. injection H as <- <-. simpl. lia.
  - destruct (E <? Max).
    2: { intros H. injection H as <- <-. simpl. lia. }
    destruct (loop_calls fuel P Max (Int32.add S P) (Int32.min (Int32.add E P) Max))
      as [[E1 ts1]|] eqn:El; simpl; [|discriminate].
    intros H. injection H as <- <-. simpl. apply IH in El. lia.
Qed.

(** The workers are handed exactly the tiles of the [Enqueue] calls, in the
    order of the calls. *)
Lemma tiles_calls (fuel : nat) (width height Slices : Z) (ts : list tile) :
  enqueue_calls fuel (MaxPixel width height) Slices = Some ts ->
  (length ts <= fuel)%nat ->
  tiles fuel width height Slices = Some ts.
Proof.
  unfold enqueue_calls, tiles, build_queue.
  remember (S fuel) as fuel' eqn:Ef.
  destruct (Slices =? 0); [discriminate|].
  set (Max := MaxPixel width height). set (P := Int32.div Max Slices).
  pose proof (enqueue_loop_calls P Max fuel 0 P (WorkQueue.new 0) []
                (WorkQueueFacts.repr_new 0)) as Hl.
  destruct (loop_calls fuel P Max 0 P) as [[E ts0]|]; simpl; [|discriminate].
  destruct Hl as (wq & cs & -> & Hr & Hcs). simpl. rewrite app_nil_r in Hr.
  assert (Hlen : length cs = length ts0).
  { rewrite <- (length_fmap snd cs), Hcs. apply length_rev. }
  destruct (Int32.sub E P <? Max).
  - intros H Hfuel. injection H as <-.
    rewrite length_app in Hfuel. simpl in Hfuel.
    destruct (WorkQueueFacts.Enqueue_repr wq cs (Int32.add (Int32.sub E P) 1) Max Hr)
      as (wq' & -> & Hr' & _). simpl.
    rewrite (drain_repr fuel' wq' _ Hr') by (simpl; rewrite Hlen; unfold tile in *; lia).
    rewrite fmap_cons. cbn [rev snd]. rewrite Hcs, rev_involutive. reflexivity.
  - intros H Hfuel. injection H as <-. simpl.
    rewrite (drain_repr fuel' wq cs Hr) by (rewrite Hlen; unfold tile in *; lia).
    rewrite Hcs, rev_involutive. reflexivity.
Qed.

Lemma Int32_min_spec a b : Int32.min a b = Z.min a b.
Proof. unfold Int32.min. destruct (Z.ltb_spec a b); lia. Qed.

Lemma cover_cons t ts p :
  cover (t :: ts) p = ((if in_tile p t then 1 else 0) + cover ts p)%nat.
Proof.
  unfold cover. rewrite filter_cons.
  destruct (in_tile p t); destruct (decide _); simpl; congruence.
Qed.

Lemma cover_app ts1 ts2 p : cover (ts1 ++ ts2) p = (cover ts1 p + cover ts2 p)%nat.
Proof. unfold cover. now rewrite filter_app, length_app. Qed.

Ltac cases :=
  repeat match goal with
         | |- context [?a <=? ?b] => destruct (Z.leb_spec a b)
         | |- context [?a <? ?b] => destruct (Z.ltb_spec a b)
         end.

Section Grid.
Variables P Max : Z.
Hypothesis P_pos : 1 <= P.
Hypothesis P_le : P <= Max.
Hypothesis Max_small : Max <= 2 ^ 30.

(** The number of passes of the loop. *)
Local Abbreviation J := ((Max - 1) / P).

Lemma J_bounds : 0 <= J /\ J * P <= Max - 1 < (J + 1) * P.
Proof.
  pose proof (Z.mul_div_le (Max - 1) P ltac:(lia)).
  pose proof (Z.mul_succ_div_gt (Max - 1) P ltac:(lia)).
  split; [apply Z.div_pos; lia|]. lia.
Qed.

(** From tile number [j] on, the loop enqueues the remaining full tiles of
    the grid and stops with [EndPixel = MaxPixel]. *)
Lemma loop_calls_grid (fuel : nat) : forall j : nat,
  Z.of_nat j <= J -> J - Z.of_nat j <= Z.of_nat fuel ->
  loop_calls fuel P Max (Z.of_nat j * P) (Z.min ((Z.of_nat j + 1) * P) Max)
  = Some (Max, grid P j (Z.to_nat J - j)).
Proof.
  pose proof J_bounds as (HJ0 & HJ1 & HJ2).
  induction fuel as [|fuel IH]; intros j Hj Hfuel.
  - assert (Ej : Z.of_nat j = J) by lia.
    replace (Z.to_nat J - j)%nat with 0%nat by lia.
    simpl. rewrite Ej, Z.min_r by lia. now rewrite Z.ltb_irrefl.
  - destruct (Z.eq_dec (Z.of_nat j) J) as [Ej|Nj].
    + replace (Z.to_nat J - j)%nat with 0%nat by lia.
      simpl. rewrite Ej, Z.min_r by lia. now rewrite Z.ltb_irrefl.
    + assert (Hlt : (Z.of_nat j + 1) * P <= J * P) by nia.
      cbn [loop_calls]. rewrite Z.min_l by lia.
      replace ((Z.of_nat j + 1) * P <? Max) with true by (symmetry; apply Z.ltb_lt; lia).
      assert (E1 : Int32.add (Z.of_nat j * P) P = Z.of_nat (S j) * P).
      { unfold Int32.add. rewrite Int32Facts.wrap_id; [lia|].
        unfold Int32.in_range, Int32.min_signed, Int32.max_signed. nia. }
      assert (E2 : Int32.min (Int32.add ((Z.of_nat j + 1) * P) P) Max
                   = Z.min ((Z.of_nat (S j) + 1) * P) Max).
      { rewrite Int32_min_spec. unfold Int32.add. rewrite Int32Facts.wrap_id.
        - f_equal. lia.
        - unfold Int32.in_range, Int32.min_signed, Int32.max_signed.
          change (2 ^ 31) with (2 ^ 30 + 2 ^ 30). nia. }
      rewrite E1, E2, IH by lia. simpl.
      replace (Z.to_nat J - j)%nat with (S (Z.to_nat J - S j)) by lia.
      reflexivity.
Qed.

End Grid.

(** A pixel index is in the grid of the first [n] tiles from [j] exactly
    when it lies between the start of tile [j] and the end of tile [j+n-1]. *)
Lemma cover_grid (P : Z) (n : nat) : 1 <= P -> forall (j : nat) (p : Z),
  cover (grid P j n) p =
  if (Z.of_nat j * P <=? p) && (p <? (Z.of_nat j + Z.of_nat n) * P) then 1%nat else 0%nat.
Proof.
  intros HP. induction n as [|n IH]; intros j p.
  - cbn [grid seq map cover filter length]. cases; simpl; try reflexivity; lia.
  - unfold grid. cbn [seq map]. fold (grid P (S j) n).
    rewrite cover_cons, IH. unfold in_tile. cbn [fst snd].
    cases; simpl; try reflexivity; nia.
Qed.

(** The work items of a render, in closed form: the full tiles of the grid
    that end before the last pixel, then the tile of "the last little bit". *)
Lemma tiles_closed_form (fuel : nat) (width height Slices : Z) :
  let Max := height * width in
  let P := Max / Slices in
  let J := (Max - 1) / P in
  1 <= Slices <= Max -> Max <= 2 ^ 30 -> J + 1 <= Z.of_nat fuel ->
  tiles fuel width height Slices
  = Some (grid P 0 (Z.to_nat J) ++ [(Max - P + 1, Max)]).
Proof.
  intros Max P J HS HM Hfuel.
  assert (HP : 1 <= P <= Max).
  { unfold P. split.
    - apply Z.div_le_lower_bound; lia.
    - apply Z.div_le_upper_bound; nia. }
  pose proof (J_bounds P Max ltac:(lia) ltac:(lia)) as (HJ0 & HJ1 & HJ2).
  fold J in HJ0, HJ1, HJ2.
  assert (EM : MaxPixel width height = Max).
  { unfold MaxPixel. apply Int32Facts.wrap_id.
    unfold Int32.in_range, Int32.min_signed, Int32.max_signed. fold Max. lia. }
  assert (EP : Int32.div Max Slices = P).
  { unfold Int32.div. rewrite Z.quot_div_nonneg by lia. apply Int32Facts.wrap_id.
    unfold Int32.in_range, Int32.min_signed, Int32.max_signed. fold P. lia. }
  apply tiles_calls.
  - rewrite EM. unfold enqueue_calls. rewrite EP.
    destruct (Z.eqb_spec Slices 0); [lia|].
    pose proof (loop_calls_grid P Max ltac:(lia) ltac:(lia) ltac:(lia) fuel 0%nat) as Hl.
    fold J in Hl. change (Z.of_nat 0) with 0 in Hl.
    rewrite Z.mul_0_l, Z.add_0_l, Z.mul_1_l, Z.min_l, Nat.sub_0_r in Hl by lia.
    rewrite Hl by lia. simpl.
    assert (E1 : Int32.sub Max P = Max - P).
    { apply Int32Facts.wrap_id.
      unfold Int32.in_range, Int32.min_signed, Int32.max_signed. lia. }
    assert (E2 : Int32.add (Max - P) 1 = Max - P + 1).
    { apply Int32Facts.wrap_id.
      unfold Int32.in_range, Int32.min_signed, Int32.max_signed. lia. }
    rewrite E1, E2.
    destruct (Z.ltb_spec (Max - P) Max); [reflexivity|lia].
  - rewrite length_app. unfold grid. rewrite length_map, length_seq. simpl. lia.
Qed.

(** X23: when do the work items partition the pixels?  With at least one
    slice and no more slices than pixels (at most 2^30 pixels), the render
    set-up ends, and its work items cover each pixel index exactly once
    exactly when [J * P = Max - P + 1] for the step [P = Max / Slices] and
    [J = (Max - 1) / P]: when the last full tile of the grid ends where the
    start that the last [Enqueue] computes begins. *)
Lemma tiles_partition_iff (fuel : nat) (width height Slices : Z) :
  let Max := height * width in
  let P := Max / Slices in
  let J := (Max - 1) / P in
  1 <= Slices <= Max -> Max <= 2 ^ 30 -> J + 1 <= Z.of_nat fuel ->
  exists ts, tiles fuel width height Slices = Some ts /\
             (partitions ts Max <-> J * P = Max - P + 1).
Proof.
  intros Max P J HS HM Hfuel.
  pose proof (tiles_closed_form fuel width height Slices HS HM Hfuel) as Ht.
  cbv zeta in Ht. fold Max P J in Ht.
  assert (HP : 1 <= P <= Max).
  { unfold P. split.
    - apply Z.div_le_lower_bound; lia.
    - apply Z.div_le_upper_bound; nia. }
  pose proof (J_bounds P Max ltac:(lia) ltac:(lia)) as (HJ0 & HJ1 & HJ2).
  fold J in HJ0, HJ1, HJ2.
  eexists. split; [exact Ht|].
  assert (Hc : forall p, cover (grid P 0 (Z.to_nat J) ++ [(Max - P + 1, Max)]) p
                = Nat.add (if (0 <=? p) && (p <? J * P) then 1%nat else 0%nat)
                          (if (Max - P + 1 <=? p) && (p <? Max) then 1%nat else 0%nat)).
  { intros p. rewrite cover_app, cover_grid by lia.
    change (Z.of_nat 0) with 0. rewrite Z.mul_0_l, Z.add_0_l, Z2Nat.id by lia.
    f_equal. rewrite cover_cons. unfold in_tile. cbn [fst snd].
    change (cover [] p) with 0%nat. apply Nat.add_0_r. }
  unfold partitions. split.
  - intros Hpart.
    pose proof (Hpart (J * P)) as H1. rewrite Hc in H1.
    pose proof (Hpart (Max - P + 1)) as H2. rewrite Hc in H2.
    revert H1 H2. cases; simpl; try discriminate; lia.
  - intros E p. rewrite Hc. cases; simpl; try reflexivity; lia.
Qed.

(** X24: whenever the number of slices divides the number of pixels (at
    least one slice, at most 2^30 pixels), the work items leave a pixel
    out: the pixel [Max - P], the first of the last [P] pixels, is in no
    work item, so no worker ever stores its colour. *)
Lemma tiles_gap_when_divisible (fuel : nat) (width height Slices : Z) :
  let Max := height * width in
  let P := Max / Slices in
  1 <= Slices <= Max -> Max <= 2 ^ 30 -> Max <= Z.of_nat fuel ->
  Max mod Slices = 0 ->
  exists ts, tiles fuel width height Slices = Some ts /\
             cover ts (Max - P) = 0%nat /\ ~ partitions ts Max.
Proof.
  intros Max P HS HM Hfuel Hdiv.
  assert (HP : 1 <= P <= Max).
  { unfold P. split.
    - apply Z.div_le_lower_bound; lia.
    - apply Z.div_le_upper_bound; nia. }
  assert (EMax : Max = Slices * P).
  { unfold P. pose proof (Z.div_mod Max Slices ltac:(lia)). lia. }
  assert (EJ : (Max - 1) / P = Slices - 1).
  { symmetry. apply Z.div_unique with (P - 1); lia. }
  assert (Hfuel' : (Max - 1) / P + 1 <= Z.of_nat fuel) by (rewrite EJ; nia).
  pose proof (tiles_closed_form fuel width height Slices HS HM Hfuel') as Ht.
  cbv zeta in Ht. fold Max P in Ht. rewrite EJ in Ht.
  assert (Hcov : cover (grid P 0 (Z.to_nat (Slices - 1)) ++ [(Max - P + 1, Max)])
                   (Max - P) = 0%nat).
  { rewrite cover_app, cover_grid by lia.
    change (Z.of_nat 0) with 0. rewrite Z.mul_0_l, Z.add_0_l, Z2Nat.id by lia.
    rewrite cover_cons. unfold in_tile. cbn [fst snd].
    change (cover [] (Max - P)) with 0%nat.
    cases; simpl; try reflexivity; nia. }
  eexists. split; [exact Ht|]. split; [exact Hcov|].
  intros Hpart. specialize (Hpart (Max - P)). rewrite Hcov in Hpart.
  revert Hpart. cases; simpl; try discriminate; lia.
Qed.

(** The initial parameters on an 800 x 600 client area: 480000 pixels in
    5000 slices of 96 leave pixel 479904 unassigned. *)
Lemma tiles_default_gap :
  exists ts, tiles (Z.to_nat 480000) 800 600 5000 = Some ts /\
             cover ts 479904 = 0%nat /\ ~ partitions ts 480000.
Proof.
  apply (tiles_gap_when_divisible (Z.to_nat 480000) 800 600 5000);
    try reflexivity; lia.
Defined.

Lemma tiles_partition_iff_witness :
  exists ts, tiles 3 5 1 2 = Some ts /\ (partitions ts 5 <-> 2 * 2 = 5 - 2 + 1).
Proof.
  apply (tiles_partition_iff 3 5 1 2); repeat split; vm_compute; discriminate.
Defined.

(** More slices than pixels: the step is 0 and the loop never ends. *)
Lemma enqueue_loop_zero_step (Max : Z) (fuel : nat) : forall wq,
  0 < Max -> enqueue_loop fuel 0 Max 0 0 wq = None.
Proof.
  intros wq HM. revert wq. induction fuel as [|fuel IH]; intros wq; simpl.
  - destruct (Z.ltb_spec 0 Max); [reflexivity|lia].
  - destruct (Z.ltb_spec 0 Max); [|lia].
    destruct (WorkQueue.Enqueue 0 0 wq) as [wq'|]; simpl; [|reflexivity].
    change (Int32.add 0 0) with 0.
    replace (Int32.min 0 Max) with 0 by (rewrite Int32_min_spec; lia).
    apply IH.
Qed.
End PaintFacts.

(** ** The work queue under arbitrary calls, and its destructor *)

Module WorkQueueLifetime.
Import WorkQueue WorkQueueRep QueueModel.

Lemma Enqueue_dom q q' s e :
  Enqueue s e q = Some q' ->
  dom (heap q') = {[alloc (heap q)]} ∪ dom (heap q).
Proof.
  unfold Enqueue. destruct (_head q) as [hd|].
  - destruct (heap q !! hd) as [hdItem|] eqn:E; simpl; [|discriminate].
    intros H. injection H as <-. simpl.
    rewrite !dom_insert_L.
    assert (Hin : hd ∈ dom (heap q)) by (apply elem_of_dom; eauto).
    rewrite (subseteq_union_1_L {[hd]} (dom (heap q))); [reflexivity|].
    now apply singleton_subseteq_l.
  - intros H. injection H as <-. simpl. now rewrite dom_insert_L.
Qed.

Lemma Dequeue_dom q q' t :
  Dequeue q = Some (Some t, q') ->
  exists tl, _tail q = Some tl /\ dom (heap q') = dom (heap q) ∖ {[tl]}.
Proof.
  unfold Dequeue. destruct (_tail q) as [tl|]; [|discriminate].
  destruct (heap q !! tl) as [tlItem|]; simpl; [|discriminate].
  destruct (decide (_head q = Some tl)).
  - intros H. injection H as _ <-. simpl. exists tl. split; [reflexivity|].
    now rewrite dom_delete_L.
  - destruct (_last tlItem) as [prev|]; simpl; [|discriminate].
    destruct (heap q !! prev) as [prevItem|] eqn:E; simpl; [|discriminate].
    intros H. injection H as _ <-. simpl. exists tl. split; [reflexivity|].
    rewrite dom_delete_L, dom_insert_L.
    assert (Hin : prev ∈ dom (heap q)) by (apply elem_of_dom; eauto).
    rewrite (subseteq_union_1_L {[prev]} (dom (heap q))); [reflexivity|].
    now apply singleton_subseteq_l.
Qed.

Lemma Enqueue_owns q cs s e :
  repr q cs -> owns q cs ->
  exists q', Enqueue s e q = Some q' /\
             repr q' ((alloc (heap q), (s, e)) :: cs) /\
             owns q' ((alloc (heap q), (s, e)) :: cs) /\
             _Slices q' = _Slices q.
Proof.
  intros Hr Ho. destruct (WorkQueueFacts.Enqueue_repr q cs s e Hr) as (q' & He & Hr' & Hs).
  exists q'. split; [exact He|]. split; [exact Hr'|]. split; [|exact Hs].
  unfold owns in *. rewrite (Enqueue_dom _ _ _ _ He), Ho. reflexivity.
Qed.

Lemma Dequeue_owns q cs a t :
  repr q (cs ++ [(a, t)]) -> owns q (cs ++ [(a, t)]) ->
  exists q', Dequeue q = Some (Some t, q') /\ repr q' cs /\ owns q' cs /\
             _Slices q' = _Slices q.
Proof.
  intros Hr Ho. destruct (WorkQueueFacts.Dequeue_repr_snoc q cs a t Hr) as (q' & Hd & Hr' & Hs).
  exists q'. split; [exact Hd|]. split; [exact Hr'|]. split; [|exact Hs].
  destruct (Dequeue_dom _ _ _ Hd) as (tl & Htl & Hdom).
  destruct Hr as (Hnd & _ & Htl' & _).
  rewrite fmap_app in Htl'. simpl in Htl'. rewrite last_snoc in Htl'.
  assert (tl = a) by congruence. subst tl.
  unfold owns in *. rewrite Hdom, Ho, fmap_app, list_to_set_app_L. simpl.
  rewrite fmap_app in Hnd. apply NoDup_app in Hnd as (_ & Hna & _).
  assert (Hnin : a ∉ cs.*1) by (intros Hin; apply (Hna a Hin); left).
  rewrite union_empty_r_L, difference_union_distr_l_L, difference_diag_L, union_empty_r_L.
  apply difference_disjoint_L, disjoint_singleton_r. now rewrite elem_of_list_to_set.
Qed.

(** Calls on a well-formed queue never fail as memory operations, return
    what the list model returns, and keep the queue well-formed. *)
Lemma calls_fifo (ops : list call) : forall q cs,
  repr q cs -> owns q cs ->
  exists q' cs',
    calls ops q = Some ((fifo ops (rev cs.*2)).1, q') /\
    repr q' cs' /\ owns q' cs' /\
    rev cs'.*2 = (fifo ops (rev cs.*2)).2 /\
    _Slices q' = _Slices q.
Proof.
  induction ops as [|[s e|] ops IH]; intros q cs Hr Ho.
  - exists q, cs. simpl. auto.
  - destruct (Enqueue_owns q cs s e Hr Ho) as (q1 & He & Hr1 & Ho1 & Hs1).
    destruct (IH q1 _ Hr1 Ho1) as (q' & cs' & Hc & Hr' & Ho' & Hw & Hs).
    exists q', cs'. cbn [calls fifo]. rewrite He. simpl.
    simpl in Hc, Hw. rewrite Hc, Hw.
    split; [reflexivity|]. split; [exact Hr'|]. split; [exact Ho'|].
    split; [reflexivity|congruence].
  - destruct cs as [|[a t] cs _] using rev_ind.
    + destruct (IH q [] Hr Ho) as (q' & cs' & Hc & Hr' & Ho' & Hw & Hs).
      exists q', cs'. cbn [calls fifo]. simpl in Hc, Hw |- *.
      rewrite (WorkQueueFacts.Dequeue_repr_nil q Hr). simpl. rewrite Hc. simpl.
      destruct (fifo ops []) as [rs w]. simpl in *. auto.
    + destruct (Dequeue_owns q cs a t Hr Ho) as (q1 & Hd & Hr1 & Ho1 & Hs1).
      destruct (IH q1 cs Hr1 Ho1) as (q' & cs' & Hc & Hr' & Ho' & Hw & Hs).
      exists q', cs'. cbn [calls fifo].
      rewrite fmap_app, rev_app_distr. simpl.
      rewrite Hd. simpl. rewrite Hc. simpl.
      destruct (fifo ops (rev cs.*2)) as [rs w]. simpl in *.
      split; [reflexivity|]. split; [exact Hr'|]. split; [exact Ho'|].
      split; [exact Hw|congruence].
Qed.

Lemma owns_new g : owns (new g) [].
Proof. unfold owns. simpl. apply dom_empty_L. Qed.

Lemma owns_size q cs : repr q cs -> owns q cs -> size (heap q) = length cs.
Proof.
  intros (Hnd & _) Ho. rewrite <- size_dom, Ho, size_list_to_set by exact Hnd.
  apply length_fmap.
Qed.

(** The destructor sets [_last] of the node it has moved [_head] to, also
    when there is none. *)
Lemma destructor_repr (cs : list (addr * tile)) : forall q fuel,
  repr q cs -> (length cs <= fuel)%nat ->
  destructor fuel q = match cs with [] => Ret q | _ :: _ => Fault end.
Proof.
  induction cs as [|[a t] cs IH]; intros q fuel (Hnd & Hhd & Htl & Hl) Hf.
  - simpl in Hhd. destruct fuel; simpl; now rewrite Hhd.
  - destruct fuel as [|fuel]; [simpl in Hf; lia|].
    simpl in Hhd. cbn [destructor]. rewrite Hhd.
    rewrite (Hl O a t eq_refl). cbn [_next].
    destruct cs as [|[b u] cs]; [reflexivity|].
    cbn [fmap list_fmap lookup list_lookup fst].
    simpl in Hnd. apply NoDup_cons in Hnd as [Ha Hnd].
    assert (Hab : a <> b) by (intros ->; apply Ha; left).
    rewrite lookup_delete_ne by exact Hab.
    rewrite (Hl 1%nat b u eq_refl).
    match goal with |- destructor fuel ?q1 = _ => set (q' := q1) end.
    assert (Hr' : repr q' ((b, u) :: cs)).
    { repeat split; simpl.
      - exact Hnd.
      - simpl in Htl. rewrite Htl. reflexivity.
      - intros [|i] c w H; simpl in H.
        + injection H as <- <-. rewrite lookup_insert_eq. reflexivity.
        + assert (Hin : c ∈ cs.*1).
          { apply list_elem_of_lookup. exists i. rewrite list_lookup_fmap, H. reflexivity. }
          apply NoDup_cons in Hnd as [Hb _].
          rewrite lookup_insert_ne by (intros E; apply Hb; rewrite E; exact Hin).
          rewrite lookup_delete_ne by (intros E; apply Ha; rewrite E; now right).
          exact (Hl (S (S i)) c w H). }
    rewrite (IH q' fuel Hr') by (simpl in *; lia).
    reflexivity.
Qed.

(** X1: under every sequence of [Enqueue] and [Dequeue] calls on a fresh
    queue, no call faults, the [Dequeue] calls return exactly what a
    first-in first-out list returns (the oldest waiting tile, or "no work"
    when none waits), and the free store holds exactly one node per waiting
    tile afterwards. *)
Theorem calls_refine_fifo (g : Z) (ops : list call) :
  exists q,
    calls ops (new g) = Some ((fifo ops []).1, q) /\
    size (heap q) = length (fifo ops []).2 /\
    (Dequeue q = Some (None, q) <-> (fifo ops []).2 = []).
Proof.
  destruct (calls_fifo ops (new g) [] (WorkQueueFacts.repr_new g) (owns_new g))
    as (q & cs & Hc & Hr & Ho & Hw & _).
  simpl in Hc, Hw. exists q. split; [exact Hc|]. split.
  - rewrite (owns_size q cs Hr Ho), <- Hw, length_rev. symmetry. apply length_fmap.
  - rewrite <- Hw. split.
    + intros Hd. destruct cs as [|[a t] cs _] using rev_ind; [reflexivity|].
      destruct (WorkQueueFacts.Dequeue_repr_snoc q cs a t Hr) as (q1 & Hd1 & _).
      rewrite Hd1 in Hd. discriminate.
    + intros E. assert (cs = []) as ->.
      { destruct cs as [|c cs]; [reflexivity|]. simpl in E.
        apply (f_equal (@length _)) in E. rewrite length_app in E. simpl in E. lia. }
      now apply WorkQueueFacts.Dequeue_repr_nil.
Qed.

(** X2: the destructor of the queue ends normally only on an empty queue.
    After any sequence of calls on a fresh queue that leaves a tile waiting
    (a render that was aborted), it writes [_last] through the null pointer
    it has just assigned to [_head]. *)
Theorem destructor_needs_empty_queue (g : Z) (ops : list call)
    (rs : list (option tile)) (q : t) (fuel : nat)
    (Hcalls : calls ops (new g) = Some (rs, q))
    (Hfuel : (length ops <= fuel)%nat) :
  destructor fuel q = if decide ((fifo ops []).2 = []) then Ret q else Fault.
Proof.
  destruct (calls_fifo ops (new g) [] (WorkQueueFacts.repr_new g) (owns_new g))
    as (q' & cs & Hc & Hr & Ho & Hw & _).
  simpl in Hc, Hw. rewrite Hc in Hcalls. injection Hcalls as _ <-.
  assert (Hlen : (length cs <= length ops)%nat).
  { assert (forall ops w, (length (fifo ops w).2 <= length w + length ops)%nat) as Hb.
    { clear. induction ops as [|[s e|] ops IH]; intros w; simpl.
      - lia.
      - specialize (IH (w ++ [(s, e)])). rewrite length_app in IH. simpl in IH. lia.
      - destruct w as [|t w].
        + specialize (IH []). destruct (fifo ops []); simpl in *. lia.
        + specialize (IH w). destruct (fifo ops w); simpl in *. lia. }
    specialize (Hb ops []). rewrite <- Hw, length_rev, length_fmap in Hb.
    simpl in Hb. exact Hb. }
  rewrite (destructor_repr cs q' fuel Hr) by lia.
  rewrite <- Hw. destruct cs as [|c cs]; simpl.
  - reflexivity.
  - destruct (decide _) as [E|]; [|reflexivity].
    apply (f_equal (@length _)) in E. rewrite length_app in E. simpl in E. lia.
Qed.

Lemma destructor_needs_empty_queue_witness :
  let ops := [CallEnqueue 0 3; CallDequeue; CallEnqueue 3 6] in
  exists rs q,
    calls ops (new 7) = Some (rs, q) /\ (length ops <= 3)%nat /\
    destructor 3 q = Fault.
Proof.
  intros ops. eexists _, _. split; [reflexivity|]. split; [simpl; lia|].
  exact (destructor_needs_empty_queue 7 ops _ _ 3 eq_refl ltac:(simpl; lia)).
Defined.
End WorkQueueLifetime.

(** ** The recall stack *)

Module QuadDoubleStackFacts.
Import QuadDoubleStack StackModel.

Lemma stack_alloc_fresh (h : gmap addr Node) : h !! alloc h = None.
Proof. apply not_elem_of_dom. unfold alloc. apply is_fresh. Qed.

(** [pop] undoes [push], down to the free store. *)
Lemma pop_push (q : App.quad) (st : t) : pop (push q st) = Some (Some q, st).
Proof.
  destruct q as [[[x1 x2] y1] y2]. destruct st as [h top].
  unfold pop, push. cbn [_top heap]. rewrite lookup_insert_eq. cbn.
  rewrite delete_insert_eq, delete_id by apply stack_alloc_fresh.
  reflexivity.
Qed.

Lemma calls_app (c1 c2 : list call) : forall st,
  calls (c1 ++ c2) st =
  '(r1, st1) ← calls c1 st; '(r2, st2) ← calls c2 st1; Some (r1 ++ r2, st2).
Proof.
  induction c1 as [|[q|] c1 IH]; intros st; cbn [calls app].
  - simpl. destruct (calls c2 st) as [[r2 st2]|]; reflexivity.
  - apply IH.
  - destruct (pop st) as [[r st']|]; simpl; [|reflexivity].
    rewrite IH. destruct (calls c1 st') as [[r1 st1]|]; simpl; [|reflexivity].
    destruct (calls c2 st1) as [[r2 st2]|]; reflexivity.
Qed.

Lemma stack_repr_new : repr new [].
Proof.
  split; [constructor|]. split; [reflexivity|]. split; [|apply dom_empty_L].
  intros i a q H. rewrite lookup_nil in H. discriminate.
Qed.

Lemma push_repr st ns q :
  repr st ns -> repr (push q st) ((alloc (heap st), q) :: ns).
Proof.
  intros (Hnd & Htop & Hl & Hdom).
  assert (Hfresh : alloc (heap st) ∉ ns.*1).
  { intros Hin. assert (Hd : alloc (heap st) ∈ dom (heap st))
      by (rewrite Hdom; now apply elem_of_list_to_set).
    apply elem_of_dom in Hd as [n Hn]. rewrite stack_alloc_fresh in Hn. discriminate. }
  destruct q as [[[x1 x2] y1] y2]. unfold push.
  split; [|split; [|split]]; cbn [_top heap fmap list_fmap fst head].
  - apply NoDup_cons. now split.
  - reflexivity.
  - intros [|i] a q H; simpl in H.
    + injection H as <- <-. rewrite lookup_insert_eq. cbn.
      rewrite Htop. now destruct ns.
    + assert (Hin : a ∈ ns.*1).
      { apply list_elem_of_lookup. exists i. rewrite list_lookup_fmap, H. reflexivity. }
      rewrite lookup_insert_ne by (intros E; apply Hfresh; now rewrite E).
      exact (Hl i a q H).
  - rewrite dom_insert_L, Hdom. reflexivity.
Qed.

Lemma pop_repr_nil st : repr st [] -> pop st = Some (None, st).
Proof. intros (_ & Htop & _). unfold pop. now rewrite Htop. Qed.

Lemma pop_repr_cons st a q ns :
  repr st ((a, q) :: ns) ->
  exists st', pop st = Some (Some q, st') /\ repr st' ns.
Proof.
  intros (Hnd & Htop & Hl & Hdom). cbn in Htop, Hnd, Hdom.
  apply NoDup_cons in Hnd as [Ha Hnd].
  unfold pop. rewrite Htop, (Hl O a q eq_refl). cbn.
  destruct q as [[[x1 x2] y1] y2]. cbn.
  eexists. split; [reflexivity|].
  split; [|split; [|split]]; cbn [_top heap].
  - exact Hnd.
  - destruct ns; reflexivity.
  - intros i b q H.
    assert (Hin : b ∈ ns.*1).
    { apply list_elem_of_lookup. exists i. rewrite list_lookup_fmap, H. reflexivity. }
    rewrite lookup_delete_ne by (intros E; apply Ha; now rewrite E).
    exact (Hl (S i) b q H).
  - rewrite dom_delete_L, Hdom.
    rewrite difference_union_distr_l_L, difference_diag_L, union_empty_l_L.
    apply difference_disjoint_L, disjoint_singleton_r. now rewrite elem_of_list_to_set.
Qed.

Lemma calls_lifo (ops : list call) : forall st ns,
  repr st ns ->
  exists st' ns',
    calls ops st = Some ((lifo ops ns.*2).1, st') /\
    repr st' ns' /\ ns'.*2 = (lifo ops ns.*2).2.
Proof.
  induction ops as [|[q|] ops IH]; intros st ns Hr.
  - exists st, ns. simpl. auto.
  - destruct (IH _ _ (push_repr st ns q Hr)) as (st' & ns' & Hc & Hr' & Hn).
    exists st', ns'. cbn [calls lifo]. cbn in Hc, Hn. rewrite Hc, Hn. auto.
  - destruct ns as [|[a q] ns].
    + destruct (IH st [] Hr) as (st' & ns' & Hc & Hr' & Hn).
      exists st', ns'. cbn [calls lifo]. cbn in Hc, Hn |- *.
      rewrite (pop_repr_nil st Hr). cbn. rewrite Hc. cbn.
      destruct (lifo ops []) as [rs es]. cbn in *. auto.
    + destruct (pop_repr_cons st a q ns Hr) as (st1 & Hp & Hr1).
      destruct (IH st1 ns Hr1) as (st' & ns' & Hc & Hr' & Hn).
      exists st', ns'. cbn [calls lifo]. cbn. rewrite Hp. cbn. rewrite Hc. cbn.
      destruct (lifo ops ns.*2) as [rs es]. cbn in *. auto.
Qed.

Lemma stack_destructor_repr (ns : list (addr * App.quad)) : forall st fuel,
  repr st ns -> (length ns <= fuel)%nat -> destructor fuel st = Ret new.
Proof.
  induction ns as [|[a q] ns IH]; intros st fuel Hr Hf.
  - destruct Hr as (_ & Htop & _ & Hdom). cbn in Htop, Hdom.
    apply dom_empty_inv_L in Hdom.
    destruct st as [h top]. cbn in *. subst.
    destruct fuel; reflexivity.
  - destruct fuel as [|fuel]; [cbn in Hf; lia|].
    destruct (pop_repr_cons st a q ns Hr) as (st1 & Hp & Hr1).
    destruct Hr as (_ & Htop & Hl & _). cbn in Htop.
    cbn [destructor]. rewrite Htop.
    unfold pop in Hp. rewrite Htop in Hp.
    destruct (heap st !! a) as [n|]; cbn in Hp; [|discriminate].
    injection Hp as _ <-.
    apply IH; [exact Hr1|cbn in Hf; lia].
Qed.

(** X3: under every sequence of [push] and [pop] calls on a new recall
    stack no call faults, each [pop] returns what a last-in first-out list
    returns (the entry pushed last that is still there, or [false] on an
    empty stack), and the free store holds one node per entry. *)
Theorem calls_refine_lifo (ops : list call) :
  exists st,
    calls ops new = Some ((lifo ops []).1, st) /\
    size (heap st) = length (lifo ops []).2 /\
    (pop st = Some (None, st) <-> (lifo ops []).2 = []).
Proof.
  destruct (calls_lifo ops new [] stack_repr_new) as (st & ns & Hc & Hr & Hn).
  cbn in Hc, Hn. exists st. split; [exact Hc|].
  rewrite <- Hn. split.
  - destruct Hr as (Hnd & _ & _ & Hdom).
    rewrite <- size_dom, Hdom, size_list_to_set by exact Hnd.
    now rewrite !length_fmap.
  - destruct ns as [|[a q] ns]; cbn.
    + split; [reflexivity|]. intros _. now apply pop_repr_nil.
    + destruct (pop_repr_cons st a q ns Hr) as (st1 & Hp & _). rewrite Hp.
      split; discriminate.
Qed.

(** X4: pushing any entries on any stack and popping as many again
    returns them in reverse order and leaves the stack object and its free
    store exactly as they were, whatever state the stack was in. *)
Theorem pops_undo_pushes (qs : list App.quad) (st : t) :
  calls (map CallPush qs ++ replicate (length qs) CallPop) st
  = Some (map Some (rev qs), st).
Proof.
  revert st. induction qs as [|q qs IH]; intros st; [reflexivity|].
  cbn [map length app calls].
  replace (replicate (S (length qs)) CallPop)
    with (replicate (length qs) CallPop ++ [CallPop])
    by (now rewrite <- replicate_S_end).
  rewrite app_assoc, calls_app, IH. cbn.
  rewrite pop_push. cbn. now rewrite map_app.
Qed.

(** X5: the destructor of the recall stack ends normally after every
    sequence of calls and returns every node: the free store of the stack
    is empty afterwards. *)
Theorem destructor_frees_all (ops : list call) (rs : list (option App.quad))
    (st : t) (fuel : nat)
    (Hcalls : calls ops new = Some (rs, st))
    (Hfuel : (length ops <= fuel)%nat) :
  destructor fuel st = Ret {| heap := ∅; _top := None |}.
Proof.
  destruct (calls_lifo ops new [] stack_repr_new) as (st' & ns & Hc & Hr & Hn).
  cbn in Hc, Hn. rewrite Hc in Hcalls. injection Hcalls as _ <-.
  apply (stack_destructor_repr ns); [exact Hr|].
  assert (forall ops es, (length (lifo ops es).2 <= length es + length ops)%nat) as Hb.
  { clear. induction ops as [|[q|] ops IH]; intros es; cbn.
    - lia.
    - specialize (IH (q :: es)). cbn in IH. lia.
    - destruct es as [|e es].
      + specialize (IH []). destruct (lifo ops []); cbn in *. lia.
      + specialize (IH es). destruct (lifo ops es); cbn in *. lia. }
  specialize (Hb ops []). rewrite <- Hn, length_fmap in Hb. cbn in Hb. lia.
Qed.

Lemma destructor_frees_all_witness :
  let q := WndProc.viewport App.initial in
  let ops := [CallPush q; CallPush q; CallPop; CallPush q] in
  exists rs st,
    calls ops new = Some (rs, st) /\ (length ops <= 4)%nat /\
    size (heap st) = 2%nat /\
    destructor 4 st = Ret {| heap := ∅; _top := None |}.
Proof.
  intros q ops. eexists _, _. split; [reflexivity|]. split; [simpl; lia|].
  split; [reflexivity|].
  exact (destructor_frees_all ops _ _ 4 eq_refl ltac:(simpl; lia)).
Defined.
End QuadDoubleStackFacts.

(** ** The escape-time loop and the budget *)

Module KernelBudget.
Import Worker.

Section Loop.
Variable B : Backend.
Variables x0 y0 : num B.
Variables M M' : Z.
Hypothesis M_le : M <= M'.
Hypothesis M'_is_int : M' <= Int32.max_signed.

(** Two runs of the loop from the same state, one with the budget [M] and
    one with the larger budget [M']: the first stops where the second
    does, or at [M]. *)
Lemma escape_loop_budgets (fuel' : nat) :
  forall (fuel : nat) (x y x2 y2 : num B) (iteration : Z),
  0 <= iteration <= M ->
  M - iteration <= Z.of_nat fuel ->
  M' - iteration <= Z.of_nat fuel' ->
  exists k k',
    escape_loop B fuel x0 y0 x y x2 y2 iteration M = Some k /\
    escape_loop B fuel' x0 y0 x y x2 y2 iteration M' = Some k' /\
    k = Z.min k' M.
Proof.
  induction fuel' as [|fuel' IH]; intros fuel x y x2 y2 iteration Hi Hf Hf'.
  - assert (iteration = M /\ M = M') as [-> <-] by lia.
    exists M, M. destruct fuel; cbn [escape_loop];
      rewrite Z.ltb_irrefl, andb_false_r; repeat split; lia.
  - destruct (le B (plus B x2 y2) (of_double B (Double.of_int 4))) eqn:Ele.
    2: { exists iteration, iteration.
         destruct fuel; cbn [escape_loop]; rewrite Ele; cbn [andb];
           repeat split; lia. }
    destruct (Z.ltb_spec iteration M) as [Hlt|Hge].
    + destruct fuel as [|fuel]; [lia|].
      cbn [escape_loop]. rewrite Ele. cbn [andb].
      replace (iteration <? M) with true by (symmetry; apply Z.ltb_lt; lia).
      replace (iteration <? M') with true by (symmetry; apply Z.ltb_lt; lia).
      assert (Hadd : Int32.add iteration 1 = iteration + 1).
      { apply Int32Facts.wrap_id. unfold Int32.in_range, Int32.min_signed.
        unfold Int32.max_signed in *. lia. }
      rewrite Hadd. apply IH; lia.
    + assert (iteration = M) as -> by lia.
      destruct (KernelFacts.escape_loop_bounds B x0 y0 M' M'_is_int (S fuel')
                  x y x2 y2 M) as (k' & Hk' & Hlo & Hhi); [lia|lia|].
      exists M, k'. split; [|split; [exact Hk'|lia]].
      destruct fuel; cbn [escape_loop]; rewrite Z.ltb_irrefl, andb_false_r; reflexivity.
Qed.
End Loop.

(** X6: how the iteration count of a point depends on the budget.  With
    budgets 0 <= M <= M' the kernel terminates for both, and the count
    for M is the count for M' cut off at M: a point that escapes within M
    iterations keeps its count under every larger budget, and a point
    that uses up the larger budget uses up the smaller one.  This holds
    on both arithmetic paths. *)
Theorem escape_time_cut_off (B : Backend) (x0 y0 : num B) (M M' : Z)
    (HM : 0 <= M <= M') (HM' : M' <= Int32.max_signed) :
  exists k k',
    escape_time B x0 y0 M = Some k /\
    escape_time B x0 y0 M' = Some k' /\
    k = Z.min k' M.
Proof.
  unfold escape_time, escape_time_fuel.
  apply escape_loop_budgets; lia.
Qed.

Lemma escape_time_cut_off_witness :
  (0 <= 20 <= 1000 /\ 1000 <= Int32.max_signed) /\
  exists k k',
    escape_time FPU Double.half Double.half 20 = Some k /\
    escape_time FPU Double.half Double.half 1000 = Some k' /\
    k = Z.min k' 20.
Proof.
  split; [unfold Int32.max_signed; lia|].
  apply (escape_time_cut_off FPU Double.half Double.half 20 1000);
    unfold Int32.max_signed; lia.
Defined.
End KernelBudget.

(** ** The kernel and the real axis *)

Module KernelMirror.
Import Worker MirrorSpec.

Lemma binary_round_aux_negb (s : bool) (m e : Z) (l : location) :
  binary_round_aux Double.prec Double.emax (negb s) m e l
  = SFopp (binary_round_aux Double.prec Double.emax s m e l).
Proof.
  unfold binary_round_aux.
  destruct (shr_fexp Double.prec Double.emax m e l) as [mrs' e'].
  destruct (shr_fexp Double.prec Double.emax _ e' loc_Exact) as [mrs'' e''].
  destruct (shr_m mrs''); [reflexivity| |reflexivity].
  destruct (e'' <=? Double.emax - Double.prec); reflexivity.
Qed.

Lemma binary_round_negb (s : bool) (m : positive) (e : Z) :
  binary_round Double.prec Double.emax (negb s) m e
  = SFopp (binary_round Double.prec Double.emax s m e).
Proof.
  unfold binary_round.
  destruct (shl_align m e _) as [mz ez]. apply binary_round_aux_negb.
Qed.

Lemma binary_normalize_opp (m e : Z) :
  mirrored (binary_normalize Double.prec Double.emax m e false)
           (binary_normalize Double.prec Double.emax (- m) e false).
Proof.
  destruct m as [|m|m]; cbn [binary_normalize Z.opp].
  - right. split; eexists; reflexivity.
  - left. apply (binary_round_negb false).
  - left. apply (binary_round_negb true).
Qed.

Lemma cond_Zopp_negb (s : bool) (m : Z) : cond_Zopp (negb s) m = - cond_Zopp s m.
Proof. destruct s; cbn; lia. Qed.

Ltac zeros :=
  repeat match goal with
         | H : is_zero _ |- _ => destruct H as [? ->]
         | H : _ /\ _ |- _ => destruct H
         end.

Ltac settle :=
  cbn;
  first [ left; reflexivity
        | right; split; eexists; reflexivity
        | left; now rewrite ?negb_involutive
        | idtac ].

Lemma same_refl (a : Double.t) : same a a.
Proof. now left. Qed.

Lemma mirrored_opp (a : Double.t) : mirrored a (Double.opp a).
Proof. now left. Qed.

(** Addition and multiplication under the two relations. *)
Lemma add_same (a a' b b' : Double.t) :
  same a a' -> same b b' -> same (Double.add a b) (Double.add a' b').
Proof.
  intros [->|Ha] [->|Hb]; [now left| | |]; zeros.
  - destruct a as [[]|[]| |[] ? ?]; destruct x, x0; settle.
  - destruct b as [[]|[]| |[] ? ?]; destruct x, x0; settle.
  - destruct x, x0, x1, x2; settle.
Qed.

Lemma sub_same (a a' b b' : Double.t) :
  same a a' -> same b b' -> same (Double.sub a b) (Double.sub a' b').
Proof.
  intros [->|Ha] [->|Hb]; [now left| | |]; zeros.
  - destruct a as [[]|[]| |[] ? ?]; destruct x, x0; settle.
  - destruct b as [[]|[]| |[] ? ?]; destruct x, x0; settle.
  - destruct x, x0, x1, x2; settle.
Qed.

Lemma add_mirrored (a a' b b' : Double.t) :
  mirrored a a' -> mirrored b b' -> mirrored (Double.add a b) (Double.add a' b').
Proof.
  intros [->|Ha] [->|Hb]; zeros.
  - destruct a as [sa|sa| |sa ma ea], b as [sb|sb| |sb mb eb];
      try (destruct sa; try destruct sb; settle; fail);
      try (destruct sb; settle; fail); try (settle; fail).
    unfold Double.add, Double.opp. cbn [SFadd SFopp].
    rewrite !cond_Zopp_negb, <- Z.opp_add_distr.
    apply binary_normalize_opp.
  - destruct a as [[]|[]| |[] ? ?]; destruct x, x0; settle.
  - destruct b as [[]|[]| |[] ? ?]; destruct x, x0; settle.
  - destruct x, x0, x1, x2; settle.
Qed.

Lemma mul_same_mirrored (a a' b b' : Double.t) :
  same a a' -> mirrored b b' -> mirrored (Double.mul a b) (Double.mul a' b').
Proof.
  intros [->|Ha] [->|Hb]; zeros.
  - destruct a as [sa|sa| |sa ma ea], b as [sb|sb| |sb mb eb];
      try (destruct sa; try destruct sb; settle; fail);
      try (destruct sb; settle; fail); try (settle; fail).
    unfold Double.mul, Double.opp. cbn [SFmul SFopp].
    rewrite <- negb_xorb_r. left. apply binary_round_aux_negb.
  - destruct a as [[]|[]| |[] ? ?]; destruct x, x0; settle.
  - destruct b as [[]|[]| |[] ? ?]; destruct x, x0; settle.
  - destruct x, x0, x1, x2; settle.
Qed.

Lemma mul_same (a a' b b' : Double.t) :
  same a a' -> same b b' -> same (Double.mul a b) (Double.mul a' b').
Proof.
  intros [->|Ha] [->|Hb]; [now left| | |]; zeros.
  - destruct a as [[]|[]| |[] ? ?]; destruct x, x0; settle.
  - destruct b as [[]|[]| |[] ? ?]; destruct x, x0; settle.
  - destruct x, x0, x1, x2; settle.
Qed.

Lemma mul_mirrored (a a' b b' : Double.t) :
  mirrored a a' -> mirrored b b' -> same (Double.mul a b) (Double.mul a' b').
Proof.
  intros [->|Ha] [->|Hb]; zeros.
  - destruct a as [sa|sa| |sa ma ea], b as [sb|sb| |sb mb eb];
      try (destruct sa; try destruct sb; settle; fail);
      try (destruct sb; settle; fail); try (settle; fail).
  - destruct a as [[]|[]| |[] ? ?]; destruct x, x0; settle.
  - destruct b as [[]|[]| |[] ? ?]; destruct x, x0; settle.
  - destruct x, x0, x1, x2; settle.
Qed.

Lemma le_same (a a' b : Double.t) :
  same a a' -> Double.le a' b = Double.le a b.
Proof.
  intros [->|Ha]; [reflexivity|]. zeros.
  destruct b as [[]|[]| |[] ? ?]; destruct x, x0; reflexivity.
Qed.

(** The loop from mirrored states. *)
Lemma escape_loop_mirror (x0 y0 y0' : Double.t) (M : Z) (fuel : nat) :
  mirrored y0 y0' ->
  forall (x x' y y' x2 x2' y2 y2' : Double.t) (iteration : Z),
  same x x' -> mirrored y y' -> same x2 x2' -> same y2 y2' ->
  escape_loop FPU fuel x0 y0' x' y' x2' y2' iteration M
  = escape_loop FPU fuel x0 y0 x y x2 y2 iteration M.
Proof.
  intros H0. induction fuel as [|fuel IH];
    intros x x' y y' x2 x2' y2 y2' iteration Hx Hy Hx2 Hy2; cbn [escape_loop];
    cbn [le plus minus times of_double FPU];
    rewrite (le_same _ _ _ (add_same _ _ _ _ Hx2 Hy2)); [reflexivity|].
  destruct (Double.le (Double.add x2 y2) (Double.of_int 4) && (iteration <? M));
    [|reflexivity].
  assert (Hy' : mirrored (Double.add (Double.mul (Double.add x x) y) y0)
                         (Double.add (Double.mul (Double.add x' x') y') y0')).
  { apply add_mirrored; [|exact H0].
    apply mul_same_mirrored; [|exact Hy]. now apply add_same. }
  assert (Hx' : same (Double.add (Double.sub x2 y2) x0)
                     (Double.add (Double.sub x2' y2') x0)).
  { apply add_same; [|apply same_refl]. now apply sub_same. }
  apply IH.
  - exact Hx'.
  - exact Hy'.
  - now apply mul_same.
  - now apply mul_mirrored.
Qed.

(** X25: the kernel is symmetric about the real axis.  On the FPU path
    the iteration count of the point (x0, -y0) is the iteration count of
    (x0, y0), for every point (infinities and NaN included) and every
    budget: rounding to nearest is symmetric, and the sign of a zero never
    reaches a comparison. *)
Theorem escape_time_conjugate (x0 y0 : Double.t) (M : Z) :
  escape_time FPU x0 (Double.opp y0) M = escape_time FPU x0 y0 M.
Proof.
  unfold escape_time, escape_time_fuel.
  apply escape_loop_mirror.
  - apply mirrored_opp.
  - apply same_refl.
  - right. split; eexists; reflexivity.
  - apply same_refl.
  - apply same_refl.
Qed.
End KernelMirror.

(** ** The render *)

Module RenderFacts.
Import Worker RenderSpec.

Lemma cover_one (s e i : Z) :
  (Paint.cover [(s, e)] i =? 0)%nat = negb ((s <=? i) && (i <? e)).
Proof.
  rewrite PaintFacts.cover_cons. unfold Paint.in_tile. cbn [fst snd].
  now destruct ((s <=? i) && (i <? e)).
Qed.

Section OneThread.
Variable log : Double.t -> Double.t.
Variable TTMath : Backend.
Variable P : ThreadProcParameters.
Hypothesis FPU_path : P_bUseTTMath P = 0.
Hypothesis width_pos : 1 <= xMaxPixel P.
Hypothesis budget : 1 <= P_Iterations P <= Int32.max_signed.

(** One pixel on the FPU path in the old RGB system: every step has a
    value, and the colour has no bit above the three colour bytes. *)
Lemma pixel_rgb (cache : option Double.t) (Pixel : Z) :
  0 <= Pixel ->
  exists k c,
    pixel_iteration TTMath P Pixel = Ret k /\
    pixel_value log 0 cache k (P_Iterations P) = (Some c, cache) /\
    rgb_of_pixel P Pixel = Some c /\
    1 <= k <= P_Iterations P /\ 0 <= c < 2 ^ 24.
Proof.
  intros Hp.
  assert (Hd : int_defined Pixel (xMaxPixel P) = true).
  { unfold int_defined. destruct (Z.eqb_spec (xMaxPixel P) 0); [lia|].
    destruct (Z.eqb_spec Pixel Int32.min_signed) as [E|]; [|reflexivity].
    unfold Int32.min_signed in E. lia. }
  unfold pixel_iteration, rgb_of_pixel, point, xPixel, yPixel.
  rewrite Hd, FPU_path. cbn.
  set (x0 := axis_coordinate (P_dxMin P) (P_dxMax P) _ _).
  set (y0 := axis_coordinate (P_dyMin P) (P_dyMax P) _ _).
  assert (Hk : exists k, escape_time FPU x0 y0 (P_Iterations P) = Some k).
  { unfold escape_time, escape_time_fuel.
    destruct (KernelFacts.escape_loop_bounds FPU x0 y0 (P_Iterations P) (proj2 budget)
                (Z.to_nat (P_Iterations P)) Double.zero Double.zero Double.zero
                Double.zero 0) as (k & Hk & _); [lia|lia|].
    exists k. exact Hk. }
  destruct Hk as [k Hk].
  pose proof (KernelFacts.escape_time_FPU_positive x0 y0 _ k budget Hk) as Hkr.
  destruct (DoubleFacts.rgb_index_trunc (P_Iterations P) k Hkr) as (c & Hc & Hcr & _).
  { unfold Int32.max_signed in budget. lia. }
  assert (Hu : rgb_pixel k (P_Iterations P) = Some (HSVtoRGB.ReverseRGBBytes c)).
  { unfold rgb_pixel, Double.to_uint32. rewrite Hc. cbn.
    destruct (Z.leb_spec 0 c); [|lia].
    destruct (Z.ltb_spec c (2 ^ 32)); [reflexivity|]. simpl in *. lia. }
  exists k, (HSVtoRGB.ReverseRGBBytes c).
  rewrite Hk. cbn. unfold pixel_value. cbn. rewrite Hu.
  repeat split; try lia; apply ColourFacts.ReverseRGBBytes_range; lia.
Qed.

(** The pixels of one work item. *)
Lemma pixel_loop_rgb (EndPixel : Z) (cache : option Double.t) (fuel : nat) :
  forall (StartPixel : Z) (bm : Bitmap),
  0 <= StartPixel -> EndPixel <= Z.of_nat (length bm) ->
  EndPixel <= Int32.max_signed ->
  EndPixel - StartPixel <= Z.of_nat fuel ->
  exists bm',
    pixel_loop log TTMath fuel P 0 StartPixel EndPixel bm cache = Ret (bm', cache) /\
    painted P [(StartPixel, EndPixel)] bm bm'.
Proof.
  induction fuel as [|fuel IH]; intros s bm Hs He Hmax Hf; cbn [pixel_loop].
  - destruct (Z.ltb_spec s EndPixel); [lia|].
    exists bm. split; [reflexivity|]. split; [reflexivity|].
    intros i Hi. rewrite cover_one.
    destruct (Z.leb_spec s i); destruct (Z.ltb_spec i EndPixel); cbn; try reflexivity; lia.
  - destruct (Z.ltb_spec s EndPixel) as [Hlt|Hge].
    2: { exists bm. split; [reflexivity|]. split; [reflexivity|].
         intros i Hi. rewrite cover_one.
         destruct (Z.leb_spec s i); destruct (Z.ltb_spec i EndPixel); cbn;
           try reflexivity; lia. }
    destruct (pixel_rgb cache s Hs) as (k & c & -> & -> & Hc & _ & _).
    unfold store.
    replace ((0 <=? s) && (s <? Z.of_nat (length bm))) with true
      by (symmetry; apply andb_true_iff; split; [apply Z.leb_le|apply Z.ltb_lt]; lia).
    assert (Hadd : Int32.add s 1 = s + 1).
    { apply Int32Facts.wrap_id. unfold Int32.in_range, Int32.min_signed.
      unfold Int32.max_signed in *. lia. }
    rewrite Hadd.
    destruct (IH (s + 1) (<[Z.to_nat s := Some c]> bm)) as (bm' & -> & Hlen & Hbm');
      [lia|rewrite length_insert; lia|lia|lia|].
    rewrite length_insert in Hlen, Hbm'.
    exists bm'. split; [reflexivity|]. split; [exact Hlen|].
    intros i Hi. rewrite (Hbm' i Hi), !cover_one.
    destruct (Z.eq_dec i s) as [->|Hne].
    + rewrite list_lookup_insert_eq by lia. rewrite Hc.
      destruct (Z.leb_spec (s + 1) s); destruct (Z.leb_spec s s);
        destruct (Z.ltb_spec s EndPixel); cbn; try reflexivity; lia.
    + rewrite list_lookup_insert_ne by lia.
      destruct (Z.leb_spec (s + 1) i); destruct (Z.leb_spec s i);
        destruct (Z.ltb_spec i EndPixel); cbn; try reflexivity; lia.
Qed.

Lemma painted_nil (bm : Bitmap) : painted P [] bm bm.
Proof. split; [reflexivity|]. intros i Hi. reflexivity. Qed.

Lemma painted_app (ts1 ts2 : list tile) (bm bm1 bm2 : Bitmap) :
  painted P ts1 bm bm1 -> painted P ts2 bm1 bm2 -> painted P (ts1 ++ ts2) bm bm2.
Proof.
  intros (Hl1 & H1) (Hl2 & H2). split; [congruence|].
  intros i Hi. rewrite H2 by (rewrite Hl1; exact Hi). rewrite H1 by exact Hi.
  rewrite PaintFacts.cover_app.
  destruct (Paint.cover ts1 i), (Paint.cover ts2 i); reflexivity.
Qed.

(** The thread hands itself the work items oldest first, until it finds
    the abort flag set or the queue empty.  [d] is the number of work
    items it gets to. *)
Lemma thread_run (cache : option Double.t) (pbAbort : nat -> bool) (d : nat) :
  forall (fuel m : nat) (wq : WorkQueue.t) (cs : list (WorkQueue.addr * tile))
         (bm : Bitmap),
  WorkQueueRep.repr wq cs ->
  (d <= length cs)%nat ->
  (forall s e, (s, e) ∈ cs.*2 ->
     0 <= s /\ e <= Z.of_nat (length bm) /\ e <= Int32.max_signed) ->
  (forall j, (j < d)%nat -> pbAbort (m + j)%nat = false) ->
  pbAbort (m + d)%nat = true \/ d = length cs ->
  (d < fuel)%nat ->
  exists wq' bm',
    MandelbrotWorkerThread log TTMath fuel pbAbort m P 0 wq bm cache
      = Ret (wq', bm', cache) /\
    WorkQueueRep.repr wq' (take (length cs - d) cs) /\
    painted P (take d (rev cs.*2)) bm bm'.
Proof.
  induction d as [|d IH]; intros fuel m wq cs bm Hr Hd Hts Hno Hend Hf;
    (destruct fuel as [|fuel]; [lia|]); cbn [MandelbrotWorkerThread].
  - rewrite Nat.add_0_r in Hend. rewrite Nat.sub_0_r, firstn_all. cbn [take].
    destruct (pbAbort m) eqn:Ea.
    + exists wq, bm. split; [reflexivity|]. split; [exact Hr|apply painted_nil].
    + destruct Hend as [?|Hlen]; [discriminate|].
      destruct cs; [|discriminate].
      rewrite (WorkQueueFacts.Dequeue_repr_nil wq Hr).
      exists wq, bm. split; [reflexivity|]. split; [exact Hr|apply painted_nil].
  - pose proof (Hno O ltac:(lia)) as Ea. rewrite Nat.add_0_r in Ea. rewrite Ea.
    destruct cs as [|[a [s e]] cs _] using rev_ind; [simpl in Hd; lia|].
    destruct (WorkQueueFacts.Dequeue_repr_snoc wq cs a (s, e) Hr) as (wq1 & -> & Hr1 & _).
    rewrite length_app in Hd, Hend |- *. cbn [length] in Hd, Hend |- *.
    destruct (Hts s e) as (Hs & He & Hmax).
    { rewrite fmap_app. apply elem_of_app. right. cbn. left. }
    destruct (pixel_loop_rgb e cache (Z.to_nat (e - s)) s bm Hs He Hmax ltac:(lia))
      as (bm1 & -> & Hp1).
    destruct (IH fuel (S m) wq1 cs bm1 Hr1 ltac:(lia)) as (wq' & bm' & -> & Hr' & Hp').
    + intros s' e' Hin. destruct Hp1 as [-> _].
      apply Hts. rewrite fmap_app. apply elem_of_app. now left.
    + intros j Hj. replace (S m + j)%nat with (m + S j)%nat by lia. apply Hno. lia.
    + replace (S m + d)%nat with (m + S d)%nat by lia.
      destruct Hend as [?|?]; [now left|right; lia].
    + lia.
    + exists wq', bm'. split; [reflexivity|]. split.
      * replace (length cs + 1 - S d)%nat with (length cs - d)%nat by lia.
        rewrite take_app_le by lia. exact Hr'.
      * rewrite fmap_app, rev_app_distr. cbn [fmap list_fmap rev app snd take].
        apply (painted_app [(s, e)] _ bm bm1 bm'); assumption.
Qed.
End OneThread.

Section AnyPath.
Variable log : Double.t -> Double.t.
Variable TTMath : Backend.
Variable P : ThreadProcParameters.
Variable bUseHSV : Z.
Hypothesis width_pos : 1 <= xMaxPixel P.
Hypothesis budget : 1 <= P_Iterations P <= Int32.max_signed.

(** One pixel in either colour system and on either arithmetic path:
    every step has a value. *)
Lemma pixel_any (cache : option Double.t) (Pixel : Z) :
  0 <= Pixel ->
  exists k c cache',
    pixel_iteration TTMath P Pixel = Ret k /\
    pixel_value log bUseHSV cache k (P_Iterations P) = (Some c, cache').
Proof.
  intros Hp.
  assert (Hd : int_defined Pixel (xMaxPixel P) = true).
  { unfold int_defined. destruct (Z.eqb_spec (xMaxPixel P) 0); [lia|].
    destruct (Z.eqb_spec Pixel Int32.min_signed) as [E|]; [|reflexivity].
    unfold Int32.min_signed in E. lia. }
  unfold pixel_iteration, point, xPixel, yPixel. rewrite Hd. cbn.
  set (x0 := axis_coordinate (P_dxMin P) (P_dxMax P) _ _).
  set (y0 := axis_coordinate (P_dyMin P) (P_dyMax P) _ _).
  assert (Hk : forall (B : Backend) (a b : num B),
            exists k, escape_time B a b (P_Iterations P) = Some k /\
                      0 <= k <= P_Iterations P).
  { intros B a b. unfold escape_time, escape_time_fuel.
    destruct (KernelFacts.escape_loop_bounds B a b (P_Iterations P) (proj2 budget)
                (Z.to_nat (P_Iterations P)) (of_double B Double.zero)
                (of_double B Double.zero) (of_double B Double.zero)
                (of_double B Double.zero) 0) as (k & Hk & Hlo & Hhi); [lia|lia|].
    exists k. split; [exact Hk|lia]. }
  assert (Hv : forall k, 0 <= k <= P_Iterations P ->
            exists c cache', pixel_value log bUseHSV cache k (P_Iterations P)
                             = (Some c, cache')).
  { intros k Hkr. unfold pixel_value. destruct (bUseHSV =? 0).
    - destruct (Z.eq_dec k 0) as [->|Hk0].
      + exists 0, cache. unfold rgb_pixel.
        rewrite ColourFacts.rgb_index_at_zero by lia. reflexivity.
      + destruct (DoubleFacts.rgb_index_trunc (P_Iterations P) k ltac:(lia)) as (c & Hc & Hcr & _).
        { unfold Int32.max_signed in budget. lia. }
        exists (HSVtoRGB.ReverseRGBBytes c), cache.
        unfold rgb_pixel, Double.to_uint32. rewrite Hc. cbn.
        destruct (Z.leb_spec 0 c); [|lia].
        destruct (Z.ltb_spec c (2 ^ 32)); [reflexivity|]. simpl in *. lia.
    - destruct (hsv_pixel log cache k (P_Iterations P)) as [value cache'].
      exists value, cache'. reflexivity. }
  destruct (P_bUseTTMath P =? 0).
  - destruct (Hk FPU x0 y0) as (k & -> & Hkr).
    destruct (Hv k Hkr) as (c & cache' & Hc). exists k, c, cache'. auto.
  - destruct (Hk TTMath (of_double TTMath x0) (of_double TTMath y0)) as (k & -> & Hkr).
    destruct (Hv k Hkr) as (c & cache' & Hc). exists k, c, cache'. auto.
Qed.

(** The pixels of one work item: the loop runs to its end and stores
    inside the bitmap. *)
Lemma pixel_loop_any (EndPixel : Z) (fuel : nat) :
  forall (StartPixel : Z) (bm : Bitmap) (cache : option Double.t),
  0 <= StartPixel -> EndPixel <= Z.of_nat (length bm) ->
  EndPixel <= Int32.max_signed ->
  EndPixel - StartPixel <= Z.of_nat fuel ->
  exists bm' cache',
    pixel_loop log TTMath fuel P bUseHSV StartPixel EndPixel bm cache = Ret (bm', cache') /\
    length bm' = length bm.
Proof.
  induction fuel as [|fuel IH]; intros s bm cache Hs He Hmax Hf; cbn [pixel_loop].
  - destruct (Z.ltb_spec s EndPixel); [lia|]. exists bm, cache. auto.
  - destruct (Z.ltb_spec s EndPixel) as [Hlt|Hge]; [|exists bm, cache; auto].
    destruct (pixel_any cache s Hs) as (k & c & cache1 & -> & ->).
    unfold store.
    replace ((0 <=? s) && (s <? Z.of_nat (length bm))) with true
      by (symmetry; apply andb_true_iff; split; [apply Z.leb_le|apply Z.ltb_lt]; lia).
    assert (Hadd : Int32.add s 1 = s + 1).
    { apply Int32Facts.wrap_id. unfold Int32.in_range, Int32.min_signed.
      unfold Int32.max_signed in *. lia. }
    rewrite Hadd.
    destruct (IH (s + 1) (<[Z.to_nat s := Some c]> bm) cache1) as (bm' & cache' & -> & Hlen);
      [lia|rewrite length_insert; lia|lia|lia|].
    rewrite length_insert in Hlen. exists bm', cache'. auto.
Qed.

(** The thread hands itself the work items oldest first, until it finds
    the abort flag set or the queue empty.  [d] is the number of work
    items it gets to; the others are still in the queue when it returns. *)
Lemma thread_returns (pbAbort : nat -> bool) (d : nat) :
  forall (fuel m : nat) (wq : WorkQueue.t) (cs : list (WorkQueue.addr * tile))
         (bm : Bitmap) (cache : option Double.t),
  WorkQueueRep.repr wq cs ->
  (d <= length cs)%nat ->
  (forall s e, (s, e) ∈ cs.*2 ->
     0 <= s /\ e <= Z.of_nat (length bm) /\ e <= Int32.max_signed) ->
  (forall j, (j < d)%nat -> pbAbort (m + j)%nat = false) ->
  pbAbort (m + d)%nat = true \/ d = length cs ->
  (d < fuel)%nat ->
  exists wq' bm' cache',
    MandelbrotWorkerThread log TTMath fuel pbAbort m P bUseHSV wq bm cache
      = Ret (wq', bm', cache') /\
    WorkQueueRep.repr wq' (take (length cs - d) cs) /\
    length bm' = length bm.
Proof.
  induction d as [|d IH]; intros fuel m wq cs bm cache Hr Hd Hts Hno Hend Hf;
    (destruct fuel as [|fuel]; [lia|]); cbn [MandelbrotWorkerThread].
  - rewrite Nat.add_0_r in Hend. rewrite Nat.sub_0_r, firstn_all.
    destruct (pbAbort m) eqn:Ea.
    + exists wq, bm, cache. auto.
    + destruct Hend as [?|Hlen]; [discriminate|].
      destruct cs; [|discriminate].
      rewrite (WorkQueueFacts.Dequeue_repr_nil wq Hr).
      exists wq, bm, cache. auto.
  - pose proof (Hno O ltac:(lia)) as Ea. rewrite Nat.add_0_r in Ea. rewrite Ea.
    destruct cs as [|[a [s e]] cs _] using rev_ind; [simpl in Hd; lia|].
    destruct (WorkQueueFacts.Dequeue_repr_snoc wq cs a (s, e) Hr) as (wq1 & -> & Hr1 & _).
    rewrite length_app in Hd, Hend |- *. cbn [length] in Hd, Hend |- *.
    destruct (Hts s e) as (Hs & He & Hmax).
    { rewrite fmap_app. apply elem_of_app. right. cbn. left. }
    destruct (pixel_loop_any e (Z.to_nat (e - s)) s bm cache Hs He Hmax ltac:(lia))
      as (bm1 & cache1 & -> & Hl1).
    destruct (IH fuel (S m) wq1 cs bm1 cache1 Hr1 ltac:(lia))
      as (wq' & bm' & cache' & -> & Hr' & Hl').
    + intros s' e' Hin. rewrite Hl1.
      apply Hts. rewrite fmap_app. apply elem_of_app. now left.
    + intros j Hj. replace (S m + j)%nat with (m + S j)%nat by lia. apply Hno. lia.
    + replace (S m + d)%nat with (m + S d)%nat by lia.
      destruct Hend as [?|?]; [now left|right; lia].
    + lia.
    + exists wq', bm', cache'. split; [reflexivity|]. split; [|congruence].
      replace (length cs + 1 - S d)%nat with (length cs - d)%nat by lia.
      rewrite take_app_le by lia. exact Hr'.
Qed.
End AnyPath.

(** The queue that the render set-up builds, in closed form. *)
Lemma build_queue_grid (fuel : nat) (g Max Slices : Z) :
  let Pstep := Max / Slices in
  let J := (Max - 1) / Pstep in
  1 <= Slices <= Max -> Max <= 2 ^ 30 -> J <= Z.of_nat fuel ->
  exists wq cs,
    Paint.build_queue fuel g Max Slices = Some wq /\
    WorkQueueRep.repr wq cs /\
    rev cs.*2 = PaintSpec.grid Pstep 0 (Z.to_nat J) ++ [(Max - Pstep + 1, Max)].
Proof.
  intros Pstep J HS HM Hfuel.
  assert (HP : 1 <= Pstep <= Max).
  { unfold Pstep. split.
    - apply Z.div_le_lower_bound; lia.
    - apply Z.div_le_upper_bound; nia. }
  pose proof (PaintFacts.J_bounds Pstep Max ltac:(lia) ltac:(lia)) as (HJ0 & HJ1 & HJ2).
  fold J in HJ0, HJ1, HJ2.
  assert (EP : Int32.div Max Slices = Pstep).
  { unfold Int32.div. rewrite Z.quot_div_nonneg by lia. apply Int32Facts.wrap_id.
    unfold Int32.in_range, Int32.min_signed, Int32.max_signed. fold Pstep. lia. }
  unfold Paint.build_queue. rewrite EP.
  destruct (Z.eqb_spec Slices 0); [lia|].
  pose proof (PaintFacts.enqueue_loop_calls Pstep Max fuel 0 Pstep (WorkQueue.new g) []
                (WorkQueueFacts.repr_new g)) as Hl.
  pose proof (PaintFacts.loop_calls_grid Pstep Max ltac:(lia) ltac:(lia) ltac:(lia)
                fuel 0%nat) as Hg.
  fold J in Hg. change (Z.of_nat 0) with 0 in Hg.
  rewrite Z.mul_0_l, Z.add_0_l, Z.mul_1_l, Z.min_l, Nat.sub_0_r in Hg by lia.
  rewrite Hg in Hl by lia.
  destruct Hl as (wq & cs & -> & Hr & Hcs). rewrite app_nil_r in Hr. cbn.
  assert (E1 : Int32.sub Max Pstep = Max - Pstep).
  { apply Int32Facts.wrap_id.
    unfold Int32.in_range, Int32.min_signed, Int32.max_signed. lia. }
  assert (E2 : Int32.add (Max - Pstep) 1 = Max - Pstep + 1).
  { apply Int32Facts.wrap_id.
    unfold Int32.in_range, Int32.min_signed, Int32.max_signed. lia. }
  rewrite E1, E2.
  destruct (Z.ltb_spec (Max - Pstep) Max); [|lia].
  destruct (WorkQueueFacts.Enqueue_repr wq cs (Max - Pstep + 1) Max Hr)
    as (wq' & -> & Hr' & _).
  eexists _, _. split; [reflexivity|]. split; [exact Hr'|].
  rewrite fmap_cons. cbn [rev snd]. rewrite Hcs, rev_involutive. reflexivity.
Qed.

Lemma cover_grid_last (Pstep Max : Z) (i : Z) :
  let J := (Max - 1) / Pstep in
  1 <= Pstep <= Max -> 0 <= i < Max ->
  Nat.eqb (Paint.cover (PaintSpec.grid Pstep 0 (Z.to_nat J) ++ [(Max - Pstep + 1, Max)]) i) 0
  = negb ((i <? J * Pstep) || (Max - Pstep + 1 <=? i)).
Proof.
  intros J HP Hi.
  pose proof (PaintFacts.J_bounds Pstep Max ltac:(lia) ltac:(lia)) as (HJ0 & _).
  fold J in HJ0.
  rewrite PaintFacts.cover_app, PaintFacts.cover_grid by lia.
  change (Z.of_nat 0) with 0. rewrite Z.mul_0_l, Z.add_0_l, Z2Nat.id by lia.
  rewrite PaintFacts.cover_cons. unfold Paint.in_tile. cbn [fst snd].
  change (Paint.cover [] i) with 0%nat.
  destruct (Z.leb_spec 0 i); destruct (Z.ltb_spec i (J * Pstep));
    destruct (Z.leb_spec (Max - Pstep + 1) i); destruct (Z.ltb_spec i Max);
    cbn; try reflexivity; lia.
Qed.

Lemma grid_tiles_in_bounds (Pstep Max : Z) (s e : Z) :
  let J := (Max - 1) / Pstep in
  1 <= Pstep <= Max ->
  In (s, e) (PaintSpec.grid Pstep 0 (Z.to_nat J) ++ [(Max - Pstep + 1, Max)]) ->
  0 <= s /\ e <= Max.
Proof.
  intros J HP Hin.
  pose proof (PaintFacts.J_bounds Pstep Max ltac:(lia) ltac:(lia)) as (HJ0 & HJ1 & _).
  fold J in HJ0, HJ1.
  apply in_app_or in Hin as [Hin|[Hin|[]]].
  - unfold PaintSpec.grid in Hin. apply in_map_iff in Hin as (j & E & Hj).
    apply in_seq in Hj. injection E as <- <-. split; [lia|].
    assert (Z.of_nat j + 1 <= J) by lia. nia.
  - injection Hin as <- <-. lia.
Qed.

(** What the set-up of a render leaves for the thread, under the
    conditions of the two statements below. *)
Lemma render_set_up (fuel : nat) (g : Z) (p : App.Params)
    (right bottom tmHeight : Z) :
  let height := bottom - tmHeight in
  let Max := height * right in
  let Pstep := Max / App.Slices p in
  let J := (Max - 1) / Pstep in
  1 <= right -> 1 <= height -> Max <= 2 ^ 30 ->
  1 <= App.Slices p <= Max ->
  J + 1 <= Z.of_nat fuel ->
  Int32.sub bottom tmHeight = height /\
  Int32.wrap (right * height) = Max /\
  Paint.MaxPixel right height = Max /\
  1 <= Pstep <= Max /\ 0 <= J /\
  exists wq cs,
    Paint.build_queue fuel g Max (App.Slices p) = Some wq /\
    WorkQueueRep.repr wq cs /\
    rev cs.*2 = PaintSpec.grid Pstep 0 (Z.to_nat J) ++ [(Max - Pstep + 1, Max)] /\
    length cs = S (Z.to_nat J).
Proof.
  intros height Max Pstep J Hw Hh HM HS Hfuel.
  assert (Hhm : height <= Max) by (unfold Max; nia).
  assert (HP : 1 <= Pstep <= Max).
  { unfold Pstep. split.
    - apply Z.div_le_lower_bound; lia.
    - apply Z.div_le_upper_bound; nia. }
  pose proof (PaintFacts.J_bounds Pstep Max ltac:(lia) ltac:(lia)) as (HJ0 & _).
  fold J in HJ0.
  split; [|split; [|split; [|split; [exact HP|split; [exact HJ0|]]]]].
  - apply Int32Facts.wrap_id.
    unfold Int32.in_range, Int32.min_signed, Int32.max_signed. fold height. lia.
  - replace (right * height) with Max by (unfold Max; lia).
    apply Int32Facts.wrap_id.
    unfold Int32.in_range, Int32.min_signed, Int32.max_signed. lia.
  - unfold Paint.MaxPixel. apply Int32Facts.wrap_id.
    unfold Int32.in_range, Int32.min_signed, Int32.max_signed. fold Max. lia.
  - destruct (build_queue_grid fuel g Max (App.Slices p) HS HM ltac:(fold Pstep J; lia))
      as (wq & cs & Hb & Hr & Hcs).
    exists wq, cs. split; [exact Hb|]. split; [exact Hr|]. split; [exact Hcs|].
    apply (f_equal (@length _)) in Hcs.
    rewrite length_rev, length_fmap, length_app in Hcs.
    unfold PaintSpec.grid in Hcs. rewrite length_map, length_seq in Hcs.
    cbn in Hcs. fold Pstep J in Hcs. lia.
Qed.

(** X7: a render in the old RGB system on the FPU path, with a pool of one
    thread and nobody pressing ESC, for a client area of [right] columns
    and [bottom - tmHeight] rows (at most 2^30 pixels), at least one slice
    and no more slices than pixels.  It runs to its end without a fault:
    no pixel is stored outside the bitmap and every conversion has a value.
    Afterwards each pixel below [J * Pstep] and each pixel from
    [Max - Pstep + 1] on holds the colour of its own point, a value below
    2^24; each pixel in between was never stored to and still holds what
    the allocation left there. *)
Theorem render_rgb_one_thread (log : Double.t -> Double.t) (TTMath : Backend)
    (p : App.Params) (right bottom tmHeight g : Z) (cache : option Double.t)
    (fuel : nat) :
  let height := bottom - tmHeight in
  let Max := height * right in
  let Pstep := Max / App.Slices p in
  let J := (Max - 1) / Pstep in
  let TP := Render.thread_parameters p right bottom tmHeight in
  App.bUseHSV p = 0 -> App.bUseTTMath p = 0 ->
  1 <= App.Iterations p <= Int32.max_signed ->
  1 <= right -> 1 <= height -> Max <= 2 ^ 30 ->
  1 <= App.Slices p <= Max ->
  J + 1 <= Z.of_nat fuel ->
  exists bm,
    Render.render log TTMath fuel never g p right bottom tmHeight cache = Ret (bm, cache) /\
    Z.of_nat (length bm) = Max /\
    forall i, 0 <= i < Max ->
      if (i <? J * Pstep) || (Max - Pstep + 1 <=? i)
      then exists c, rgb_of_pixel TP i = Some c /\ 0 <= c < 2 ^ 24 /\
                     bm !! Z.to_nat i = Some (Some c)
      else bm !! Z.to_nat i = Some None.
Proof.
  intros height Max Pstep J TP Hhsv Htt Hit Hw Hh HM HS Hfuel.
  destruct (render_set_up fuel g p right bottom tmHeight Hw Hh HM HS Hfuel)
    as (Eh & Esz & Emax & HP & HJ0 & wq & cs & Hb & Hr & Hcs & Hlen).
  fold height Max Pstep J in Eh, Esz, Emax, HP, HJ0, Hb, Hcs, Hlen.
  unfold Render.render. rewrite Eh, Esz, Emax, Hhsv.
  destruct (Z.ltb_spec Max 0); [lia|].
  destruct (Z.eqb_spec (App.Slices p) 0); [lia|].
  rewrite Hb. fold TP.
  set (bm0 := replicate (Z.to_nat Max) None : Bitmap).
  assert (Hl0 : length bm0 = Z.to_nat Max) by apply length_replicate.
  destruct (thread_run log TTMath TP Htt Hw Hit cache never (length cs)
              (S fuel) 0%nat wq cs bm0 Hr ltac:(lia)) as (wq' & bm' & -> & Hr' & Hp').
  - intros s e Hin. cbn.
    destruct (grid_tiles_in_bounds Pstep Max s e HP) as [H1 H2].
    { fold J. rewrite <- Hcs. apply in_rev. rewrite rev_involutive.
      now apply list_elem_of_In. }
    rewrite Hl0. unfold Int32.max_signed. lia.
  - reflexivity.
  - now right.
  - lia.
  - rewrite Nat.sub_diag in Hr'. cbn [take] in Hr'.
    rewrite (WorkQueueLifetime.destructor_repr [] wq' (S fuel) Hr') by (cbn; lia).
    exists bm'. split; [reflexivity|].
    rewrite take_ge in Hp' by (rewrite length_rev, length_fmap; lia).
    rewrite Hcs in Hp'.
    destruct Hp' as (Hl' & Hp').
    split; [rewrite Hl', Hl0; lia|].
    intros i Hi. rewrite Hl0 in Hp'. rewrite (Hp' i) by lia.
    pose proof (cover_grid_last Pstep Max i HP Hi) as Hcov.
    cbv zeta in Hcov. fold J in Hcov. rewrite Hcov.
    destruct ((i <? J * Pstep) || (Max - Pstep + 1 <=? i)); cbn.
    + destruct (pixel_rgb log TTMath TP Htt Hw Hit cache i ltac:(lia))
        as (k & c & _ & _ & Hc & _ & Hcr).
      exists c. rewrite Hc. auto.
    + unfold bm0. apply lookup_replicate_2. lia.
Qed.

Lemma render_rgb_one_thread_witness :
  exists bm,
    Render.render (fun x => x) FPU 3 never 0 small 3 4 1 None = Ret (bm, None) /\
    Z.of_nat (length bm) = 9 /\
    bm !! 6%nat = Some None /\
    exists c, bm !! 7%nat = Some (Some c).
Proof.
  destruct (render_rgb_one_thread (fun x => x) FPU small 3 4 1 0 None 3)
    as (bm & Hr & Hl & Hb); try reflexivity; try (cbn; unfold Int32.max_signed; lia).
  exists bm. split; [exact Hr|]. split; [exact Hl|]. split.
  - exact (Hb 6 ltac:(cbn; lia)).
  - destruct (Hb 7 ltac:(cbn; lia)) as (c & _ & _ & Hc). exists c. exact Hc.
Defined.

(** X8: a render with a pool of one thread when ESC is pressed while work
    is left, in either colour system and on either arithmetic path, for a
    client area of [right] columns and [bottom - tmHeight] rows (at most
    2^30 pixels), a budget of at least 1, at least one slice and no more
    slices than pixels.  When the thread finds the abort flag set at its
    read number [n], having done [n] work items with at least one still in
    the queue, it returns, and [delete wq] then runs the destructor on a
    queue that is not empty: the render ends in a write through a null
    pointer. *)
Theorem render_abort_faults (log : Double.t -> Double.t) (TTMath : Backend)
    (p : App.Params) (right bottom tmHeight g : Z) (cache : option Double.t)
    (fuel n : nat) :
  let height := bottom - tmHeight in
  let Max := height * right in
  let Pstep := Max / App.Slices p in
  let J := (Max - 1) / Pstep in
  App.Threads p = 1 ->
  1 <= App.Iterations p <= Int32.max_signed ->
  1 <= right -> 1 <= height -> Max <= 2 ^ 30 ->
  1 <= App.Slices p <= Max ->
  J + 1 <= Z.of_nat fuel ->
  Z.of_nat n <= J ->
  Render.render log TTMath fuel (abort_from n) g p right bottom tmHeight cache = Fault.
Proof.
  intros height Max Pstep J _ Hit Hw Hh HM HS Hfuel Hn.
  destruct (render_set_up fuel g p right bottom tmHeight Hw Hh HM HS Hfuel)
    as (Eh & Esz & Emax & HP & HJ0 & wq & cs & Hb & Hr & Hcs & Hlen).
  fold height Max Pstep J in Eh, Esz, Emax, HP, HJ0, Hb, Hcs, Hlen.
  unfold Render.render. rewrite Eh, Esz, Emax.
  destruct (Z.ltb_spec Max 0); [lia|].
  destruct (Z.eqb_spec (App.Slices p) 0); [lia|].
  rewrite Hb.
  set (TP := Render.thread_parameters p right bottom tmHeight).
  set (bm0 := replicate (Z.to_nat Max) None : Bitmap).
  assert (Hl0 : length bm0 = Z.to_nat Max) by apply length_replicate.
  destruct (thread_returns log TTMath TP (App.bUseHSV p) Hw Hit (abort_from n) n
              (S fuel) 0%nat wq cs bm0 cache Hr ltac:(lia))
    as (wq' & bm' & cache' & -> & Hr' & _).
  - intros s e Hin. cbn.
    destruct (grid_tiles_in_bounds Pstep Max s e HP) as [H1 H2].
    { fold J. rewrite <- Hcs. apply in_rev. rewrite rev_involutive.
      now apply list_elem_of_In. }
    rewrite Hl0. unfold Int32.max_signed. lia.
  - intros j Hj. unfold abort_from. cbn. apply Nat.leb_gt. lia.
  - left. unfold abort_from. cbn. apply Nat.leb_le. lia.
  - lia.
  - rewrite (WorkQueueLifetime.destructor_repr _ wq' (S fuel) Hr')
      by (rewrite length_take; lia).
    destruct (take (length cs - n) cs) eqn:Et; [|reflexivity].
    apply (f_equal (@length _)) in Et. rewrite length_take in Et. cbn in Et. lia.
Qed.

Lemma render_abort_faults_witness :
  Render.render (fun x => x) FPU 3 (abort_from 2) 0 small 3 4 1 None = Fault.
Proof.
  apply (render_abort_faults (fun x => x) FPU small 3 4 1 0 None 3 2);
    try reflexivity; cbn; unfold Int32.max_signed; lia.
Defined.
End RenderFacts.

(** ** The window procedure *)

Module WndProcFacts.
Import App WndProc WndProcSpec.

(** Every handler but the right click either leaves the parameters and
    the recall stack alone or pushes the viewport in force. *)
Lemma Parameters_pushes (IDOKs : list DialogInput) (a : State) :
  Parameters IDOKs a = a \/ qds (Parameters IDOKs a) = push (params a) (qds a).
Proof.
  induction IDOKs as [|d rest IH]; cbn [Parameters]; [now left|].
  unfold IDOK. destruct (dialog_checks d); [exact IH|]. now right.
Qed.

Lemma ID_FILE_OPEN_pushes (f : FileReads) (a : State) :
  ID_FILE_OPEN f a = a \/ qds (ID_FILE_OPEN f a) = push (params a) (qds a).
Proof.
  unfold ID_FILE_OPEN. destruct (read_record f) as [tmp|]; [|now left].
  destruct (file_bounds_violated tmp); [now left|now right].
Qed.

Lemma handler_pushes (e : Env) (m : Msg) (w : Wnd) :
  m <> WM_RBUTTONDOWN ->
  app (WndProc e m w).1 = app w \/
  qds (app (WndProc e m w).1) = push (params (app w)) (qds (app w)).
Proof.
  intros Hm. destruct m; cbn [WndProc]; try contradiction.
  - unfold OnPaint. destruct (bHoldPainting w); now left.
  - now left.
  - unfold OnKeyUp. destruct (_ =? _); now left.
  - now right.
  - now left.
  - unfold OnMouseMove. destruct (LeftMouseButtonDown w); now left.
  - unfold OnLButtonUp. destruct (LeftMouseButtonDown w); cbn [negb]; [|now left].
    destruct (_ && _); [now right|]. destruct (_ || _); [now left|now right].
  - cbn. apply ID_FILE_OPEN_pushes.
  - cbn. apply Parameters_pushes.
Qed.

(** X9: right click is the undo of every other way to change the
    viewport.  Whatever message is handled (wheel zoom, click, drag, File
    Open, the parameters dialog, ...), either the parameters and the recall
    stack are as before, or a right click straight afterwards puts the
    four coordinates and the recall stack back exactly; the other
    parameters stay as the message left them. *)
Theorem right_click_undoes (e e' : Env) (m : Msg) (w : Wnd)
    (Hm : m <> WM_RBUTTONDOWN) :
  let w1 := (WndProc e m w).1 in
  let w2 := (WndProc e' WM_RBUTTONDOWN w1).1 in
  app w1 = app w \/
  (viewport (params (app w2)) = viewport (params (app w)) /\
   qds (app w2) = qds (app w) /\
   settings (params (app w2)) = settings (params (app w1))).
Proof.
  intros w1 w2. destruct (handler_pushes e m w Hm) as [H|H]; [now left|right].
  fold w1 in H. unfold w2. cbn [WndProc]. unfold OnRButtonDown. rewrite H.
  unfold push. cbn. destruct (params (app w)). repeat split.
Qed.

Lemma right_click_undoes_witness :
  let e := mkEnv (mkRECT 0 0 800 620) 20 in
  let w1 := (WndProc e (WM_MOUSEWHEEL (mkPOINT 400 300) (-120)) start).1 in
  let w2 := (WndProc e WM_RBUTTONDOWN w1).1 in
  app w1 <> app start /\
  viewport (params (app w2)) = viewport initial /\ qds (app w2) = [].
Proof.
  intros e w1 w2. split; [intros H; apply (f_equal qds) in H; discriminate|].
  destruct (right_click_undoes e e (WM_MOUSEWHEEL (mkPOINT 400 300) (-120)) start
              ltac:(discriminate)) as [H|(H1 & H2 & _)].
  - apply (f_equal qds) in H. discriminate.
  - split; [exact H1|exact H2].
Defined.

(** Mouse moves keep the parameters, the stack and the button state. *)
Lemma moves_keep (es : list (Env * POINT)) : forall w,
  let w' := (session (map (fun ep => (ep.1, WM_MOUSEMOVE ep.2)) es) w).1 in
  app w' = app w /\ LeftMouseButtonDown w' = LeftMouseButtonDown w.
Proof.
  induction es as [|[e pt] es IH]; intros w; [now split|].
  cbn [map session fst snd WndProc].
  destruct (OnMouseMove e pt w) as [w1 out1] eqn:E1.
  specialize (IH w1). cbn zeta in IH.
  destruct (session _ w1) as [w2 out2]. cbn [fst] in *.
  unfold OnMouseMove in E1.
  destruct (LeftMouseButtonDown w) eqn:Eb; injection E1 as <- _; cbn in IH |- *.
  - destruct IH as [-> ->]. now split.
  - destruct IH as [-> ->]. now split.
Qed.

Lemma session_app (ms1 ms2 : list (Env * Msg)) : forall w,
  (session (ms1 ++ ms2) w).1 = (session ms2 (session ms1 w).1).1.
Proof.
  induction ms1 as [|[e m] ms1 IH]; intros w; [reflexivity|].
  cbn [List.app session]. destruct (WndProc e m w) as [w1 out1].
  specialize (IH w1).
  destruct (session (ms1 ++ ms2) w1) as [w2 out2].
  destruct (session ms1 w1) as [w3 out3]. exact IH.
Qed.

(** X10: Esc cancels a drag.  After a press of the left button, any mouse
    moves, and Esc, the release of the button changes neither the
    parameters nor the recall stack, wherever it happens. *)
Theorem escape_cancels_drag (e1 e2 e3 : Env) (org up : POINT)
    (moves : list (Env * POINT)) (w : Wnd) :
  let ms := [(e1, WM_LBUTTONDOWN org)]
            ++ map (fun ep => (ep.1, WM_MOUSEMOVE ep.2)) moves
            ++ [(e2, WM_KEYDOWN VK_ESCAPE); (e3, WM_LBUTTONUP up)] in
  app (session ms w).1 = app w /\
  LeftMouseButtonDown (session ms w).1 = false.
Proof.
  intros ms. unfold ms. rewrite !session_app.
  set (w1 := (session [(e1, WM_LBUTTONDOWN org)] w).1).
  destruct (moves_keep moves w1) as [Ha Hb].
  set (w2 := (session _ w1).1) in *.
  cbn [session WndProc fst snd].
  unfold OnLButtonUp, OnKeyDown. cbn.
  rewrite Hb. cbn. rewrite Ha. now split.
Qed.

(** X11: where a drag can end.  The text metric and rectangle being
    those of a client area with at least one image pixel, the position
    taken for the end of a drag lies inside the image, wherever the mouse
    is; the box it spans with an origin inside the image lies inside the
    image, its corners in order. *)
Theorem drag_box_in_image (e : Env) (lParam org : POINT)
    (Hint : Int32.in_range (right (rect e) - 1) /\
            Int32.in_range (bottom (rect e) - tmHeight e) /\
            Int32.in_range (bottom (rect e) - tmHeight e - 1))
    (Hx : left (rect e) <= right (rect e) - 1)
    (Hy : top (rect e) <= bottom (rect e) - tmHeight e - 1) :
  let dest := destination e lParam in
  in_image e dest /\
  (in_image e org ->
   let lxMin := min (x org) (x dest) in
   let lxMax := max (x org) (x dest) in
   let lyMin := min (y org) (y dest) in
   let lyMax := max (y org) (y dest) in
   left (rect e) <= lxMin <= lxMax /\ lxMax <= right (rect e) - 1 /\
   top (rect e) <= lyMin <= lyMax /\ lyMax <= bottom (rect e) - tmHeight e - 1).
Proof.
  destruct Hint as (H1 & H2 & H3).
  cbv zeta. unfold destination, in_image. cbn [x y].
  unfold Int32.sub. rewrite (Int32Facts.wrap_id _ H1), (Int32Facts.wrap_id _ H2),
    (Int32Facts.wrap_id _ H3).
  unfold min, max. rewrite !Z.gtb_ltb.
  split; [|intros [Hox Hoy]];
    repeat match goal with
           | |- context [?a <? ?b] => destruct (Z.ltb_spec a b)
           end; lia.
Qed.

Lemma drag_box_in_image_witness :
  let e := mkEnv (mkRECT 0 0 800 620) 20 in
  in_image e (destination e (mkPOINT 5000 (-30))) /\
  destination e (mkPOINT 5000 (-30)) = mkPOINT 799 0.
Proof.
  intros e. split; [|reflexivity].
  apply (drag_box_in_image e (mkPOINT 5000 (-30)) (mkPOINT 0 0)); cbn;
    unfold Int32.in_range, Int32.min_signed, Int32.max_signed; lia.
Defined.

(** While shift is down nothing is rendered, and the flag remembers a
    suppressed paint. *)
Lemma held_session (mid : list (Env * Msg)) : forall w,
  bHoldPainting w = true ->
  forallb (fun em => negb (is_shift_up em.2)) mid = true ->
  let r := session mid w in
  bHoldPainting r.1 = true /\
  bPaintingHeld r.1 = bPaintingHeld w || existsb (fun em => is_paint em.2) mid /\
  forallb (fun f => negb (is_render f)) r.2 = true.
Proof.
  induction mid as [|[e m] mid IH]; intros w Hh Hmid.
  - cbn. rewrite orb_false_r. auto.
  - cbn [forallb] in Hmid. apply andb_true_iff in Hmid as [Hm Hmid].
    cbn [session].
    assert (Hstep : bHoldPainting (WndProc e m w).1 = true /\
                    bPaintingHeld (WndProc e m w).1 = bPaintingHeld w || is_paint m /\
                    forallb (fun f => negb (is_render f)) (WndProc e m w).2 = true).
    { destruct m; cbn [WndProc is_paint]; rewrite ?orb_false_r.
      - unfold OnPaint. rewrite Hh. cbn. now rewrite orb_true_r.
      - unfold OnKeyDown. cbn. rewrite Hh.
        destruct (wParam =? VK_SHIFT); destruct (_ && _); cbn; auto.
      - unfold OnKeyUp. cbn in Hm. destruct (wParam =? VK_SHIFT); [discriminate|].
        cbn. auto.
      - cbn. auto.
      - unfold OnRButtonDown. destruct (qds (app w)); cbn; auto.
      - cbn. auto.
      - unfold OnMouseMove. destruct (LeftMouseButtonDown w); cbn; auto.
      - unfold OnLButtonUp. destruct (LeftMouseButtonDown w); cbn; auto.
        destruct (_ && _); cbn; auto. destruct (_ || _); cbn; auto.
      - cbn. split; [exact Hh|]. split; [reflexivity|].
        destruct (read_record f) as [tmp|]; [|reflexivity].
        destruct (file_bounds_violated tmp); reflexivity.
      - cbn. auto. }
    destruct (WndProc e m w) as [w1 out1]. cbn [fst snd] in Hstep.
    destruct Hstep as (Hh1 & Hp1 & Ho1).
    specialize (IH w1 Hh1 Hmid). cbn zeta in IH.
    destruct (session mid w1) as [w2 out2]. cbn [fst snd] in *.
    destruct IH as (Hh2 & Hp2 & Ho2).
    split; [exact Hh2|]. split.
    + rewrite Hp2, Hp1. cbn [existsb snd]. now rewrite orb_assoc.
    + rewrite forallb_app, Ho1, Ho2. reflexivity.
Qed.

(** X12: holding shift holds painting.  From the press of shift to its
    release no message renders the image, whatever arrives in between;
    the release asks for a repaint exactly when a paint message arrived
    in between (or one was already being held), and it clears both flags. *)
Theorem shift_holds_painting (e1 e2 : Env) (mid : list (Env * Msg)) (w : Wnd)
    (Hmid : forallb (fun em => negb (is_shift_up em.2)) mid = true) :
  let w1 := (WndProc e1 (WM_KEYDOWN VK_SHIFT) w).1 in
  let r := session mid w1 in
  let up := WndProc e2 (WM_KEYUP VK_SHIFT) r.1 in
  forallb (fun f => negb (is_render f)) r.2 = true /\
  up.2 = (if bPaintingHeld w || existsb (fun em => is_paint em.2) mid
          then [InvalidateRect] else []) /\
  bHoldPainting up.1 = false /\ bPaintingHeld up.1 = false.
Proof.
  intros w1 r up.
  destruct (held_session mid w1 eq_refl Hmid) as (_ & Hp & Ho).
  fold r in Hp, Ho. split; [exact Ho|].
  unfold up. cbn [WndProc]. unfold OnKeyUp. cbn. rewrite Hp. auto.
Qed.

Lemma shift_holds_painting_witness :
  let e := mkEnv (mkRECT 0 0 800 620) 20 in
  let mid := [(e, WM_PAINT); (e, WM_MOUSEWHEEL (mkPOINT 1 1) 120); (e, WM_PAINT)] in
  (session ((e, WM_KEYDOWN VK_SHIFT) :: mid ++ [(e, WM_KEYUP VK_SHIFT)]) start).2
  = [InvalidateRect; InvalidateRect] /\
  (WndProc e (WM_KEYUP VK_SHIFT)
     (session mid (WndProc e (WM_KEYDOWN VK_SHIFT) start).1).1).2 = [InvalidateRect].
Proof.
  intros e mid. split; [reflexivity|].
  exact (proj1 (proj2 (shift_holds_painting e e mid start eq_refl))).
Defined.
End WndProcFacts.

(** ** Saving and opening a parameter file *)

Module ParameterFileFacts.
Import App ParameterFile ParameterFileSpec.

Lemma byte_of_value (z : Z) : Z.of_N (Byte.to_N (byte_of z)) = z mod 256.
Proof.
  unfold byte_of.
  pose proof (Z.mod_pos_bound z 256 ltac:(lia)) as Hb.
  destruct (Byte.of_N (Z.to_N (z mod 256))) as [b|] eqn:E; cbn.
  - apply Byte.to_of_N in E. rewrite E. apply Z2N.id. lia.
  - apply Byte.of_N_None_iff in E. lia.
Qed.

Lemma length_le_bytes (n : nat) : forall z, length (le_bytes n z) = n.
Proof. induction n as [|n IH]; intros z; cbn; [reflexivity|now rewrite IH]. Qed.

Lemma le_value_le_bytes (n : nat) : forall z,
  le_value (le_bytes n z) = z mod 256 ^ Z.of_nat n.
Proof.
  induction n as [|n IH]; intros z.
  - cbn. now rewrite Z.mod_1_r.
  - cbn [le_bytes]. unfold le_value in *. cbn [fold_right].
    rewrite IH, byte_of_value.
    rewrite Nat2Z.inj_succ, Z.pow_succ_r by lia.
    rewrite Z.rem_mul_r by lia. reflexivity.
Qed.

Lemma bytes_int_bytes (i : Z) : Int32.in_range i -> bytes_int (int_bytes i) = i.
Proof.
  unfold Int32.in_range, Int32.min_signed, Int32.max_signed.
  intros Hi. unfold bytes_int, int_bytes. rewrite le_value_le_bytes.
  unfold UInt32.wrap, Int32.wrap.
  change (256 ^ Z.of_nat 4) with (2 ^ 32).
  rewrite Z.mod_mod by lia.
  change (2 ^ 32) with 4294967296 in *. change (2 ^ 31) with 2147483648 in *.
  Z.to_euclidean_division_equations. lia.
Qed.

(** The three fields of a 64-bit pattern. *)
Lemma fields (S E M : Z) :
  0 <= S <= 1 -> 0 <= E < 2 ^ 11 -> 0 <= M < 2 ^ 52 ->
  let z := S * 2 ^ 63 + E * 2 ^ 52 + M in
  0 <= z < 2 ^ 64 /\
  Z.testbit z 63 = (S =? 1) /\ (z / 2 ^ 52) mod 2 ^ 11 = E /\ z mod 2 ^ 52 = M.
Proof.
  intros HS HE HM z.
  assert (Hz : 0 <= z < 2 ^ 64) by (unfold z; lia).
  assert (Hd : z / 2 ^ 52 = S * 2 ^ 11 + E).
  { symmetry. apply (Z.div_unique z (2 ^ 52) _ M); [lia|]. unfold z. lia. }
  split; [exact Hz|]. split; [|split].
  - rewrite Z.testbit_eqb by lia.
    assert (Hq : z / 2 ^ 63 = S).
    { symmetry. apply (Z.div_unique z (2 ^ 63) _ (E * 2 ^ 52 + M)); [lia|]. unfold z. lia. }
    rewrite Hq. destruct HS. assert (S = 0 \/ S = 1) as [->| ->] by lia; reflexivity.
  - rewrite Hd. symmetry. apply (Z.mod_unique _ _ S); lia.
  - symmetry. apply (Z.mod_unique _ _ (S * 2 ^ 11 + E)); [lia|]. unfold z. lia.
Qed.

Lemma sign_bit_field (s : bool) :
  Double.sign_bit s = (if s then 1 else 0) * 2 ^ 63 /\ 0 <= (if s then 1 else 0) <= 1 /\
  ((if s then 1 else 0) =? 1) = s.
Proof. destruct s; cbn; lia. Qed.

Lemma of_fields (S E M : Z) :
  0 <= S <= 1 -> 0 <= E < 2 ^ 11 -> 0 <= M < 2 ^ 52 ->
  let z := S * 2 ^ 63 + E * 2 ^ 52 + M in
  0 <= z < 2 ^ 64 /\
  Double.of_bits z =
    if E =? 0 then
      if M =? 0 then S754_zero (S =? 1) else S754_finite (S =? 1) (Z.to_pos M) (-1074)
    else if E =? 2047 then
      if M =? 0 then S754_infinity (S =? 1) else S754_nan
    else S754_finite (S =? 1) (Z.to_pos (M + 2 ^ 52)) (E - 1075).
Proof.
  intros HS HE HM z.
  destruct (fields S E M HS HE HM) as (Hz & Hs & He & Hm). fold z in Hz, Hs, He, Hm.
  split; [exact Hz|]. unfold Double.of_bits. cbv zeta. now rewrite Hs, He, Hm.
Qed.

(** A [double] stored and loaded again is the same number. *)
Lemma of_bits_bits (d : Double.t) :
  Double.valid d -> 0 <= Double.bits d < 2 ^ 64 /\ Double.of_bits (Double.bits d) = d.
Proof.
  intros Hv. destruct d as [s|s| |s m e]; unfold Double.bits.
  - destruct (sign_bit_field s) as (-> & HS & Es).
    destruct (of_fields _ 0 0 HS ltac:(lia) ltac:(lia)) as [Hz Ho]. cbv zeta in Hz, Ho.
    rewrite Z.mul_0_l, !Z.add_0_r in Hz, Ho. split; [exact Hz|].
    rewrite Ho, Es. reflexivity.
  - destruct (sign_bit_field s) as (-> & HS & Es).
    destruct (of_fields _ 2047 0 HS ltac:(lia) ltac:(lia)) as [Hz Ho]. cbv zeta in Hz, Ho.
    rewrite !Z.add_0_r in Hz, Ho. split; [exact Hz|].
    rewrite Ho, Es. reflexivity.
  - split; [lia|]. reflexivity.
  - unfold Double.valid in Hv. cbn [valid_binary] in Hv.
    unfold bounded, canonical_mantissa, fexp, emin, Double.prec, Double.emax in Hv.
    apply andb_true_iff in Hv as [Hc He].
    apply Z.eqb_eq in Hc. apply Z.leb_le in He.
    pose proof (DoubleFacts.digits2_pos_bounds m) as [Dlo Dhi].
    set (D := Z.pos (digits2_pos m)) in *.
    assert (HD : 0 < D) by (unfold D; lia).
    destruct (sign_bit_field s) as (-> & HS & Es).
    destruct (Z.ltb_spec (Z.pos m) (2 ^ 52)) as [Hm|Hm].
    + assert (D <= 52).
      { destruct (Z.le_gt_cases D 52); [assumption|].
        assert (2 ^ 52 <= 2 ^ (D - 1)) by (apply Z.pow_le_mono_r; lia). lia. }
      assert (e = -1074) by lia. subst e.
      destruct (of_fields _ 0 (Z.pos m) HS ltac:(lia) ltac:(lia)) as [Hz Ho].
      cbv zeta in Hz, Ho. rewrite Z.mul_0_l, Z.add_0_r in Hz, Ho.
      split; [exact Hz|]. rewrite Ho, Es. cbn. reflexivity.
    + assert (53 <= D).
      { destruct (Z.le_gt_cases 53 D); [assumption|].
        assert (2 ^ D <= 2 ^ 52) by (apply Z.pow_le_mono_r; lia). lia. }
      assert (D = 53) by lia.
      assert (Z.pos m < 2 ^ 53) by (replace 53 with D by assumption; exact Dhi).
      assert (-1074 <= e) by lia.
      destruct (of_fields _ (e + 1075) (Z.pos m - 2 ^ 52) HS ltac:(lia) ltac:(lia))
        as [Hz Ho].
      cbv zeta in Hz, Ho.
      split; [exact Hz|]. rewrite Ho, Es.
      destruct (Z.eqb_spec (e + 1075) 0); [lia|].
      destruct (Z.eqb_spec (e + 1075) 2047); [lia|].
      f_equal; [|lia]. replace (Z.pos m - 2 ^ 52 + 2 ^ 52) with (Z.pos m) by lia.
      reflexivity.
Qed.

Lemma bytes_double_bytes (d : Double.t) :
  Double.valid d -> bytes_double (double_bytes d) = d.
Proof.
  intros Hv. destruct (of_bits_bits d Hv) as [Hr Ho].
  unfold bytes_double, double_bytes. rewrite le_value_le_bytes.
  change (256 ^ Z.of_nat 8) with (2 ^ 64). now rewrite Z.mod_small.
Qed.

(** The ten reads on a file that opened: no call fails, and the
    temporaries end up holding the bytes of the file as far as they go,
    and behind them what the stack held. *)
Lemma reads_file_then_stack (file : list Byte.byte) (stack : Temporaries) :
  read_record (reads (Open file) no_error stack)
  = Some (record_of_bytes (file_then_stack file stack)).
Proof.
  unfold file_then_stack, stack_bytes, temporary.
  do 56 (destruct file as [|? file]; [reflexivity|]).
  cbn [length drop take map seq app]. rewrite drop_nil, app_nil_r.
  reflexivity.
Qed.

Lemma record_of_record_bytes (p : Params) :
  values p -> record_of_bytes (record_bytes p) = p.
Proof.
  intros (H1 & H2 & H3 & H4 & H5 & H6 & H7 & H8 & H9 & H10).
  destruct p as [x1 x2 y1 y2 it sl th ax hs tt]. cbn [dxMin dxMax dyMin dyMax
    Iterations Slices Threads bShowAxes bUseHSV bUseTTMath] in *.
  transitivity
    (mkParams (bytes_double (double_bytes x1)) (bytes_double (double_bytes x2))
       (bytes_double (double_bytes y1)) (bytes_double (double_bytes y2))
       (bytes_int (int_bytes it)) (bytes_int (int_bytes sl)) (bytes_int (int_bytes th))
       (bytes_int (int_bytes ax)) (bytes_int (int_bytes hs)) (bytes_int (int_bytes tt)));
    [reflexivity|].
  now rewrite !bytes_double_bytes, !bytes_int_bytes.
Qed.

Lemma file_then_stack_complete (p : Params) (stack : Temporaries) :
  file_then_stack (record_bytes p) stack = record_bytes p.
Proof. reflexivity. Qed.

(** What [write_all] leaves: everything when no call fails, and otherwise
    a leading part. *)
Lemma write_all_result (WriteFile : nat -> bool) (written : nat)
    (fs : list (list Byte.byte)) :
  forall (n : nat) (file : list Byte.byte),
  match write_all WriteFile written n fs file with
  | (true, out) =>
      (forall k : nat, (n <= k < n + length fs)%nat -> WriteFile k = true) /\
      out = file ++ concat fs
  | (false, out) =>
      (exists k : nat, (n <= k < n + length fs)%nat /\ WriteFile k = false) /\
      out `prefix_of` (file ++ concat fs)
  end.
Proof.
  induction fs as [|f fs IH]; intros n file; cbn [write_all length concat].
  - split; [lia|]. now rewrite app_nil_r.
  - destruct (WriteFile n) eqn:En.
    + specialize (IH (S n) (file ++ f)).
      destruct (write_all WriteFile written (S n) fs (file ++ f)) as [[|] out].
      * destruct IH as [Hall ->]. split; [|now rewrite <- app_assoc].
        intros k Hk. destruct (Nat.eq_dec k n) as [->|]; [exact En|]. apply Hall. lia.
      * destruct IH as [(k & Hk & Hf) Hpre]. split.
        -- exists k. split; [lia|exact Hf].
        -- now rewrite <- app_assoc in Hpre.
    + split.
      * exists n. split; [lia|exact En].
      * exists (drop written f ++ concat fs).
        rewrite <- app_assoc, (app_assoc (take written f)), take_drop. reflexivity.
Qed.

Lemma SFcompare_swap (a b : Double.t) :
  SFcompare b a = CompOpp <$> SFcompare a b.
Proof.
  destruct a as [sa|sa| |sa ma ea], b as [sb|sb| |sb mb eb]; cbn;
    try reflexivity; try (destruct sa; reflexivity); try (destruct sb; reflexivity);
    try (destruct sa, sb; reflexivity).
  f_equal. rewrite (Z.compare_antisym ea eb).
  change (PosDef.Pos.compare_cont Eq mb ma) with (Pos.compare mb ma).
  change (PosDef.Pos.compare_cont Eq ma mb) with (Pos.compare ma mb).
  rewrite (Pos.compare_antisym ma mb).
  destruct sa, sb; cbn; try reflexivity;
    destruct (ea ?= eb); cbn; reflexivity.
Qed.

(** The test [a >= b] is false when [a < b] and when one of the two is
    not a number. *)
Lemma ge_false (a b : Double.t) :
  Double.ge a b = false <->
  Double.lt a b = true \/ Double.is_nan a = true \/ Double.is_nan b = true.
Proof.
  unfold Double.ge, Double.lt, SFleb, SFltb. rewrite (SFcompare_swap a b).
  assert (Hn : SFcompare a b = None <->
               Double.is_nan a = true \/ Double.is_nan b = true).
  { destruct a, b; cbn; split; intros H; try discriminate; auto;
      destruct H; discriminate. }
  destruct (SFcompare a b) as [[| |]|]; cbn.
  - split; [discriminate|]. intros [?|H]; [discriminate|].
    apply Hn in H. discriminate.
  - split; auto.
  - split; [discriminate|]. intros [?|H]; [discriminate|].
    apply Hn in H. discriminate.
  - split; [intros _; right; now apply Hn|reflexivity].
Qed.

(** C9: a parameter file that ends early is not rejected as such.  Every
    [ReadFile] call on a file that opened returns [TRUE], also at the end
    of the file, and the handler does not ask how many bytes were read: the
    temporaries hold the bytes of the file as far as they go and, behind
    them, what the uninitialised variables held before.  When these values
    pass the bounds check they replace the parameters in force. *)
Theorem ID_FILE_OPEN_accepts_short_file (file : list Byte.byte)
    (stack : Temporaries) (st : State)
    (Hshort : (length file < 56)%nat)
    (Hbounds : file_bounds_violated (record_of_bytes (file_then_stack file stack)) = false) :
  read_record (reads (Open file) no_error stack)
    = Some (record_of_bytes (file_then_stack file stack)) /\
  ID_FILE_OPEN (reads (Open file) no_error stack) st
    = installed (record_of_bytes (file_then_stack file stack)) st.
Proof.
  pose proof (reads_file_then_stack file stack) as Hr.
  split; [exact Hr|]. now apply AppFacts.ID_FILE_OPEN_accepts.
Qed.

Lemma ID_FILE_OPEN_accepts_short_file_witness :
  (length (take 44 (record_bytes RenderSpec.small)) < 56)%nat /\
  ID_FILE_OPEN (reads (Open (take 44 (record_bytes RenderSpec.small))) no_error
                  (stack_holding initial))
    {| params := initial; qds := [] |}
  = installed (with_flags 0 1 0 RenderSpec.small) {| params := initial; qds := [] |}.
Proof.
  split; [cbn; lia|].
  assert (E : record_of_bytes (file_then_stack (take 44 (record_bytes RenderSpec.small))
                                 (stack_holding initial))
              = with_flags 0 1 0 RenderSpec.small) by (vm_compute; reflexivity).
  rewrite <- E.
  apply (ID_FILE_OPEN_accepts_short_file (take 44 (record_bytes RenderSpec.small))
           (stack_holding initial) {| params := initial; qds := [] |}).
  - cbn. lia.
  - rewrite E. reflexivity.
Defined.

(** A file that ends before the three flags is accepted whatever the
    stack holds, and the flags become what the stack held. *)
Lemma ID_FILE_OPEN_without_flags (p : Params) (stack : Temporaries) (st : State) :
  values p -> file_bounds_violated p = false ->
  ID_FILE_OPEN (reads (Open (take 44 (record_bytes p))) no_error stack) st
  = installed (with_flags (bytes_int (temporary stack 7 4))
                          (bytes_int (temporary stack 8 4))
                          (bytes_int (temporary stack 9 4)) p) st.
Proof.
  intros (H1 & H2 & H3 & H4 & H5 & H6 & H7 & _) Hb.
  apply AppFacts.ID_FILE_OPEN_accepts.
  - rewrite reads_file_then_stack. f_equal.
    destruct p as [x1 x2 y1 y2 it sl th ax hs tt]. cbn [dxMin dxMax dyMin dyMax
      Iterations Slices Threads bShowAxes bUseHSV bUseTTMath] in *.
    transitivity
      (mkParams (bytes_double (double_bytes x1)) (bytes_double (double_bytes x2))
         (bytes_double (double_bytes y1)) (bytes_double (double_bytes y2))
         (bytes_int (int_bytes it)) (bytes_int (int_bytes sl)) (bytes_int (int_bytes th))
         (bytes_int (temporary stack 7 4)) (bytes_int (temporary stack 8 4))
         (bytes_int (temporary stack 9 4)));
      [reflexivity|].
    now rewrite !bytes_double_bytes, !bytes_int_bytes.
  - exact Hb.
Qed.

(** An empty file, when the temporaries happen to hold acceptable
    values. *)
Example ID_FILE_OPEN_empty_file :
  ID_FILE_OPEN (reads (Open []) no_error (stack_holding RenderSpec.small))
    {| params := initial; qds := [] |}
  = installed RenderSpec.small {| params := initial; qds := [] |}.
Proof. vm_compute. reflexivity. Qed.

(** Saving, with the file created. *)
Lemma saved (WriteFile : nat -> bool) (written : nat) (p : Params) :
  match ID_FILE_SAVE true WriteFile written p with
  | (Some file, None) => all_writes_succeed WriteFile /\ file = record_bytes p
  | (Some file, Some m) =>
      m = Error_writing_file /\
      (exists n : nat, (n < 10)%nat /\ WriteFile n = false) /\
      file `prefix_of` record_bytes p
  | (None, _) => False
  end.
Proof.
  unfold ID_FILE_SAVE.
  pose proof (write_all_result WriteFile written (record_fields p) 0 []) as H.
  destruct (write_all WriteFile written 0 (record_fields p) []) as [[|] out].
  - destruct H as [Hall ->]. split; [|reflexivity].
    intros n Hn. apply Hall. cbn. lia.
  - destruct H as [(k & Hk & Hf) Hpre]. split; [reflexivity|]. split; [|exact Hpre].
    exists k. split; [cbn in Hk; lia|exact Hf].
Qed.

(** Opening a complete file. *)
Lemma open_complete (p : Params) (stack : Temporaries) (st : State) :
  values p ->
  ID_FILE_OPEN (reads (Open (record_bytes p)) no_error stack) st
  = if file_bounds_violated p then st else installed p st.
Proof.
  intros Hp. unfold ID_FILE_OPEN.
  rewrite reads_file_then_stack, file_then_stack_complete, record_of_record_bytes
    by exact Hp.
  reflexivity.
Qed.

(** X13: a parameter file round trip.  Once [CreateFile] has returned a
    handle, [ID_FILE_SAVE] always leaves a file on the disk: the complete
    record of the ten values when all ten writes succeed, and otherwise,
    under the message "Error writing file", a leading part of that record.
    [ID_FILE_OPEN] on the complete file reads the ten values back in the
    order and sizes in which they were written, whatever its
    uninitialised temporaries held: it installs the saved parameters as a
    whole and pushes the viewport in force, provided the saved parameters
    pass the bounds check of File Open; otherwise it rejects the file the
    program itself wrote. *)
Theorem save_then_open (WriteFile : nat -> bool) (written : nat) (p : Params)
    (stack : Temporaries) (st : State) (Hp : values p) :
  match ID_FILE_SAVE true WriteFile written p with
  | (Some file, None) =>
      all_writes_succeed WriteFile /\ file = record_bytes p /\
      ID_FILE_OPEN (reads (Open file) no_error stack) st =
        (if file_bounds_violated p then st else installed p st)
  | (Some file, Some m) =>
      m = Error_writing_file /\
      (exists n : nat, (n < 10)%nat /\ WriteFile n = false) /\
      file `prefix_of` record_bytes p
  | (None, _) => False
  end.
Proof.
  pose proof (saved WriteFile written p) as H.
  destruct (ID_FILE_SAVE true WriteFile written p) as [[file|] [m|]]; try exact H.
  destruct H as [Hall ->]. split; [exact Hall|]. split; [reflexivity|].
  now apply open_complete.
Qed.

Lemma save_then_open_witness :
  values RenderSpec.small /\
  ID_FILE_SAVE true (fun _ => true) 0 RenderSpec.small
    = (Some (record_bytes RenderSpec.small), None) /\
  ID_FILE_OPEN (reads (Open (record_bytes RenderSpec.small)) no_error
                  (stack_holding AppSpec.inverted_y))
    {| params := initial; qds := [] |}
  = installed RenderSpec.small {| params := initial; qds := [] |}.
Proof.
  assert (Hv : values RenderSpec.small).
  { unfold values, Int32.in_range, Int32.min_signed, Int32.max_signed.
    repeat split; cbn; try reflexivity; lia. }
  split; [exact Hv|].
  pose proof (save_then_open (fun _ => true) 0 RenderSpec.small
                (stack_holding AppSpec.inverted_y)
                {| params := initial; qds := [] |} Hv) as H.
  change (ID_FILE_SAVE true (fun _ => true) 0 RenderSpec.small)
    with (Some (record_bytes RenderSpec.small), @None SaveMessage) in H |- *.
  cbv iota beta in H. destruct H as (_ & _ & H).
  split; [reflexivity|]. exact H.
Defined.

(** X14: the dialog and File Open disagree.  When the parameters dialog
    accepts its input, the accepted parameters, saved to a file (all
    writes succeeding), are accepted by File Open exactly when its test
    Y Min >= Y Max is false, the one bound of File Open that the dialog
    does not enforce: that is, when Y Min is below Y Max or one of the two
    is not a number. *)
Theorem dialog_values_reopen (d : DialogInput) (st st' : State)
    (WriteFile : nat -> bool) (written : nat) (stack : Temporaries)
    (Hok : snd (IDOK d st) = None)
    (Hv : values (params (fst (IDOK d st))))
    (Hw : all_writes_succeed WriteFile) :
  let p := params (fst (IDOK d st)) in
  exists file,
    ID_FILE_SAVE true WriteFile written p = (Some file, None) /\
    ID_FILE_OPEN (reads (Open file) no_error stack) st' =
      (if Double.ge (dyMin p) (dyMax p) then st' else installed p st') /\
    (Double.ge (dyMin p) (dyMax p) = false <->
     Double.lt (dyMin p) (dyMax p) = true \/
     Double.is_nan (dyMin p) = true \/ Double.is_nan (dyMax p) = true).
Proof.
  intros p.
  pose proof (AppFacts.IDOK_accepted_values d st Hok) as (Hx & _ & Hi & Hs & Ht).
  fold p in Hx, Hi, Hs, Ht, Hv.
  exists (record_bytes p). split; [|split; [|apply ge_false]].
  - pose proof (saved WriteFile written p) as H.
    destruct (ID_FILE_SAVE true WriteFile written p) as [[file|] [m|]];
      try contradiction.
    + destruct H as (_ & (n & Hn & Hf) & _). rewrite (Hw n Hn) in Hf. discriminate.
    + destruct H as [_ ->]. reflexivity.
  - rewrite (open_complete p stack st' Hv).
    unfold file_bounds_violated. rewrite Hx. cbn [orb].
    replace (Iterations p <? 1) with false by (symmetry; apply Z.ltb_ge; lia).
    replace (Slices p <? 1) with false by (symmetry; apply Z.ltb_ge; lia).
    replace (Threads p <? 1) with false by (symmetry; apply Z.ltb_ge; lia).
    replace (Threads p >? 64) with false
      by (symmetry; rewrite Z.gtb_ltb; apply Z.ltb_ge; lia).
    now rewrite !orb_false_r.
Qed.

Lemma dialog_values_reopen_witness :
  snd (IDOK AppSpec.inverted_y_dialog {| params := initial; qds := [] |}) = None /\
  exists file,
    ID_FILE_SAVE true (fun _ => true) 0 AppSpec.inverted_y = (Some file, None) /\
    ID_FILE_OPEN (reads (Open file) no_error (stack_holding initial))
      {| params := initial; qds := [] |}
    = {| params := initial; qds := [] |}.
Proof.
  split; [reflexivity|].
  assert (Hv : values AppSpec.inverted_y).
  { unfold values, Int32.in_range, Int32.min_signed, Int32.max_signed.
    repeat split; cbn; try reflexivity; lia. }
  destruct (dialog_values_reopen AppSpec.inverted_y_dialog
              {| params := initial; qds := [] |} {| params := initial; qds := [] |}
              (fun _ => true) 0 (stack_holding initial) eq_refl Hv (fun _ _ => eq_refl))
    as (file & Hs & Ho & _).
  exists file. split; [exact Hs|exact Ho].
Defined.
End ParameterFileFacts.

(** ** More on the work items of a render *)

Module TilesFacts.
Import Paint PaintSpec.

(** X15: the work items of a render stay inside the bitmap, and there
    are at least as many of them as slices were asked for.  With at least
    one slice and no more slices than pixels (at most 2^30 pixels), every
    work item [(s, e)] has [0 <= s <= e <= MaxPixel], so a worker never
    indexes the bitmap outside its bounds; the number of work items is
    [(MaxPixel - 1) / PixelStepSize + 1], which is never below [Slices]
    and can exceed it. *)
Theorem tiles_inside_bitmap (fuel : nat) (width height Slices : Z) :
  let Max := height * width in
  let Pstep := Max / Slices in
  let J := (Max - 1) / Pstep in
  1 <= Slices <= Max -> Max <= 2 ^ 30 -> J + 1 <= Z.of_nat fuel ->
  exists ts,
    tiles fuel width height Slices = Some ts /\
    Z.of_nat (length ts) = J + 1 /\ Slices <= J + 1 /\
    forall s e, In (s, e) ts -> 0 <= s <= e /\ e <= Max.
Proof.
  intros Max Pstep J HS HM Hfuel.
  pose proof (PaintFacts.tiles_closed_form fuel width height Slices HS HM Hfuel) as Ht.
  cbv zeta in Ht. fold Max Pstep J in Ht.
  assert (HP : 1 <= Pstep <= Max).
  { unfold Pstep. split.
    - apply Z.div_le_lower_bound; lia.
    - apply Z.div_le_upper_bound; nia. }
  pose proof (PaintFacts.J_bounds Pstep Max ltac:(lia) ltac:(lia)) as (HJ0 & HJ1 & HJ2).
  fold J in HJ0, HJ1, HJ2.
  eexists. split; [exact Ht|]. split; [|split].
  - rewrite length_app. unfold grid. rewrite length_map, length_seq. cbn. lia.
  - assert (Slices * Pstep <= Max).
    { unfold Pstep. apply Z.mul_div_le. lia. }
    assert (Slices - 1 <= J); [|lia].
    unfold J. apply Z.div_le_lower_bound; [lia|]. nia.
  - intros s e Hin. apply in_app_or in Hin as [Hin|[Hin|[]]].
    + unfold grid in Hin. apply in_map_iff in Hin as (j & E & Hj).
      apply in_seq in Hj. injection E as <- <-.
      assert (Z.of_nat j + 1 <= J) by lia. nia.
    + injection Hin as <- <-. lia.
Qed.

Lemma tiles_inside_bitmap_witness :
  exists ts,
    tiles 19 19 1 10 = Some ts /\
    Z.of_nat (length ts) = 19 /\ 10 <= 19 /\
    forall s e, In (s, e) ts -> 0 <= s <= e /\ e <= 19.
Proof.
  apply (tiles_inside_bitmap 19 19 1 10); repeat split; vm_compute; discriminate.
Defined.

(** X16: more slices than pixels.  With [0 < MaxPixel < Slices] the step
    [MaxPixel / Slices] is 0, and the loop that creates the work items
    enqueues the empty item (0, 0) on every pass without ever reaching its
    end: no number of passes completes the set-up of the render. *)
Theorem set_up_never_ends (Max Slices g : Z) (fuel : nat)
    (HM : 0 < Max < Slices) (HS : Slices <= Int32.max_signed) :
  loop_calls fuel (Int32.div Max Slices) Max 0 (Int32.div Max Slices) = None /\
  enqueue_calls fuel Max Slices = None /\
  build_queue fuel g Max Slices = None.
Proof.
  assert (EP : Int32.div Max Slices = 0).
  { unfold Int32.div. rewrite Z.quot_small by lia. reflexivity. }
  assert (Hl : forall fuel, loop_calls fuel 0 Max 0 0 = None).
  { clear - HM. intros fuel. induction fuel as [|fuel IH]; cbn [loop_calls].
    - destruct (Z.ltb_spec 0 Max); [reflexivity|lia].
    - destruct (Z.ltb_spec 0 Max); [|lia].
      change (Int32.add 0 0) with 0.
      replace (Int32.min 0 Max) with 0 by (rewrite PaintFacts.Int32_min_spec; lia).
      rewrite IH. reflexivity. }
  rewrite EP. split; [apply Hl|]. split.
  - unfold enqueue_calls. rewrite EP, Hl.
    destruct (Slices =? 0); reflexivity.
  - unfold build_queue. rewrite EP.
    rewrite (PaintFacts.enqueue_loop_zero_step Max fuel) by lia.
    destruct (Slices =? 0); reflexivity.
Qed.

Lemma set_up_never_ends_witness :
  build_queue 1000 0 (MaxPixel 20 10) 5000 = None.
Proof.
  apply (set_up_never_ends 200 5000 0 1000); unfold Int32.max_signed; lia.
Defined.
End TilesFacts.

(** ** Pixels and points *)

Module PixelFacts.
Import Worker.

(** X17: the bitmap is walked row by row.  For a bitmap of
    [xMaxPixel >= 1] columns and [yMaxPixel] rows, every pixel index below
    [yMaxPixel * xMaxPixel] has a column and a row inside the bitmap, and
    the index is [row * xMaxPixel + column]: different indices are
    different positions. *)
Theorem pixel_position (P : ThreadProcParameters) (Pixel : Z)
    (Hw : 1 <= xMaxPixel P)
    (Hp : 0 <= Pixel < yMaxPixel P * xMaxPixel P) :
  exists xp yp,
    xPixel P Pixel = Some xp /\ yPixel P Pixel = Some yp /\
    0 <= xp < xMaxPixel P /\ 0 <= yp < yMaxPixel P /\
    Pixel = yp * xMaxPixel P + xp /\
    forall Pixel', xPixel P Pixel' = Some xp -> yPixel P Pixel' = Some yp ->
                   Pixel' = Pixel.
Proof.
  assert (Hd : forall a, int_defined a (xMaxPixel P) = true).
  { intros a. unfold int_defined. destruct (Z.eqb_spec (xMaxPixel P) 0); [lia|].
    destruct (Z.eqb_spec (xMaxPixel P) (-1)); [lia|].
    now rewrite andb_false_r. }
  unfold xPixel, yPixel. rewrite Hd.
  exists (Z.rem Pixel (xMaxPixel P)), (Z.quot Pixel (xMaxPixel P)).
  split; [reflexivity|]. split; [reflexivity|].
  rewrite Z.rem_mod_nonneg, Z.quot_div_nonneg by lia.
  pose proof (Z.mod_pos_bound Pixel (xMaxPixel P) ltac:(lia)).
  pose proof (Z.div_mod Pixel (xMaxPixel P) ltac:(lia)) as Hdm.
  assert (0 <= Pixel / xMaxPixel P) by (apply Z.div_pos; lia).
  assert (Pixel / xMaxPixel P < yMaxPixel P).
  { apply Z.div_lt_upper_bound; lia. }
  repeat split; try lia.
  intros Pixel'. rewrite Hd. intros Hx Hy.
  injection Hx as Hx. injection Hy as Hy.
  pose proof (Z.quot_rem' Pixel' (xMaxPixel P)). lia.
Qed.

Lemma pixel_position_witness :
  let P := Render.thread_parameters RenderSpec.small 3 4 1 in
  xPixel P 7 = Some 1 /\ yPixel P 7 = Some 2 /\
  exists xp yp, xPixel P 7 = Some xp /\ yPixel P 7 = Some yp /\ 7 = yp * 3 + xp.
Proof.
  intros P. split; [reflexivity|]. split; [reflexivity|].
  destruct (pixel_position P 7 ltac:(vm_compute; discriminate)
              ltac:(split; vm_compute; first [reflexivity|discriminate]))
    as (xp & yp & Hx & Hy & _ & _ & E & _).
  exists xp, yp. auto.
Defined.
End PixelFacts.

(** ** Colours of the HSV system *)

Module HSVFacts.
Import HSVtoRGB.

(** A hue that is not a number: the conversion to [long] gives the
    indefinite value, the [default] branch of the [switch] is taken, and
    the blue channel is not a number either. *)
Lemma hsv2rgb_nan :
  hsv2rgb (mkHSV S754_nan (Double.of_int 1) (Double.of_int 1))
  = mkRGB (Double.of_int 1) Double.zero S754_nan.
Proof. vm_compute. reflexivity. Qed.

(** X18: the colours of escaped points are fully saturated.  With
    saturation 1 and value 1, as [mandelbrotHSV] sets them for every
    escaped point, [hsv2rgb] returns a colour in which one channel is
    exactly 1.0 and another exactly 0.0, whatever the hue.  For a hue that
    is not a number the colour is (1, 0, NaN), which the worker packs to
    255: whenever the triple logarithm of an iteration count below the
    budget is not a number, the pixel stored is 255. *)
Theorem hsv2rgb_full_saturation (hue : Double.t) :
  let one := Double.of_int 1 in
  let rgb := hsv2rgb (mkHSV hue one one) in
  In one [r rgb; g rgb; b rgb] /\ In Double.zero [r rgb; g rgb; b rgb] /\
  hsv2rgb (mkHSV S754_nan one one) = mkRGB one Double.zero S754_nan /\
  Worker.pack (mkRGB one Double.zero S754_nan) = 255 /\
  forall (log : Double.t -> Double.t) (cache : option Double.t) (k M : Z),
    k <> M -> log3 log (Double.of_int k) = S754_nan ->
    fst (Worker.hsv_pixel log cache k M) = 255.
Proof.
  intros one rgb.
  split; [|split; [|split; [exact hsv2rgb_nan|split; [vm_compute; reflexivity|]]]].
  - subst rgb. unfold hsv2rgb. cbn [s v h].
    change (Double.le one Double.zero) with false. cbn iota.
    destruct (Double.cvttsd2si _) as [|[[[|[]|]|[|[]|]|]|[[|[]|]|[|[]|]|]|]|]; cbn; auto 6.
  - subst rgb. unfold hsv2rgb. cbn [s v h].
    change (Double.le one Double.zero) with false. cbn iota.
    change (Double.mul one (Double.sub (Double.of_int 1) one)) with Double.zero.
    destruct (Double.cvttsd2si _) as [|[[[|[]|]|[|[]|]|]|[[|[]|]|[|[]|]|]|]|]; cbn; auto 6.
  - intros log cache k M Hk Hnan. unfold Worker.hsv_pixel, mandelbrotHSV.
    destruct (Z.eqb_spec k M); [contradiction|]. rewrite Hnan.
    cbn [fst].
    change (Double.div S754_nan ?x) with S754_nan.
    destruct cache; reflexivity.
Qed.

Lemma hsv2rgb_full_saturation_witness :
  fst (Worker.hsv_pixel (fun _ => S754_nan) None 1 1000) = 255.
Proof.
  destruct (hsv2rgb_full_saturation S754_nan) as (_ & _ & _ & _ & H).
  apply (H (fun _ => S754_nan) None 1 1000); [discriminate|reflexivity].
Defined.
End HSVFacts.

(** ** The registry class *)

Module ApplicationRegistryFacts.
Import ApplicationRegistry.

(** The branches of [Init], by the first call that does not succeed. *)
Ltac Init_branches c :=
  unfold Init; cbn [_hWnd];
  repeat match goal with
         | |- context [negb (?f c)] => destruct (f c); cbn [negb]
         | |- context [GetFileVersionInfoSize c =? 0] =>
             destruct (GetFileVersionInfoSize c =? 0)
         | |- context [StringCchPrintf_RegistrySubkey c] =>
             destruct (StringCchPrintf_RegistrySubkey c)
         end.

(** X19: what a first [Init] leaves behind.  Called on a new object with
    a window handle, [Init] stores the handle in every case.  When it
    returns [true] the subkey is the text of the last [StringCchPrintf],
    [isOK] still holds, no message was shown and every array was deleted.
    When it returns [false] it has cleared [isOK], left the subkey empty
    and shown exactly one message with the line of the failed call; every
    array was deleted except on the last branch (line 245), which
    returns with the version block and the subkey buffer still
    allocated. *)
Theorem Init_first (c : InitCalls) (hWnd : Z) :
  let r := Init c hWnd new in
  _hWnd (object r) = hWnd /\
  if returned r then
    StringCchPrintf_RegistrySubkey c = Some (_psRegistrySubKey (object r)) /\
    isOK (object r) = true /\ shown r = [] /\ not_deleted r = []
  else
    isOK (object r) = false /\
    _psRegistrySubKey (object r) = EmptyString /\
    shown r = [(_LastAPICallLine (object r), _LastErrorNumber (object r))] /\
    (not_deleted r = [] \/
     _LastAPICallLine (object r) = 245 /\
     not_deleted r = [pFileVersionInfo; pszRegistrySubkey]).
Proof.
  cbv zeta. change (_hWnd new =? 0) with true.
  Init_branches c; cbn; auto 10.
Qed.

(** X20: [Init] only runs once.  After a call with a window handle that
    is not null, every further call returns [true] at once: it changes
    nothing, shows nothing and builds no subkey, also when the first call
    had failed, so that [isOK] is false and the subkey is still empty. *)
Theorem Init_again (c c' : InitCalls) (hWnd hWnd' : Z) (o : t)
    (Hh : hWnd <> 0) :
  let r := Init c hWnd o in
  Init c' hWnd' (object r)
  = {| returned := true; object := object r; shown := []; not_deleted := [] |}.
Proof.
  cbv zeta.
  assert (H : (_hWnd (object (Init c hWnd o)) =? 0) = false).
  { apply Z.eqb_neq. unfold Init.
    destruct (Z.eqb_spec (_hWnd o) 0) as [E|E]; cbn [negb]; [|exact E].
    repeat match goal with
           | |- context [negb (?f c)] => destruct (f c); cbn [negb]
           | |- context [GetFileVersionInfoSize c =? 0] =>
               destruct (GetFileVersionInfoSize c =? 0)
           | |- context [StringCchPrintf_RegistrySubkey c] =>
               destruct (StringCchPrintf_RegistrySubkey c)
           end; cbn; exact Hh. }
  unfold Init at 1. rewrite H. reflexivity.
Qed.

Lemma Init_again_witness :
  let c := mkInitCalls true false 0 false false false false false false false
             false false false false false None (fun _ => 5) in
  returned (Init c 1 new) = false /\
  returned (Init c 1 (object (Init c 1 new))) = true /\
  _psRegistrySubKey (object (Init c 1 new)) = EmptyString.
Proof.
  intros c. split; [reflexivity|]. split; [|reflexivity].
  now rewrite (Init_again c c 1 1 new ltac:(discriminate)).
Defined.

(** The key of a value that has just been set. *)
Lemma value_set_lookup (reg : Registry) (sub entry : string) (data : list Byte.byte) :
  exists key,
    value_set (created reg sub) sub entry data !! sub = Some (<[entry := data]> key).
Proof.
  unfold created, value_set. destruct (reg !! sub) as [key|] eqn:E.
  - exists key. rewrite E. apply lookup_insert_eq.
  - exists ∅.
    assert (Hc : <[sub := ∅]> reg !! sub = Some (∅ : gmap string (list Byte.byte)))
      by apply lookup_insert_eq.
    rewrite Hc. apply lookup_insert_eq.
Qed.

(** X21: a block saved is the block loaded.  On an initialised object,
    when [SaveMemoryBlock] returns [TRUE] for an entry, a following
    [LoadMemoryBlock] of that entry into a block of the same size returns
    [TRUE] with the bytes saved; into a block of another size it returns
    [FALSE] and leaves the block and [isOK] as they were. *)
Theorem Load_after_Save (c : SaveCalls) (reg reg' : Registry) (sEntry : string)
    (saved block : list Byte.byte) (o o' : t) (out : list (Z * Z))
    (Hsave : SaveMemoryBlock c reg sEntry saved o = (true, reg', o', out)) :
  LoadMemoryBlock reg' sEntry block o' =
    if (length block =? length saved)%nat
    then (true, saved, with_line 295 o')
    else (false, block, with_line 284 o').
Proof.
  unfold SaveMemoryBlock in Hsave.
  destruct (Z.eqb_spec (_hWnd o) 0) as [|Hh]; [discriminate|].
  destruct (RegCreateKeyEx c =? ERROR_SUCCESS); cbn [negb] in Hsave; [|discriminate].
  destruct (RegSetValueEx c =? ERROR_SUCCESS); cbn [negb] in Hsave; [|discriminate].
  injection Hsave as <- <- _.
  unfold LoadMemoryBlock. cbn [with_line _hWnd _psRegistrySubKey].
  destruct (Z.eqb_spec (_hWnd o) 0); [contradiction|].
  set (sub := _psRegistrySubKey o).
  pose proof (value_set_lookup reg sub sEntry saved) as Hkey.
  destruct Hkey as (key & Hk).
  unfold RegOpenKeyEx. rewrite Hk. cbn [negb Z.eqb ERROR_SUCCESS].
  unfold RegQueryValueEx_size, RegQueryValueEx_data. rewrite lookup_insert_eq.
  cbn [negb Z.eqb ERROR_SUCCESS orb].
  rewrite (Nat.eqb_sym (length saved)).
  destruct (Nat.eqb_spec (length block) (length saved)) as [E|E]; cbn [negb].
  - rewrite E, Nat.leb_refl. cbn. rewrite drop_ge, app_nil_r by lia. reflexivity.
  - reflexivity.
Qed.

Lemma Load_after_Save_witness :
  let c := mkSaveCalls 0 0 in
  let o := with_line 0 (object (Init (mkInitCalls true false 0 false false false false
             false false false false false false false false None (fun _ => 5)) 1 new)) in
  let saved := [Byte.x01; Byte.x02; Byte.x03] in
  exists reg' o' out,
    SaveMemoryBlock c ∅ "WindowPlacement" saved o = (true, reg', o', out) /\
    LoadMemoryBlock reg' "WindowPlacement" [Byte.x00; Byte.x00; Byte.x00] o'
    = (true, saved, with_line 295 o') /\
    reg' !! EmptyString = Some {["WindowPlacement" := saved]}.
Proof.
  intros c o saved. eexists _, _, _. split; [reflexivity|]. split.
  - exact (Load_after_Save c ∅ _ "WindowPlacement" saved
             [Byte.x00; Byte.x00; Byte.x00] o _ _ eq_refl).
  - reflexivity.
Defined.

(** X22: without [Init] nothing is loaded or saved.  On an object whose
    window handle is still null, both operations return [FALSE] with the
    error number [ERROR_APP_INIT_FAILURE] and [isOK] cleared; they show no
    message and leave the block and the registry as they were. *)
Theorem not_initialised_refuses (c : SaveCalls) (reg : Registry) (sEntry : string)
    (block : list Byte.byte) (o : t) (Hh : _hWnd o = 0) :
  let l := LoadMemoryBlock reg sEntry block o in
  let s := SaveMemoryBlock c reg sEntry block o in
  l.1 = (false, block) /\ s.1.1 = (false, reg) /\ s.2 = [] /\
  isOK l.2 = false /\ isOK s.1.2 = false /\
  _LastErrorNumber l.2 = ERROR_APP_INIT_FAILURE /\
  _LastErrorNumber s.1.2 = ERROR_APP_INIT_FAILURE.
Proof.
  cbv zeta. unfold LoadMemoryBlock, SaveMemoryBlock. rewrite Hh. cbn.
  repeat split.
Qed.

Lemma not_initialised_refuses_witness :
  _hWnd new = 0 /\
  (LoadMemoryBlock ∅ "WindowPlacement" [Byte.x00] new).1 = (false, [Byte.x00]) /\
  (SaveMemoryBlock (mkSaveCalls 0 0) ∅ "WindowPlacement" [Byte.x00] new).1.1 = (false, ∅).
Proof.
  split; [reflexivity|].
  destruct (not_initialised_refuses (mkSaveCalls 0 0) ∅ "WindowPlacement" [Byte.x00]
              new eq_refl) as (H1 & H2 & _).
  split; [exact H1|exact H2].
Defined.
End ApplicationRegistryFacts.

(** ** The window placement from one run to the next *)

Module PlacementFacts.
Import ApplicationRegistry Placement.

Lemma Init_new (c : InitCalls) (hWnd : Z) :
  _hWnd (object (Init c hWnd new)) = hWnd /\
  if returned (Init c hWnd new)
  then StringCchPrintf_RegistrySubkey c = Some (_psRegistrySubKey (object (Init c hWnd new)))
  else _psRegistrySubKey (object (Init c hWnd new)) = EmptyString.
Proof.
  change (_hWnd new =? 0) with true.
  ApplicationRegistryFacts.Init_branches c; cbn; auto.
Qed.

Lemma Init_set (c : InitCalls) (hWnd : Z) (o : t) :
  _hWnd o <> 0 ->
  Init c hWnd o = {| returned := true; object := o; shown := []; not_deleted := [] |}.
Proof.
  intros H. unfold Init. destruct (Z.eqb_spec (_hWnd o) 0); [contradiction|reflexivity].
Qed.

(** What [LoadMemoryBlock] finds after [SaveMemoryBlock] under the same
    subkey. *)
Lemma Load_saved (reg : Registry) (sub : string) (wp block : list Byte.byte) (o : t) :
  _hWnd o <> 0 -> _psRegistrySubKey o = sub -> length block = length wp ->
  (LoadMemoryBlock (value_set (created reg sub) sub "WindowPlacement" wp)
     "WindowPlacement" block o).1 = (true, wp).
Proof.
  intros Hh Hs Hl. unfold LoadMemoryBlock.
  destruct (Z.eqb_spec (_hWnd o) 0); [contradiction|].
  destruct (ApplicationRegistryFacts.value_set_lookup reg sub "WindowPlacement" wp)
    as (key & Hk).
  unfold RegOpenKeyEx. rewrite Hs, Hk. cbn [negb Z.eqb ERROR_SUCCESS].
  unfold RegQueryValueEx_size, RegQueryValueEx_data. rewrite lookup_insert_eq.
  cbn [negb Z.eqb ERROR_SUCCESS orb].
  rewrite Hl, Nat.eqb_refl, Nat.leb_refl. cbn.
  rewrite drop_ge, app_nil_r by lia. reflexivity.
Qed.

(** X26: the window placement from one run to the next.  When the
    window is destroyed with a handle that is not null and the two
    registry calls of the save succeed, the placement is saved whatever
    [Init] met: the second [Init] always returns [true].  If the first
    [Init] succeeded, the next run, whose [Init] builds the same subkey,
    hands [SetWindowPlacement] the placement saved (with the flags
    adjusted for a minimised window).  If the first [Init] failed, the
    placement went under the empty subkey, the root of
    [HKEY_CURRENT_USER]. *)
Theorem placement_saved_and_restored (c1 c2 c' : InitCalls) (sc : SaveCalls)
    (hWnd hWnd' : Z) (reg : Registry) (wp block : list Byte.byte)
    (Hh : hWnd <> 0) (Hh' : hWnd' <> 0)
    (Hcreate : RegCreateKeyEx sc = ERROR_SUCCESS)
    (Hset : RegSetValueEx sc = ERROR_SUCCESS)
    (Hlen : length block = length wp)
    (Hnext : returned (Init c' hWnd' new) = true)
    (Hsame : StringCchPrintf_RegistrySubkey c' = StringCchPrintf_RegistrySubkey c1) :
  let reg' := (WM_DESTROY c1 c2 sc hWnd reg wp).1 in
  if returned (Init c1 hWnd new)
  then (InitInstance c' hWnd' reg' block).1 = Some (set_min_position wp)
  else exists key, reg' !! EmptyString = Some key /\
                   key !! "WindowPlacement" = Some wp.
Proof.
  cbv zeta. unfold WM_DESTROY.
  destruct (Init_new c1 hWnd) as [Hw1 Hs1].
  rewrite (Init_set c2 hWnd (object (Init c1 hWnd new))) by (rewrite Hw1; exact Hh).
  cbn [returned object shown].
  unfold SaveMemoryBlock. rewrite Hw1, Hcreate, Hset.
  destruct (Z.eqb_spec hWnd 0); [contradiction|]. cbn [negb Z.eqb ERROR_SUCCESS fst].
  destruct (returned (Init c1 hWnd new)).
  - destruct (Init_new c' hWnd') as [Hw' Hs']. rewrite Hnext in Hs'.
    unfold InitInstance. rewrite Hnext.
    assert (Hsub : _psRegistrySubKey (object (Init c' hWnd' new))
                   = _psRegistrySubKey (object (Init c1 hWnd new))) by congruence.
    pose proof (Load_saved reg (_psRegistrySubKey (object (Init c1 hWnd new))) wp block
                  (object (Init c' hWnd' new)) ltac:(rewrite Hw'; exact Hh') Hsub Hlen) as Hl.
    destruct (LoadMemoryBlock _ _ block _) as [[loaded wp'] o'].
    cbn in Hl. injection Hl as -> ->. reflexivity.
  - rewrite Hs1.
    destruct (ApplicationRegistryFacts.value_set_lookup reg EmptyString
                "WindowPlacement" wp) as (key & Hk).
    eexists. split; [exact Hk|]. apply lookup_insert_eq.
Qed.

Lemma placement_saved_and_restored_witness :
  (InitInstance
     (mkInitCalls true true 100 true true true true true true true true true
        true true true (Some "Software\A\B\1") (fun _ => 0)) 1
     (WM_DESTROY
        (mkInitCalls true true 100 true true true true true true true true true
           true true true (Some "Software\A\B\1") (fun _ => 0))
        (mkInitCalls true true 100 true true true true true true true true true
           true true true (Some "Software\A\B\1") (fun _ => 0))
        (mkSaveCalls 0 0) 1 ∅ (replicate 44 Byte.x07)).1
     (replicate 44 Byte.x00)).1 = Some (replicate 44 Byte.x07).
Proof.
  exact (placement_saved_and_restored
           (mkInitCalls true true 100 true true true true true true true true true
              true true true (Some "Software\A\B\1") (fun _ => 0))
           (mkInitCalls true true 100 true true true true true true true true true
              true true true (Some "Software\A\B\1") (fun _ => 0))
           (mkInitCalls true true 100 true true true true true true true true true
              true true true (Some "Software\A\B\1") (fun _ => 0))
           (mkSaveCalls 0 0) 1 1 ∅ (replicate 44 Byte.x07)
           (replicate 44 Byte.x00) ltac:(discriminate) ltac:(discriminate)
           eq_refl eq_refl eq_refl eq_refl eq_refl).
Defined.
End PlacementFacts.
